(** * npm-git-hooks: the multi-package task dispatcher, verified

    A shallow embedding of the dispatcher of the npm-git-hooks repository:
    the regular expressions it builds ([lib/utils.js], [buildFilePattern] and
    [scandir]), its error handlers ([lib/handlers.js]), its git queries
    ([lib/git.js]) and the three generations of the dispatch loop
    ([src/main.js], [src/npm-git-hooks.js] and the oldest one-file variant);
    then the functions that walk and change the file system ([findPackage],
    [getRootDir], [getHooksDir]) and the configuration that [src/install.js]
    writes.

    JavaScript strings are lists of 8-bit code units, JSON manifests are a
    small inductive type, and effectful code runs in a writer/exception monad
    whose trace records every shell command that was started.  The variable
    of a module and the disk, where the code changes them, are passed in and
    out. *)

From Stdlib Require Import List Ascii String Bool NArith ZArith Lia.
Import ListNotations.

Set Implicit Arguments.
Set Warnings "-register-all".
Local Open Scope list_scope.

(** ** JavaScript strings *)

Definition jsstring := list ascii.

Definition str (s : string) : jsstring := list_ascii_of_string s.

Definition chr (s : string) : ascii :=
  match s with
  | String c _ => c
  | EmptyString => Ascii.zero
  end.

Fixpoint str_eqb (a b : jsstring) : bool :=
  match a, b with
  | [], [] => true
  | x :: a', y :: b' => Ascii.eqb x y && str_eqb a' b'
  | _, _ => false
  end.

(** [Array.prototype.join] on an array of strings. *)
Fixpoint join (sep : jsstring) (l : list jsstring) : jsstring :=
  match l with
  | [] => []
  | [x] => x
  | x :: l' => x ++ sep ++ join sep l'
  end.

(** [s[s.length - 1]]: the last code unit, [None] for [undefined]. *)
Fixpoint last_char (s : jsstring) : option ascii :=
  match s with
  | [] => None
  | [c] => Some c
  | _ :: s' => last_char s'
  end.

Definition ends_with_slash (s : jsstring) : bool :=
  match last_char s with
  | Some c => Ascii.eqb c (chr "/")
  | None => false
  end.

Fixpoint starts_with (p s : jsstring) : bool :=
  match p, s with
  | [], _ => true
  | x :: p', y :: s' => Ascii.eqb x y && starts_with p' s'
  | _ :: _, [] => false
  end.

(** [s.indexOf(p) >= 0] on strings. *)
Fixpoint includes (p s : jsstring) : bool :=
  starts_with p s ||
  match s with
  | [] => false
  | _ :: s' => includes p s'
  end.

(** Character classes of ECMAScript on code units below 256. *)
Definition code (c : ascii) : N := N_of_ascii c.

Definition in_range (lo hi : N) (c : ascii) : bool :=
  (lo <=? code c)%N && (code c <=? hi)%N.

Definition is_line_terminator (c : ascii) : bool :=
  (code c =? 10)%N || (code c =? 13)%N.

Definition is_white_space (c : ascii) : bool :=
  in_range 9 13 c || (code c =? 32)%N || (code c =? 160)%N.

Definition is_digit (c : ascii) : bool := in_range 48 57 c.

Definition is_letter (c : ascii) : bool :=
  in_range 65 90 c || in_range 97 122 c.

Definition is_word_char (c : ascii) : bool :=
  is_letter c || is_digit c || (code c =? 95)%N.

(** Canonicalize of the [i] flag: the upper case of a code unit when that
    is one code unit again (below 256: the ASCII letters, and the Latin-1
    letters but the division sign, the sharp s, the micro sign and y with
    diaeresis). *)
Definition canonicalize (c : ascii) : ascii :=
  if in_range 97 122 c
     || (in_range 224 254 c && negb (code c =? 247)%N)
  then ascii_of_N (code c - 32) else c.

(** [String.prototype.trim]. *)
Fixpoint trim_start (s : jsstring) : jsstring :=
  match s with
  | c :: s' => if is_white_space c then trim_start s' else s
  | [] => []
  end.

Definition trim (s : jsstring) : jsstring :=
  rev (trim_start (rev (trim_start s))).

(** ** Regular expressions

    The fragment of ECMAScript patterns the repository writes: literals, [.],
    the class escapes, identity escapes, groups, alternation, the
    assertions of the start and the end of the input, and the quantifiers
    [*], [+] and [?] (greedy or lazy: only the existence of a match is
    observed).  Bracket classes, braces, word boundaries, look-ahead and
    back-references are outside the fragment. *)

Module RegExp.

Inductive cset : Type :=
  | CAny                      (* .  : anything but a line terminator *)
  | CChar (c : ascii)         (* a pattern character *)
  | CSpace (negated : bool)   (* \s \S *)
  | CDigit (negated : bool)   (* \d \D *)
  | CWord (negated : bool).   (* \w \W *)

Inductive re : Type :=
  | Void
  | Eps
  | Bol                       (* ^ : at the start of the input *)
  | Eol                       (* $ : at the end of the input *)
  | Sym (cs : cset)
  | Cat (r1 r2 : re)
  | Alt (r1 r2 : re)
  | Star (r : re).

Definition plus (r : re) : re := Cat r (Star r).
Definition opt (r : re) : re := Alt r Eps.
Definition cat_all (l : list re) : re := fold_right Cat Eps l.
Definition alt_all (l : list re) : re := fold_right Alt Void l.

Section Matching.

(** The [i] flag. *)
Variable ignoreCase : bool.

Definition char_eq (p c : ascii) : bool :=
  if ignoreCase then Ascii.eqb (canonicalize p) (canonicalize c)
  else Ascii.eqb p c.

Definition cs_mem (cs : cset) (c : ascii) : bool :=
  match cs with
  | CAny => negb (is_line_terminator c)
  | CChar p => char_eq p c
  | CSpace n => xorb n (is_white_space c)
  | CDigit n => xorb n (is_digit c)
  | CWord n => xorb n (is_word_char c)
  end.

Definition is_nil (s : jsstring) : bool :=
  match s with [] => true | _ => false end.

(** [Match b e r w]: [r] matches [w], where [b] tells that [w] starts at
    the start of the input and [e] that it ends at the end of the input. *)
Inductive Match : bool -> bool -> re -> jsstring -> Prop :=
| MEps b e : Match b e Eps []
| MBol e : Match true e Bol []
| MEol b : Match b true Eol []
| MSym b e cs c : cs_mem cs c = true -> Match b e (Sym cs) [c]
| MCat b e r1 r2 w1 w2 :
    Match b (e && is_nil w2) r1 w1 ->
    Match (b && is_nil w1) e r2 w2 ->
    Match b e (Cat r1 r2) (w1 ++ w2)
| MAltL b e r1 r2 w : Match b e r1 w -> Match b e (Alt r1 r2) w
| MAltR b e r1 r2 w : Match b e r2 w -> Match b e (Alt r1 r2) w
| MStarNil b e r : Match b e (Star r) []
| MStarApp b e r w1 w2 :
    Match b (e && is_nil w2) r w1 ->
    Match (b && is_nil w1) e (Star r) w2 ->
    Match b e (Star r) (w1 ++ w2).

(** Does [r] match the empty string at a position that is the start of
    the input when [b], the end of the input when [e]? *)
Fixpoint nullable (b e : bool) (r : re) : bool :=
  match r with
  | Void => false
  | Eps => true
  | Bol => b
  | Eol => e
  | Sym _ => false
  | Cat r1 r2 => nullable b e r1 && nullable b e r2
  | Alt r1 r2 => nullable b e r1 || nullable b e r2
  | Star _ => true
  end.

(** What is left of [r] after the code unit [c], read at a position that
    is the start of the input when [b]. *)
Fixpoint deriv (b : bool) (c : ascii) (r : re) : re :=
  match r with
  | Void => Void
  | Eps => Void
  | Bol => Void
  | Eol => Void
  | Sym cs => if cs_mem cs c then Eps else Void
  | Cat r1 r2 =>
      if nullable b false r1 then Alt (Cat (deriv b c r1) r2) (deriv b c r2)
      else Cat (deriv b c r1) r2
  | Alt r1 r2 => Alt (deriv b c r1) (deriv b c r2)
  | Star r1 => Cat (deriv b c r1) (Star r1)
  end.

(** Does [r] match from the current position on, which is the start of
    the input when [b]? *)
Fixpoint match_prefix (b : bool) (r : re) (s : jsstring) : bool :=
  nullable b (is_nil s) r ||
  match s with
  | [] => false
  | c :: s' => match_prefix false (deriv b c r) s'
  end.

(** RegExpBuiltinExec without the [g] and [y] flags: try every start
    index in turn; the result is whether a match was found. *)
Fixpoint search_from (b : bool) (r : re) (s : jsstring) : bool :=
  match_prefix b r s ||
  match s with
  | [] => false
  | _ :: s' => search_from false r s'
  end.

Definition search (r : re) (s : jsstring) : bool := search_from true r s.

End Matching.

(** *** Reading a pattern

    The pattern source is read one code unit at a time.  The reader keeps the
    enclosing groups on a stack, the finished alternatives of the current
    group, the terms of the current alternative (last first), and whether a
    quantifier may follow. *)

Inductive compiled (A : Type) : Type :=
| Compiled (a : A)
| SyntaxErr       (* [new RegExp] throws a SyntaxError *)
| Unsupported.    (* outside the fragment described above *)

Arguments SyntaxErr {A}.
Arguments Unsupported {A}.

Inductive mode : Type :=
| Normal
| Escape      (* after a backslash *)
| Open        (* after an opening parenthesis *)
| OpenQ.      (* after an opening parenthesis and a question mark *)

Inductive qstate : Type :=
| QNone       (* nothing to repeat *)
| QAtom       (* the last term may take a quantifier *)
| QQuant.     (* the last term has one: a question mark makes it lazy *)

Record pstate : Type := PState {
  p_mode : mode;
  p_stack : list (list re * list re);
  p_alts : list re;
  p_seq : list re;
  p_q : qstate
}.

Definition init : pstate := PState Normal [] [] [] QNone.

Definition push_atom (st : pstate) (a : re) : pstate :=
  PState Normal (p_stack st) (p_alts st) (a :: p_seq st) QAtom.

(** An assertion is a term that takes no quantifier. *)
Definition push_assertion (st : pstate) (a : re) : pstate :=
  PState Normal (p_stack st) (p_alts st) (a :: p_seq st) QNone.

Definition close_alts (alts seq : list re) : re :=
  alt_all (rev (cat_all (rev seq) :: alts)).

Definition quantify (c : ascii) (r : re) : re :=
  if Ascii.eqb c "*"%char then Star r
  else if Ascii.eqb c "+"%char then plus r
  else opt r.

Definition is_quantifier (c : ascii) : bool :=
  Ascii.eqb c "*"%char || Ascii.eqb c "+"%char || Ascii.eqb c "?"%char.

Definition is_unsupported (c : ascii) : bool :=
  Ascii.eqb c "["%char || Ascii.eqb c "{"%char.

Definition step_normal (st : pstate) (c : ascii) : compiled pstate :=
  if Ascii.eqb c "\"%char then
    Compiled (PState Escape (p_stack st) (p_alts st) (p_seq st) (p_q st))
  else if Ascii.eqb c "("%char then
    Compiled (PState Open ((p_alts st, p_seq st) :: p_stack st) [] [] QNone)
  else if Ascii.eqb c ")"%char then
    match p_stack st with
    | [] => SyntaxErr
    | (alts', seq') :: stk =>
        Compiled (PState Normal stk alts'
                         (close_alts (p_alts st) (p_seq st) :: seq') QAtom)
    end
  else if Ascii.eqb c "|"%char then
    Compiled (PState Normal (p_stack st)
                     (cat_all (rev (p_seq st)) :: p_alts st) [] QNone)
  else if is_quantifier c then
    match p_q st, p_seq st with
    | QAtom, a :: seq' =>
        Compiled (PState Normal (p_stack st) (p_alts st)
                         (quantify c a :: seq') QQuant)
    | QQuant, _ =>
        if Ascii.eqb c "?"%char then
          Compiled (PState Normal (p_stack st) (p_alts st) (p_seq st) QNone)
        else SyntaxErr
    | _, _ => SyntaxErr
    end
  else if Ascii.eqb c "."%char then Compiled (push_atom st (Sym CAny))
  else if Ascii.eqb c "^"%char then Compiled (push_assertion st Bol)
  else if Ascii.eqb c "$"%char then Compiled (push_assertion st Eol)
  else if is_unsupported c then Unsupported
  else Compiled (push_atom st (Sym (CChar c))).

Definition escape_atom (c : ascii) : compiled re :=
  if Ascii.eqb c "d"%char then Compiled (Sym (CDigit false))
  else if Ascii.eqb c "D"%char then Compiled (Sym (CDigit true))
  else if Ascii.eqb c "w"%char then Compiled (Sym (CWord false))
  else if Ascii.eqb c "W"%char then Compiled (Sym (CWord true))
  else if Ascii.eqb c "s"%char then Compiled (Sym (CSpace false))
  else if Ascii.eqb c "S"%char then Compiled (Sym (CSpace true))
  else if Ascii.eqb c "t"%char then Compiled (Sym (CChar (ascii_of_N 9)))
  else if Ascii.eqb c "n"%char then Compiled (Sym (CChar (ascii_of_N 10)))
  else if Ascii.eqb c "v"%char then Compiled (Sym (CChar (ascii_of_N 11)))
  else if Ascii.eqb c "f"%char then Compiled (Sym (CChar (ascii_of_N 12)))
  else if Ascii.eqb c "r"%char then Compiled (Sym (CChar (ascii_of_N 13)))
  else if is_letter c || is_digit c then Unsupported
  else Compiled (Sym (CChar c)).

Definition step_state (st : pstate) (c : ascii) : compiled pstate :=
  match p_mode st with
  | Normal => step_normal st c
  | Escape =>
      match escape_atom c with
      | Compiled a => Compiled (push_atom st a)
      | SyntaxErr => SyntaxErr
      | Unsupported => Unsupported
      end
  | Open =>
      if Ascii.eqb c "?"%char then
        Compiled (PState OpenQ (p_stack st) (p_alts st) (p_seq st) (p_q st))
      else
        step_normal
          (PState Normal (p_stack st) (p_alts st) (p_seq st) (p_q st)) c
  | OpenQ =>
      if Ascii.eqb c ":"%char then
        Compiled (PState Normal (p_stack st) (p_alts st) (p_seq st) (p_q st))
      else if Ascii.eqb c "="%char || Ascii.eqb c "!"%char
              || Ascii.eqb c "<"%char then Unsupported
      else SyntaxErr
  end.

Definition step (acc : compiled pstate) (c : ascii) : compiled pstate :=
  match acc with
  | Compiled st => step_state st c
  | SyntaxErr => SyntaxErr
  | Unsupported => Unsupported
  end.

Definition finish (st : pstate) : compiled re :=
  match p_mode st, p_stack st with
  | Normal, [] => Compiled (close_alts (p_alts st) (p_seq st))
  | _, _ => SyntaxErr
  end.

Definition parse (src : jsstring) : compiled re :=
  match fold_left step src (Compiled init) with
  | Compiled st => finish st
  | SyntaxErr => SyntaxErr
  | Unsupported => Unsupported
  end.

Record t : Type := mk { source : re; ignoreCase : bool }.

(** [new RegExp(src, 'i')] when [icase], [new RegExp(src)] otherwise. *)
Definition make (src : jsstring) (icase : bool) : compiled t :=
  match parse src with
  | Compiled r => Compiled (mk r icase)
  | SyntaxErr => SyntaxErr
  | Unsupported => Unsupported
  end.


(** [rx.exec(s)] read as a condition, and [rx.test(s)]. *)
Definition exec (rx : t) (s : jsstring) : bool :=
  search (ignoreCase rx) (source rx) s.

Definition test (rx : t) (s : jsstring) : bool := exec rx s.

End RegExp.


(** ** JSON values and JavaScript property access *)

(** The values of a parsed manifest (numbers are integers here; the
    program reads none). *)
Inductive json : Type :=
| JNull
| JBool (b : bool)
| JNum (n : Z)
| JStr (s : jsstring)
| JArr (items : list json)
| JObj (fields : list (jsstring * json)).

(** A JavaScript value read from a manifest: [None] is [undefined]. *)
Definition jsval := option json.

(** ToBoolean. *)
Definition truthy (v : jsval) : bool :=
  match v with
  | None => false
  | Some JNull => false
  | Some (JBool b) => b
  | Some (JNum n) => negb (Z.eqb n 0)
  | Some (JStr s) => match s with [] => false | _ => true end
  | Some (JArr _) => true
  | Some (JObj _) => true
  end.

(** The value of key [k] in the fields of an object; as with [JSON.parse],
    the last of several equal keys is the one that counts. *)
Fixpoint lookup (k : jsstring) (fields : list (jsstring * json)) : jsval :=
  match fields with
  | [] => None
  | (k', v) :: rest =>
      match lookup k rest with
      | Some v' => Some v'
      | None => if str_eqb k k' then Some v else None
      end
  end.

(** ** Errors, events and the process monad *)

Inductive exn : Type :=
| NoConfigError (name : jsval)
| NoTaskError (project : jsstring)
| NoFileError (project : jsstring)
| RunTaskError (task project : jsstring)
| NoCommitsError
| NoStagedFileError
| PathNotFoundError
| TypeError
| SyntaxError
| SystemError (what : jsstring).   (* raised by node: fs, require, chdir *)

Definition isNoConfigError (e : exn) : bool :=
  match e with NoConfigError _ => true | _ => false end.
Definition isNoTaskError (e : exn) : bool :=
  match e with NoTaskError _ => true | _ => false end.
Definition isNoFileError (e : exn) : bool :=
  match e with NoFileError _ => true | _ => false end.
Definition isNoCommitsError (e : exn) : bool :=
  match e with NoCommitsError => true | _ => false end.
Definition isRunTaskError (e : exn) : bool :=
  match e with RunTaskError _ _ => true | _ => false end.

(** What a run leaves behind.  Only [EExec] has an effect outside the
    process; the others are the console lines that tell the outcomes apart. *)
Inductive event : Type :=
| EExec (cwd task : jsstring)         (* shell.exec(task) after chdir(cwd) *)
| ESkipUser (project : jsstring)      (* "User ... does not need to run" *)
| ESkipDisabled (project : jsstring)  (* "Git hooks disabled for project" *)
| EInfo (e : exn)                     (* console.log(e.message) *)
| EFatal (e : exn)                    (* console.error(e.message), e.stack *)
| ESuccess.                           (* "All tasks successful" *)

Inductive outcome (A : Type) : Type :=
| Ret (a : A)            (* returns normally *)
| Throws (e : exn)       (* an exception propagates *)
| Exits (code : Z)       (* process.exit(code) *)
| Stuck.                 (* behaviour outside this model *)

Arguments Throws {A}.
Arguments Exits {A}.
Arguments Stuck {A}.

Definition M (A : Type) : Type := (list event * outcome A)%type.

Definition ret {A} (a : A) : M A := ([], Ret a).
Definition throw {A} (e : exn) : M A := ([], Throws e).
Definition exit {A} (code : Z) : M A := ([], Exits code).
Definition stuck {A} : M A := ([], Stuck).
Definition emit (ev : event) : M unit := ([ev], Ret tt).

Definition bind {A B} (m : M A) (f : A -> M B) : M B :=
  match m with
  | (t, Ret a) => let (t', o) := f a in (t ++ t', o)
  | (t, Throws e) => (t, Throws e)
  | (t, Exits c) => (t, Exits c)
  | (t, Stuck) => (t, Stuck)
  end.

(** [try { m } catch (e) { h e }]. *)
Definition catch {A} (m : M A) (h : exn -> M A) : M A :=
  match m with
  | (t, Throws e) => let (t', o) := h e in (t ++ t', o)
  | other => other
  end.

Declare Scope proc_scope.
Delimit Scope proc_scope with proc.
Notation "x <- m ;; k" := (bind m (fun x => k))
  (at level 61, m at next level, right associativity) : proc_scope.
Notation "m ;;; k" := (bind m (fun _ => k))
  (at level 61, right associativity) : proc_scope.
Local Open Scope proc_scope.

Definition trace {A} (m : M A) : list event := fst m.
Definition result {A} (m : M A) : outcome A := snd m.

(** The shell commands a run started, in order. *)
Fixpoint executed (t : list event) : list (jsstring * jsstring) :=
  match t with
  | [] => []
  | EExec cwd task :: t' => (cwd, task) :: executed t'
  | _ :: t' => executed t'
  end.

(** [Array.prototype.forEach] with an effectful callback. *)
Fixpoint forEach {A} (l : list A) (f : A -> M unit) : M unit :=
  match l with
  | [] => ret tt
  | x :: l' => f x ;;; forEach l' f
  end.

(** [x[k]] for a key that is no built-in property: a TypeError on
    [undefined] and [null], the field of an object, [undefined] otherwise. *)
Definition prop (v : jsval) (k : jsstring) : M jsval :=
  match v with
  | None => throw TypeError
  | Some JNull => throw TypeError
  | Some (JObj fields) => ret (lookup k fields)
  | Some _ => ret None
  end.

(** [x.indexOf(user) >= 0]: strict equality on the items of an array, a
    substring search on a string, a TypeError where there is no [indexOf]. *)
Definition indexOf_found (v : jsval) (user : jsstring) : M bool :=
  match v with
  | Some (JArr items) =>
      ret (existsb (fun j => match j with
                             | JStr s => str_eqb s user
                             | _ => false
                             end) items)
  | Some (JStr s) => ret (includes user s)
  | _ => throw TypeError
  end.

(** An array of strings, as the manifest format has them. *)
Fixpoint strings_of (items : list json) : option (list jsstring) :=
  match items with
  | [] => Some []
  | JStr s :: rest =>
      match strings_of rest with
      | Some l => Some (s :: l)
      | None => None
      end
  | _ :: _ => None
  end.

(** ** The world a hook runs in *)

Inductive fsnode : Type :=
| File
| Dir (readable : bool) (entries : fsentries)
with fsentries : Type :=
| ENil
| ECons (name : jsstring) (node : fsnode) (rest : fsentries).

Inductive exec_result : Type :=
| Exited (code : Z)   (* the command ran and ended with this exit code *)
| ExecThrew.          (* chdir or exec itself threw *)

Record World : Type := {
  git_root : jsstring;                        (* git.getRootDir() *)
  fs_root : fsnode;                           (* the tree at git_root *)
  git_username : jsstring;                    (* git config user.name *)
  require : jsstring -> option json;          (* require(path), None: throws *)
  shell_exec : jsstring -> jsstring -> exec_result;  (* cwd, command *)
  commit_message : jsstring;                  (* .git/COMMIT_EDITMSG *)
  staged_files : list jsstring;               (* git diff --cached --name-only *)
  unpushed_commits : list jsstring;           (* git log ..HEAD, by line *)
  pushed_files : list jsstring                (* git diff --stat --cached, by line *)
}.

Record Package : Type := {
  name : jsstring;
  absolute : jsstring;
  relative : jsstring
}.

(** ** lib/handlers.js

    The file holds two generations of the handlers.  [HandlersColor] is the
    first (lines 1-164, one error at a time, with a branch for
    [RunTaskError]); [Handlers] is the second (lines 166-337, a list of
    errors, dispatching with [switch]).  A third generation, the unnamed
    handlers file, tests the classes with [if]: [HandlersIf]. *)

Module HandlersColor.

(** lines 129-149 *)
Definition errorCallback (e : exn) : M unit :=
  if isNoConfigError e || isNoFileError e || isNoCommitsError e then
    emit (EInfo e)
  else if isRunTaskError e then
    emit (EFatal e) ;;; exit 1
  else
    emit (EFatal e) ;;; exit 1.

(** lines 158-164: prints, and does not end the process. *)
Definition successCallback : M unit := emit ESuccess.

End HandlersColor.

(** Values met by [===] in [Handlers.errorCallback]. *)
Inductive switchval : Type :=
| VBoolean (b : bool)
| VError (e : exn).

(** [v === b] for a boolean [b]: true only when [v] is that boolean; an
    object is never strictly equal to a boolean. *)
Definition strict_equal_boolean (v : switchval) (b : bool) : bool :=
  match v with
  | VBoolean x => Bool.eqb x b
  | VError _ => false
  end.

Module Handlers.

(** lines 330-336 *)
Definition successCallback : M unit := emit ESuccess ;;; exit 0.

(** lines 306-313: [switch (e)] with the case labels
    [(e instanceof NoConfigError)], ..., [(e instanceof NoCommitsError)]:
    the error object is compared with each boolean. *)
Definition case_taken (e : exn) : bool :=
  strict_equal_boolean (VError e) (isNoConfigError e) ||
  strict_equal_boolean (VError e) (isNoTaskError e) ||
  strict_equal_boolean (VError e) (isNoFileError e) ||
  strict_equal_boolean (VError e) (isNoCommitsError e).

(** lines 304-323 *)
Definition errorCallback (errors : list exn) : M unit :=
  forEach errors (fun e =>
    if case_taken e then emit (EInfo e)
    else emit (EFatal e) ;;; exit 1) ;;;
  successCallback.

End Handlers.

Module HandlersIf.

(** unnamed handlers file, lines 163-169 *)
Definition successCallback : M unit := emit ESuccess ;;; exit 0.

(** unnamed handlers file, lines 141-156 *)
Definition errorCallback (errors : list exn) : M unit :=
  forEach errors (fun e =>
    if isNoConfigError e || isNoTaskError e || isNoFileError e
       || isNoCommitsError e
    then emit (EInfo e)
    else emit (EFatal e) ;;; exit 1).

End HandlersIf.

(** ** lib/git.js (second generation, lines 166-333) *)

Module Git.

Definition getRootDir (w : World) : M jsstring := ret (git_root w).

Definition getUsername (w : World) : M jsstring := ret (git_username w).

Definition isEmpty {A} (l : list A) : bool :=
  match l with [] => true | _ => false end.

(** lines 303-312 *)
Definition getStagedFiles (w : World) : M (list jsstring) :=
  if isEmpty (staged_files w) then throw NoStagedFileError
  else ret (staged_files w).

(** lines 266-296: the [try] encloses the [throw], so [NoCommitsError] is
    caught here, printed and ends the process. *)
Definition getCommitedFiles (w : World) : M (list jsstring) :=
  catch
    (if isEmpty (unpushed_commits w) then throw NoCommitsError
     else ret (pushed_files w))
    (fun e => emit (EFatal e) ;;; exit 1).

(** lines 328-333 *)
Definition getCommitMessage (w : World) : M jsstring :=
  ret (commit_message w).

End Git.

(** ** lib/utils.js *)

(** [s.replace(pat, rep)] with a string pattern: the first occurrence only
    ([rep] holds no dollar sign in this program). *)
Fixpoint replace_first (pat rep s : jsstring) : jsstring :=
  if starts_with pat s then rep ++ skipn (List.length pat) s
  else match s with
       | [] => []
       | c :: s' => c :: replace_first pat rep s'
       end.

(** [f.replace(/^\.\//, '')]. *)
Definition strip_dot_slash (f : jsstring) : jsstring :=
  if starts_with (str "./") f then skipn 2 f else f.

(** [path.resolve(dir)] on a path that [scandir] built: the trailing
    separator goes. *)
Definition resolve (dir : jsstring) : jsstring :=
  if ends_with_slash dir then
    match removelast dir with
    | [] => dir
    | d => d
    end
  else dir.

(** [path.resolve(dir, file)]. *)
Definition resolve2 (dir file : jsstring) : jsstring :=
  if ends_with_slash dir then dir ++ file else dir ++ str "/" ++ file.

(** [path.basename]. *)
Fixpoint basename_from (acc s : jsstring) : jsstring :=
  match s with
  | [] => acc
  | c :: s' =>
      if Ascii.eqb c "/"%char then
        match s' with
        | [] => acc
        | _ => basename_from [] s'
        end
      else basename_from (acc ++ [c]) s'
  end.

Definition basename (s : jsstring) : jsstring := basename_from [] s.

(** [new RegExp(pattern, flags)] inside the program. *)
Definition new_RegExp (pattern : jsstring) (icase : bool) : M RegExp.t :=
  match RegExp.make pattern icase with
  | RegExp.Compiled rx => ret rx
  | RegExp.SyntaxErr => throw SyntaxError
  | RegExp.Unsupported => stuck
  end.

(** [new RegExp(source)] for a source that a user wrote in a manifest.  The
    engine is JavaScript's own; a run takes it as it finds it: for each
    source a test on strings ([.test]), or the SyntaxError of a source that
    is no regular expression.  [Unsupported] is the answer of an engine that
    knows only a part of the language, as [fragment] below. *)
Definition engine : Type := jsstring -> RegExp.compiled (jsstring -> bool).

Definition construct (regexp : engine) (source : jsstring)
  : M (jsstring -> bool) :=
  match regexp source with
  | RegExp.Compiled test => ret test
  | RegExp.SyntaxErr => throw SyntaxError
  | RegExp.Unsupported => stuck
  end.

(** The engine of the fragment of [RegExp], without flags. *)
Definition fragment : engine := fun source =>
  match RegExp.make source false with
  | RegExp.Compiled rx => RegExp.Compiled (RegExp.test rx)
  | RegExp.SyntaxErr => RegExp.SyntaxErr
  | RegExp.Unsupported => RegExp.Unsupported
  end.

(** A value used as an array of strings ([.map], [.join], [.forEach]): a
    TypeError when it is no array. *)
Definition string_array (v : jsval) : M (list jsstring) :=
  match v with
  | Some (JArr items) =>
      match strings_of items with
      | Some l => ret l
      | None => stuck
      end
  | _ => throw TypeError
  end.

Module Utils.

(** The callback of [folders.map] in [buildFilePattern]. *)
Definition folder_source (f : jsstring) : jsstring :=
  let f := if ends_with_slash f then f else f ++ str "/" in
  replace_first (str "/") (str "\/") (strip_dot_slash f).

(** [buildFilePattern], lines 182-203, on the restrictions and the relative
    path of a package (the dispatchers of [src/npm-git-hooks.js] and of the
    oldest variant carry the same function with these two parameters). *)
Definition buildFilePattern (restrictions : jsval) (relative : jsstring)
  : M RegExp.t :=
  let relative :=
    if ends_with_slash relative then removelast relative else relative in
  let pattern := str "(?:.+" ++ relative ++ str "\/)?" in
  pd <- (if truthy restrictions then
           fv <- prop restrictions (str "folders") ;;
           pattern <- (if truthy fv then
                         folders <- string_array fv ;;
                         ret (pattern ++ str "(?:"
                                ++ join (str "|") (map folder_source folders)
                                ++ str ")")
                       else ret pattern) ;;
           tv <- prop restrictions (str "fileTypes") ;;
           if truthy tv then
             fileTypes <- string_array tv ;;
             ret (pattern ++ str ".+\.(?:"
                    ++ join (str "\s+\||") fileTypes ++ str ")", true)
           else ret (pattern, false)
         else ret (pattern, false)) ;;
  let pattern := fst pd ++ (if snd pd : bool then [] else str ".+") in
  new_RegExp pattern true.

(** The predicate the dispatchers build from the pattern:
    [file => filePattern.exec(file.toString().trim())]. *)
Definition accepts (rx : RegExp.t) (file : jsstring) : bool :=
  RegExp.exec rx (trim file).

(** [scandir], lines 137-156.  [recursive] walks the entries that [read]
    lists for [dir]; [read] of a directory that cannot be listed throws
    ([fs.readdirSync]), and nothing here catches it. *)
Fixpoint recursive (exclude pattern : RegExp.t) (dir : jsstring)
    (entries : fsentries) (lst : list jsstring) {struct entries}
  : M (list jsstring) :=
  match entries with
  | ENil => ret lst
  | ECons sub node rest =>
      lst <- (match node with
               | Dir readable sub_entries =>
                   if negb (RegExp.test exclude sub) then
                     if readable then
                       recursive exclude pattern (dir ++ sub ++ str "/")
                                 sub_entries lst
                     else throw (SystemError (str "EACCES"))
                   else if RegExp.test pattern sub then ret (lst ++ [dir])
                   else ret lst
               | File =>
                   if RegExp.test pattern sub then ret (lst ++ [dir])
                   else ret lst
               end) ;;
      recursive exclude pattern dir rest lst
  end.

Definition scandir (dir : jsstring) (root : fsnode)
    (pattern exclude : list jsstring) : M (list jsstring) :=
  let dir := if ends_with_slash dir then dir else dir ++ str "/" in
  pattern <- new_RegExp (str "(" ++ join (str "|") pattern ++ str ")") true ;;
  exclude <- new_RegExp (str "(" ++ join (str "|") exclude ++ str ")") true ;;
  match root with
  | Dir true entries => recursive exclude pattern dir entries []
  | Dir false _ => throw (SystemError (str "EACCES"))
  | File => stuck
  end.

End Utils.

(** The verdict of the predicate built for a package on one path; [None]
    when [buildFilePattern] returns no pattern. *)
Definition file_accepted (restrictions : jsval) (relative path : jsstring)
  : option bool :=
  match Utils.buildFilePattern restrictions relative with
  | (_, Ret rx) => Some (Utils.accepts rx path)
  | _ => None
  end.

(** [s.endsWith(x)]. *)
Definition ends_with (x s : jsstring) : bool := starts_with (rev x) (rev s).

(** [findAllPackages], the same in the three dispatchers. *)
Definition findAllPackages (w : World) (root : jsstring) : M (list Package) :=
  dirs <- Utils.scandir root (fs_root w)
            [str "package.json"] [str "node_modules"] ;;
  ret (map (fun dir =>
              let absolute := resolve dir in
              {| name := basename absolute;
                 absolute := absolute;
                 relative := replace_first root (str ".") absolute |})
           (filter (fun dir => negb (Git.isEmpty dir)) dirs)).

(** ** The dispatchers *)

(** The second argument of [run]: a boolean ("some file changed") or the
    list of changed files. *)
Inductive fileArg : Type :=
| Flag (b : bool)
| Files (l : list jsstring).

(** [typeof fileList === 'boolean' ? fileList : fileList.some(...)]. *)
Definition some_file (fileList : fileArg) (filePattern : RegExp.t) : bool :=
  match fileList with
  | Flag b => b
  | Files l => existsb (Utils.accepts filePattern) l
  end.

(** [x.length] read as a condition: the length of an array or a string,
    the property [length] of any other object. *)
Definition has_length (v : jsval) : bool :=
  match v with
  | Some (JArr (_ :: _)) => true
  | Some (JStr (_ :: _)) => true
  | Some (JObj fields) => truthy (lookup (str "length") fields)
  | _ => false
  end.

(** How one turn of a loop body ends: it falls through to the next package,
    or a [return] statement is reached. *)
Inductive flow : Type :=
| Next
| Return.

(** [require(path)]. *)
Definition load (w : World) (path : jsstring) : M jsval :=
  match require w path with
  | Some j => ret (Some j)
  | None => throw (SystemError (str "require"))
  end.

(** *** src/npm-git-hooks.js: one pass, a [for] loop *)

Module NpmGitHooks.

Section Run.

Variable w : World.
(** [handlers.errorCallback] and [handlers.successCallback] of the
    handlers file in use. *)
Variable errorCallback : list exn -> M unit.
Variable successCallback : M unit.

(** lines 38-44 *)
Definition getPackageConfig (pkg : jsval) : M jsval :=
  config <- (if truthy pkg then prop pkg (str "npm-git-hooks") else ret pkg) ;;
  if truthy config then ret config
  else n <- prop pkg (str "name") ;; throw (NoConfigError n).

(** lines 84-95: the value [shell.exec] returns is dropped; only an
    exception turns into a [RunTaskError]. *)
Definition runTask (task : jsstring) (pkg : Package) : M unit :=
  catch
    (match shell_exec w (absolute pkg) task with
     | Exited _ => emit (EExec (absolute pkg) task)
     | ExecThrew => throw (SystemError (str "exec"))
     end)
    (fun _ => throw (RunTaskError task (name pkg))).

(** lines 107-115 *)
Definition runTasks (config : jsval) (pkg : Package) (files : bool) : M unit :=
  if files then
    tasks <- prop config (str "tasks") ;;
    if truthy tasks && has_length tasks then
      l <- string_array tasks ;;
      forEach l (fun task => runTask task pkg)
    else throw (NoTaskError (name pkg))
  else throw (NoFileError (name pkg)).

(** lines 133-146: the [try] block of the loop body. *)
Definition attempt (operation : jsstring) (fileList : fileArg)
    (pkg : Package) : M flow :=
  json <- load w (resolve2 (absolute pkg) (str "package.json")) ;;
  config <- getPackageConfig json ;;
  user <- Git.getUsername w ;;
  restrictions <- prop config (str "restrictions") ;;
  skipUsers <- prop restrictions (str "skip-users") ;;
  skip <- indexOf_found skipUsers user ;;
  if skip then emit (ESkipUser (name pkg)) ;;; ret Return
  else
    enabled <- prop config (str "enabled") ;;
    if negb (truthy enabled) then emit (ESkipDisabled (name pkg)) ;;; ret Return
    else
      filePattern <- Utils.buildFilePattern restrictions (relative pkg) ;;
      hook <- prop config operation ;;
      runTasks hook pkg (some_file fileList filePattern) ;;;
      ret Next.

(** lines 130-162: the loop; [None] when a [return] left [run]. *)
Fixpoint loop (operation : jsstring) (fileList : fileArg)
    (packages : list Package) (errors : list exn) : M (option (list exn)) :=
  match packages with
  | [] => ret (Some errors)
  | pkg :: rest =>
      r <- catch
             (f <- attempt operation fileList pkg ;; ret (f, errors))
             (fun e =>
                if isRunTaskError e then emit (EFatal e) ;;; exit 1
                else errorCallback [e] ;;; ret (Next, errors ++ [e])) ;;
      match fst r with
      | Return => ret None
      | Next => loop operation fileList rest (snd r)
      end
  end.

(** [run] on the packages found, lines 130-167. *)
Definition run_packages (operation : jsstring) (fileList : fileArg)
    (packages : list Package) : M unit :=
  r <- loop operation fileList packages [] ;;
  match r with
  | None => ret tt
  | Some errors => if Git.isEmpty errors then successCallback else ret tt
  end.

(** lines 124-167 *)
Definition run (operation : jsstring) (fileList : fileArg) : M unit :=
  repoPath <- Git.getRootDir w ;;
  packages <- findAllPackages w repoPath ;;
  run_packages operation fileList packages.

End Run.

End NpmGitHooks.

(** *** The oldest dispatcher (unnamed file): [forEach] inside a promise *)

(** How a promise settles. *)
Inductive settled : Type :=
| Fulfilled
| Rejected (errors : list exn)   (* reject(errors), an array *)
| RejectedWith (e : exn).        (* reject(e), or a throw inside the promise *)

Module Dispatch0.

Section Run.

Variable w : World.

(** lines 39-45 *)
Definition getPackageConfig (pkg : jsval) (hook : jsstring) : M jsval :=
  config <- (if truthy pkg then
               section <- prop pkg (str "npm-git-hooks") ;;
               if truthy section then
                 if truthy (Some (JStr hook)) then prop section hook
                 else ret (Some (JBool true))
               else ret section
             else ret pkg) ;;
  if truthy config then ret config
  else n <- prop pkg (str "name") ;; throw (NoConfigError n).

(** lines 85-96 *)
Definition runTask (task : jsstring) (pkg : Package) : M unit :=
  catch
    (match shell_exec w (absolute pkg) task with
     | Exited _ => emit (EExec (absolute pkg) task)
     | ExecThrew => throw (SystemError (str "exec"))
     end)
    (fun _ => throw (RunTaskError task (name pkg))).

(** lines 107-115 *)
Definition runTasks (config : jsval) (pkg : Package) (files : bool) : M unit :=
  if files then
    tasks <- prop config (str "tasks") ;;
    if truthy tasks && has_length tasks then
      l <- string_array tasks ;;
      forEach l (fun task => runTask task pkg)
    else throw (NoTaskError (name pkg))
  else throw (NoFileError (name pkg)).

(** lines 130-141: the [try] block.  The [return] of the skip-users branch
    leaves the callback; the disabled branch only prints. *)
Definition attempt (operation : jsstring) (fileList : fileArg)
    (pkg : Package) : M unit :=
  json <- load w (absolute pkg) ;;
  config <- getPackageConfig json operation ;;
  user <- Git.getUsername w ;;
  restrictions <- prop config (str "restrictions") ;;
  skipUsers <- prop restrictions (str "skip-users") ;;
  skip <- indexOf_found skipUsers user ;;
  if skip then emit (ESkipUser (name pkg))
  else
    enabled <- prop config (str "enabled") ;;
    (if negb (truthy enabled) then emit (ESkipDisabled (name pkg))
     else ret tt) ;;;
    filePattern <- Utils.buildFilePattern restrictions (relative pkg) ;;
    runTasks config pkg (some_file fileList filePattern).

(** lines 128-157 *)
Fixpoint visit (operation : jsstring) (fileList : fileArg)
    (packages : list Package) (errors : list exn) : M (list exn) :=
  match packages with
  | [] => ret errors
  | pkg :: rest =>
      errors <- catch
                  (attempt operation fileList pkg ;;; ret errors)
                  (fun e =>
                     if isRunTaskError e then emit (EFatal e) ;;; exit 1
                     else ret (errors ++ [e])) ;;
      visit operation fileList rest errors
  end.

(** [run] on the packages found, lines 128-162: how the promise settles. *)
Definition run_packages (operation : jsstring) (fileList : fileArg)
    (packages : list Package) : M settled :=
  errors <- visit operation fileList packages [] ;;
  ret (if Git.isEmpty errors then Fulfilled else Rejected errors).

(** lines 124-164: an exception inside the executor rejects the promise. *)
Definition run (operation : jsstring) (fileList : fileArg) : M settled :=
  repoPath <- Git.getRootDir w ;;
  catch (packages <- findAllPackages w repoPath ;;
         run_packages operation fileList packages)
        (fun e => ret (RejectedWith e)).

End Run.

End Dispatch0.

(** *** src/main.js: map, filter, then one promise chain per package *)

Module Main.

(** The object [mapPackageConfig] returns: the manifest section with its
    [pkg] and [enabled] properties assigned. *)
Record Config : Type := {
  section : json;
  pkg : Package;
  enabled : json
}.

(** [config[k]]. *)
Definition get (config : Config) (k : jsstring) : M jsval :=
  if str_eqb k (str "enabled") then ret (Some (enabled config))
  else if str_eqb k (str "pkg") then stuck
  else prop (Some (section config)) k.

Section Run.

Variable w : World.

(** The engine that reads the commit-message pattern. *)
Variable regexp : engine.

(** line 10: [const user = git.getUsername()]. *)
Definition user : jsstring := git_username w.

(** lines 40-49.  The file is in strict mode: assigning a property of a
    primitive value throws. *)
Definition mapPackageConfig (pkg : Package) : M Config :=
  json <- load w (resolve2 (absolute pkg) (str "package.json")) ;;
  config <- (if truthy json then prop json (str "npm-git-hooks")
             else ret json) ;;
  if truthy config then
    match config with
    | Some (JObj fields) =>
        ret {| section := JObj fields; pkg := pkg;
               enabled := match lookup (str "enabled") fields with
                          | None => JBool true
                          | Some v => v
                          end |}
    | Some (JArr items) =>
        ret {| section := JArr items; pkg := pkg; enabled := JBool true |}
    | _ => throw TypeError
    end
  else throw (NoConfigError (Some (JStr (name pkg)))).

(** lines 61-72 *)
Definition skipPackage (config : Config) : M bool :=
  skipUsers <- get config (str "skip-users") ;;
  found <- indexOf_found skipUsers user ;;
  if found then emit (ESkipUser (name (pkg config))) ;;; ret false
  else if negb (truthy (Some (enabled config))) then
    emit (ESkipDisabled (name (pkg config))) ;;; ret false
  else ret true.

(** lines 81-97, with [utils.buildFilePattern(config)]. *)
Definition fileMatch (config : Config) (operation : jsstring) : M bool :=
  if str_eqb operation (str "pre-push") || str_eqb operation (str "pre-commit")
  then
    restrictions <- get config (str "restrictions") ;;
    filePattern <- Utils.buildFilePattern restrictions
                     (relative (pkg config)) ;;
    fileList <- catch
                  (if str_eqb operation (str "pre-commit") then
                     Git.getStagedFiles w
                   else Git.getCommitedFiles w)
                  (fun e => emit (EInfo e) ;;; ret []) ;;
    ret (existsb (Utils.accepts filePattern) fileList)
  else ret true.

(** lines 106-120: how the returned promise settles.  [new RegExp] throws
    before the promise is made. *)
Definition checkCommitMsg (config : Config) : M settled :=
  commitMsg <- get config (str "commit-msg") ;;
  if truthy commitMsg then
    message <- Git.getCommitMessage w ;;
    match commitMsg with
    | Some (JStr source) =>
        pattern <- construct regexp source ;;
        if pattern message then ret Fulfilled
        else ret (RejectedWith
                    (RunTaskError (str "commit-msg") (name (pkg config))))
    | _ => stuck
    end
  else ret Fulfilled.

(** lines 132-145: the exit code reaches the callback of [shell.exec]. *)
Definition runTask (task : jsstring) (pkg : Package) : M settled :=
  match shell_exec w (absolute pkg) task with
  | Exited code =>
      emit (EExec (absolute pkg) task) ;;;
      if Z.eqb code 0 then ret Fulfilled
      else ret (RejectedWith (RunTaskError task (name pkg)))
  | ExecThrew => ret (RejectedWith (SystemError (str "exec")))
  end.

(** [Promise.each(tasks, task => runTask(...))]: one task after the other,
    none after the first rejection. *)
Fixpoint each (tasks : list jsstring) (pkg : Package) : M settled :=
  match tasks with
  | [] => ret Fulfilled
  | task :: rest =>
      r <- runTask task pkg ;;
      match r with
      | Fulfilled => each rest pkg
      | other => ret other
      end
  end.

(** lines 155-165.  The commit-message pattern is read in the first branch
    only.  In the last one the handlers this file is written for export no
    [NoTaskError] (lib/handlers.js, lines 5-10): [new] on the missing class
    throws a TypeError before a promise is made. *)
Definition runTasks (config : Config) (operation : jsstring) : M settled :=
  tasks <- get config operation ;;
  if str_eqb operation (str "commit-msg") then checkCommitMsg config
  else if truthy tasks && has_length tasks then
    match tasks with
    | Some (JArr items) =>
        match strings_of items with
        | Some l => each l (pkg config)
        | None => stuck
        end
    | _ => stuck
    end
  else throw TypeError.

(** lines 180-184: one package's chain,
    [runTasks(...).then(successCallback).catch(handlers.errorCallback)],
    with the handlers that take one error ([HandlersColor]). *)
Definition settle (config : Config) (operation : jsstring) : M unit :=
  r <- runTasks config operation ;;
  match r with
  | Fulfilled => HandlersColor.successCallback
  | RejectedWith e => HandlersColor.errorCallback e
  | Rejected _ => stuck
  end.

Fixpoint mapM {A B} (f : A -> M B) (l : list A) : M (list B) :=
  match l with
  | [] => ret []
  | x :: l' => y <- f x ;; ys <- mapM f l' ;; ret (y :: ys)
  end.

Fixpoint filterM {A} (f : A -> M bool) (l : list A) : M (list A) :=
  match l with
  | [] => ret []
  | x :: l' =>
      keep <- f x ;; xs <- filterM f l' ;;
      ret (if keep then x :: xs else xs)
  end.

(** lines 175-178: the configs whose chains [run] starts.  [run] starts
    them all in one [forEach], awaiting none; how the commands of different
    packages interleave is not part of this model. *)
Definition selected (operation : jsstring) (packages : list Package)
  : M (list Config) :=
  configs <- mapM mapPackageConfig packages ;;
  configs <- filterM skipPackage configs ;;
  filterM (fun config => fileMatch config operation) configs.

End Run.

End Main.

(** ** lib/git.js: reading what git prints *)

Definition line_feed : ascii := ascii_of_N 10.

(** [s.split(sep)] for a separator of one code unit: the pieces between
    the separators, a single empty piece for the empty string. *)
Fixpoint split (sep : ascii) (s : jsstring) : list jsstring :=
  match s with
  | [] => [[]]
  | c :: s' =>
      if Ascii.eqb c sep then [] :: split sep s'
      else match split sep s' with
           | piece :: pieces => (c :: piece) :: pieces
           | [] => [[c]]
           end
  end.

Module GitOutput.

(** lines 191-193, on a string. *)
Definition isTruthy (item : jsstring) : bool := truthy (Some (JStr item)).

(** [shell.exec(...).trim().split('\n').filter(isTruthy)], the way
    [getStagedFiles] (lines 306-307) and [getCommitedFiles] (lines 277-278,
    281-282 and 291) read the output of a git command. *)
Definition lines (output : jsstring) : list jsstring :=
  filter isTruthy (split line_feed (trim output)).

End GitOutput.

(** ** lib/utils.js and lib/git.js on the file system *)

(** [s.indexOf(p)]: the index of the first occurrence, [-1] when there is
    none. *)
Fixpoint indexOf (p s : jsstring) : Z :=
  if starts_with p s then 0%Z
  else match s with
       | [] => (-1)%Z
       | _ :: s' =>
           let i := indexOf p s' in
           if (i <? 0)%Z then (-1)%Z else (i + 1)%Z
       end.

(** [s.substring(0, n)] for an index [n] that is not negative. *)
Definition substring_to (s : jsstring) (n : Z) : jsstring :=
  firstn (Z.to_nat n) s.

(** An absolute path as [path.resolve] and [path.dirname] keep it: the list
    of its segments; the root directory is the empty list. *)
Definition path : Type := list jsstring.

Definition path_string (p : path) : jsstring :=
  match p with
  | [] => str "/"
  | _ => List.concat (map (fun segment => str "/" ++ segment) p)
  end.

(** The segments of an absolute path written as a string. *)
Definition segments (s : jsstring) : path :=
  filter (fun segment => negb (Git.isEmpty segment)) (split (chr "/") s).

(** [path.dirname]: the directory of the root directory is the root
    directory. *)
Definition dirname (p : path) : path := removelast p.

(** The names of the entries of a directory, as [readdirSync] lists them. *)
Fixpoint entry_names (entries : fsentries) : list jsstring :=
  match entries with
  | ENil => []
  | ECons sub _ rest => sub :: entry_names rest
  end.

Fixpoint entry (sub : jsstring) (entries : fsentries) : option fsnode :=
  match entries with
  | ENil => None
  | ECons sub' node rest =>
      if str_eqb sub sub' then Some node else entry sub rest
  end.

(** What a path leads to, from the root directory of the disk. *)
Fixpoint node_at (node : fsnode) (p : path) : option fsnode :=
  match p with
  | [] => Some node
  | sub :: p' =>
      match node with
      | Dir _ entries =>
          match entry sub entries with
          | Some node' => node_at node' p'
          | None => None
          end
      | File => None
      end
  end.

(** What [read] returns: the names that [readdirSync] lists, or the bytes
    of a file, which the program never looks into. *)
Inductive contents : Type :=
| Listing (files : list jsstring)
| Buffer.

(** [array.filter(f)[0]], as a JavaScript value. *)
Definition first_where (f : jsstring -> bool) (c : contents) : jsval :=
  match c with
  | Listing files => option_map JStr (hd_error (filter f files))
  | Buffer => None
  end.

Module UtilsFs.

(** lines 59-62 *)
Definition stripNodeModules (dir : jsstring) : jsstring :=
  let index := indexOf (str "node_modules") dir in
  if (0 <=? index)%Z then substring_to dir index else dir.

Section Disk.

Variable disk : fsnode.

(** lines 25-27 *)
Definition isAtRoot (dir : path) : bool := Git.isEmpty dir.

(** lines 35-38 *)
Definition isADirectory (p : path) : bool :=
  match node_at disk p with
  | Some (Dir _ _) => true
  | _ => false
  end.

(** lines 46-49 *)
Definition isAFile (p : path) : bool :=
  match node_at disk p with
  | Some File => true
  | _ => false
  end.

(** lines 72-80; [readdirSync] throws on a directory that cannot be
    listed. *)
Definition read (p : path) : M contents :=
  if isADirectory p then
    match node_at disk p with
    | Some (Dir true entries) => ret (Listing (entry_names entries))
    | _ => throw (SystemError (str "EACCES"))
    end
  else
    match node_at disk p with
    | Some _ => ret Buffer
    | None => throw PathNotFoundError
    end.

(** lines 165-171, for a [dir] that is given.  [depth] bounds the calls in
    progress; [findPackage] below starts with enough of it. *)
Fixpoint findPackage_from (depth : nat) (dir : path) : M path :=
  match depth with
  | O => stuck
  | S depth' =>
      if isAtRoot dir || negb (isADirectory dir) then throw PathNotFoundError
      else
        c <- read dir ;;
        let pkg := first_where (includes (str "package.json")) c in
        if truthy pkg then ret (dir ++ [str "package.json"])
        else findPackage_from depth' (dirname dir)
  end.

Definition findPackage (dir : path) : M path :=
  findPackage_from (S (List.length dir)) dir.

(** [findPackage()] without an argument, in the module whose directory is
    [module_dir]. *)
Definition findPackage_default (module_dir : jsstring) : M path :=
  findPackage (segments (stripNodeModules module_dir)).

End Disk.

End UtilsFs.

(** The [Error] that [getRootDir] throws, whatever went wrong. *)
Definition no_repository : exn :=
  SystemError (str "Could not find git repository").

(** The [RangeError] of the engine when the calls in progress exceed its
    stack. *)
Definition stack_overflow : exn := SystemError (str "RangeError").

(** [lib/git.js], second generation: [getRootDir], lines 202-210, from the
    directory [dir].  [stack] is the number of calls the engine still has
    room for. *)
Module GitDir.

Section Disk.

Variable disk : fsnode.

Fixpoint getRootDir (stack : nat) (dir : path) : M path :=
  match stack with
  | O => throw stack_overflow
  | S stack' =>
      catch
        (c <- UtilsFs.read disk dir ;;
         let rootDir := first_where (fun f => str_eqb f (str ".git")) c in
         if truthy rootDir then ret dir
         else getRootDir stack' (dirname dir))
        (fun _ => throw no_repository)
  end.

End Disk.

End GitDir.

(** [lib/git.js], first generation: [getRootDir], lines 39-49, with the
    variable [rootDir] of the module (line 19) passed in and out; the line
    it prints on the console is left out. *)
Module GitCache.

Section Disk.

Variable disk : fsnode.

Fixpoint getRootDir (stack : nat) (dir : path) (rootDir : jsval)
  : M jsval * jsval :=
  if truthy rootDir then (ret rootDir, rootDir)
  else
    match stack with
    | O => (throw stack_overflow, rootDir)
    | S stack' =>
        match UtilsFs.read disk dir with
        | (_, Ret c) =>
            let rootDir := first_where (fun f => str_eqb f (str ".git")) c in
            if truthy rootDir then
              (ret (Some (JStr (path_string dir))), rootDir)
            else
              let (r, rootDir) := getRootDir stack' (dirname dir) rootDir in
              (catch r (fun _ => throw no_repository), rootDir)
        | _ => (throw no_repository, rootDir)
        end
    end.

End Disk.

End GitCache.

(** ** src/install.js: the configuration written at installation *)

Module Install.

(** lines 105-111: the hooks handed to the installer. *)
Definition hooks : list jsstring :=
  [str "post-checkout"; str "post-commit"; str "post-merge";
   str "pre-commit"; str "pre-push"].

(** [object[key] = value] on the fields of an object: of several equal
    keys the last one counts. *)
Definition assign (key : jsstring) (value : json)
    (fields : list (jsstring * json)) : list (jsstring * json) :=
  fields ++ [(key, value)].

(** lines 72-84: the configuration built for a manifest that has none. *)
Definition emptyConfig (hooks : list jsstring) : json :=
  JObj (fold_left
          (fun config hook =>
             assign hook (JObj [(str "tasks", JArr [])]) config)
          hooks
          (assign (str "restrictions")
             (JObj [(str "fileTypes", JArr []);
                    (str "folders", JArr []);
                    (str "skip-users", JArr [])])
             (assign (str "enabled") (JBool true) []))).

(** lines 69-87: the manifest that is written back to [package.json];
    [None] when the manifest is left as it is. *)
Definition configure (hooks : list jsstring) (pkg : json)
  : M (option json) :=
  section <- prop (Some pkg) (str "npm-git-hooks") ;;
  if negb (truthy section) then
    match pkg with
    | JObj fields =>
        ret (Some (JObj (assign (str "npm-git-hooks") (emptyConfig hooks)
                           fields)))
    | _ => stuck
    end
  else ret None.

End Install.

(** ** lib/git.js: is there an upstream? *)

Module GitUpstream.

Section Shell.

Variable w : World.
(** [process.cwd()] when the hook runs. *)
Variable cwd : jsstring.

Definition log_command (remote branch : jsstring) : jsstring :=
  str "git log " ++ remote ++ str "/" ++ branch ++ str "..HEAD".

(** First generation, lines 96-103: [true] unless [shell.exec] throws. *)
Definition checkUpstream1 (remote branch : jsstring) : M bool :=
  catch
    (match shell_exec w cwd (log_command remote branch) with
     | Exited _ => ret true
     | ExecThrew => throw (SystemError (str "exec"))
     end)
    (fun _ => ret false).

(** Second generation, lines 257-259: the exit code is compared with 0. *)
Definition checkUpstream (remote branch : jsstring) : M bool :=
  match shell_exec w cwd (log_command remote branch) with
  | Exited code => ret (Z.eqb code 0)
  | ExecThrew => throw (SystemError (str "exec"))
  end.

End Shell.

End GitUpstream.

(** ** lib/git.js: the hooks directory

    [getHooksDir] changes the disk; the disk is passed in and out. *)

(** The entries without those named [sub]. *)
Fixpoint without (sub : jsstring) (entries : fsentries) : fsentries :=
  match entries with
  | ENil => ENil
  | ECons s node rest =>
      if str_eqb sub s then without sub rest
      else ECons s node (without sub rest)
  end.

(** The entries with one more at the end. *)
Fixpoint with_entry (sub : jsstring) (node : fsnode) (entries : fsentries)
  : fsentries :=
  match entries with
  | ENil => ECons sub node ENil
  | ECons s n rest => ECons s n (with_entry sub node rest)
  end.

(** The entries with [node] in the place of the entry named [sub]. *)
Fixpoint replace_entry (sub : jsstring) (node : fsnode) (entries : fsentries)
  : fsentries :=
  match entries with
  | ENil => ENil
  | ECons s n rest =>
      if str_eqb sub s then ECons s node rest
      else ECons s n (replace_entry sub node rest)
  end.

(** The disk after the entries of the directory at [dir] were changed by
    [f]; [None] when [dir] is no directory. *)
Fixpoint change_entries (f : fsentries -> fsentries) (dir : path)
    (node : fsnode) : option fsnode :=
  match node with
  | File => None
  | Dir readable entries =>
      match dir with
      | [] => Some (Dir readable (f entries))
      | sub :: dir' =>
          match entry sub entries with
          | Some child =>
              match change_entries f dir' child with
              | Some child' =>
                  Some (Dir readable (replace_entry sub child' entries))
              | None => None
              end
          | None => None
          end
      end
  end.

(** [fs.unlinkSync(p)]: [p] must be a file. *)
Definition unlinkSync (p : path) (disk : fsnode) : M unit * fsnode :=
  match node_at disk p with
  | Some File =>
      match change_entries (without (last p [])) (removelast p) disk with
      | Some disk' => (ret tt, disk')
      | None => (throw (SystemError (str "ENOENT")), disk)
      end
  | Some (Dir _ _) => (throw (SystemError (str "EISDIR")), disk)
  | None => (throw (SystemError (str "ENOENT")), disk)
  end.

(** [fs.mkdirSync(p)]: nothing may be at [p], and its parent must be a
    directory. *)
Definition mkdirSync (p : path) (disk : fsnode) : M unit * fsnode :=
  match node_at disk p with
  | Some _ => (throw (SystemError (str "EEXIST")), disk)
  | None =>
      match p with
      | [] => (throw (SystemError (str "EEXIST")), disk)
      | _ =>
          match change_entries (with_entry (last p []) (Dir true ENil))
                               (removelast p) disk with
          | Some disk' => (ret tt, disk')
          | None => (throw (SystemError (str "ENOENT")), disk)
          end
      end
  end.

(** The [Error] that [getHooksDir] throws. *)
Definition no_hooks_directory : exn :=
  SystemError (str "Cannot locate or create .git/hooks folder").

Module GitHooksDir.

(** lines 220-235, called in the module directory [module_dir]. *)
Definition getHooksDir (stack : nat) (module_dir : path) (disk : fsnode)
  : M path * fsnode :=
  match GitDir.getRootDir disk stack module_dir with
  | (_, Ret rootDir) =>
      let gitHooksDir := rootDir ++ [str ".git"; str "hooks"] in
      if negb (UtilsFs.isADirectory disk gitHooksDir) then
        let (unlinked, disk) :=
          if UtilsFs.isAFile disk gitHooksDir then unlinkSync gitHooksDir disk
          else (ret tt, disk) in
        match unlinked with
        | (_, Ret _) =>
            let (made, disk) := mkdirSync gitHooksDir disk in
            (catch (made ;;; ret gitHooksDir)
                   (fun _ => throw no_hooks_directory), disk)
        | _ => (throw no_hooks_directory, disk)
        end
      else (ret gitHooksDir, disk)
  | (t, Throws e) => ((t, Throws e), disk)
  | (t, Exits c) => ((t, Exits c), disk)
  | (t, Stuck) => ((t, Stuck), disk)
  end.

End GitHooksDir.

(** ** lib/git.js: the files about to be pushed

    [getCommitedFiles] of the second generation (lines 266-296) with the
    commands it runs.  [exec] is [shell.exec] with [silent] set: the exit
    code and the output of a command, [None] when the command cannot be
    started and [shell.exec] throws. *)

Module GitPush.

Section Shell.

Variable exec : jsstring -> option (Z * jsstring).
(** [getRootDir()], [process.argv[2]] and whether [process.chdir] accepts a
    directory. *)
Variable rootDir : M jsstring.
Variable argv2 : option jsstring.
Variable chdir : jsstring -> bool.

Definition sh (command : jsstring) : M (Z * jsstring) :=
  match exec command with
  | Some r => ret r
  | None => throw (SystemError (str "exec"))
  end.

(** lines 242-248 *)
Definition getBranch : M jsstring :=
  catch (r <- sh (str "git rev-parse --abbrev-ref HEAD") ;; ret (trim (snd r)))
        (fun _ => throw (SystemError (str "Could not locate your current branch"))).

(** lines 257-259 *)
Definition checkUpstream (remote branch : jsstring) : M bool :=
  r <- sh (GitUpstream.log_command remote branch) ;;
  ret (Z.eqb (fst r) 0).

Definition all_commits : jsstring :=
  str "git log --branches --remotes --simplify-by-decoration --oneline --format=format:%H".

Definition diff_command (against : jsstring) : jsstring :=
  str "git diff --stat --cached " ++ against.

(** [commits[1] || commits[commits.length - 1]] inside a template. *)
Definition base_commit (commits : list jsstring) : jsstring :=
  match nth_error commits 1 with
  | Some c => if GitOutput.isTruthy c then c else last commits (str "undefined")
  | None => last commits (str "undefined")
  end.

(** lines 266-296 *)
Definition getCommitedFiles : M (list jsstring) :=
  catch
    (rootDir <- rootDir ;;
     let remote := match argv2 with
                   | Some r => if GitOutput.isTruthy r then r else str "origin"
                   | None => str "origin"
                   end in
     branch <- getBranch ;;
     upstream <- checkUpstream remote branch ;;
     cc <- (if upstream : bool then
              r <- sh (GitUpstream.log_command remote branch) ;;
              ret (GitOutput.lines (snd r),
                   diff_command (remote ++ str "/" ++ branch))
            else
              r <- sh all_commits ;;
              let commits := GitOutput.lines (snd r) in
              ret (commits, diff_command (base_commit commits))) ;;
     if Git.isEmpty (fst cc) then throw NoCommitsError
     else
       (if chdir rootDir then ret tt
        else throw (SystemError (str "chdir"))) ;;;
       r <- sh (snd cc) ;;
       ret (GitOutput.lines (snd r)))
    (fun e => emit (EFatal e) ;;; exit 1).

End Shell.

End GitPush.

(** * Vocabulary of the properties *)

(** ** Pattern sources and their terms *)

(** Patterns without the assertions [^] and [$]. *)
Fixpoint anchor_free (r : RegExp.re) : bool :=
  match r with
  | RegExp.Bol | RegExp.Eol => false
  | RegExp.Cat r1 r2 | RegExp.Alt r1 r2 => anchor_free r1 && anchor_free r2
  | RegExp.Star r1 => anchor_free r1
  | _ => true
  end.

(** Code units that stand for themselves in a pattern, and those that are a
    term of their own (the dot too). *)
Definition is_plain (c : ascii) : bool :=
  negb (Ascii.eqb c "\"%char || Ascii.eqb c "("%char || Ascii.eqb c ")"%char
        || Ascii.eqb c "|"%char || RegExp.is_quantifier c
        || Ascii.eqb c "."%char || Ascii.eqb c "^"%char
        || Ascii.eqb c "$"%char || RegExp.is_unsupported c).

Definition is_atomic (c : ascii) : bool :=
  is_plain c || Ascii.eqb c "."%char.

Definition atom_of (c : ascii) : RegExp.re :=
  if Ascii.eqb c "."%char then RegExp.Sym RegExp.CAny
  else RegExp.Sym (RegExp.CChar c).

Definition atoms (l : jsstring) : list RegExp.re := map atom_of l.

Definition plain_string (s : jsstring) : Prop := forallb is_plain s = true.
Definition atomic_string (s : jsstring) : Prop := forallb is_atomic s = true.

(** The reader, from a given state. *)
Definition reads (src : jsstring) (acc : RegExp.compiled RegExp.pstate)
  : RegExp.compiled RegExp.pstate :=
  fold_left RegExp.step src acc.

Definition at_normal stk alts seq q : RegExp.compiled RegExp.pstate :=
  RegExp.Compiled (RegExp.PState RegExp.Normal stk alts seq q).

(** The alternatives of a group [( x1 SEP | x2 SEP | ... | xn )] as
    [join] writes it: every item but the last is followed by the terms of
    the separator. *)
Fixpoint group_alts (sep_terms : list RegExp.re)
    (norm : jsstring -> jsstring) (xs : list jsstring) : list RegExp.re :=
  match xs with
  | [] => [RegExp.Eps]
  | [x] => [RegExp.cat_all (atoms (norm x))]
  | x :: rest =>
      RegExp.cat_all (atoms (norm x) ++ sep_terms)
        :: group_alts sep_terms norm rest
  end.

(** The restrictions object of a manifest, with either list present or
    absent. *)
Definition list_field (k : string) (v : option (list jsstring))
  : list (jsstring * json) :=
  match v with
  | Some l => [(str k, JArr (map JStr l))]
  | None => []
  end.

Definition restrictions_of (folders fileTypes : option (list jsstring))
  : jsval :=
  Some (JObj (list_field "folders" folders
                ++ list_field "fileTypes" fileTypes)).

(** The pattern source, as [buildFilePattern] concatenates it. *)
Definition pattern_source (folders fileTypes : option (list jsstring))
    (relative : jsstring) : jsstring :=
  let relative :=
    if ends_with_slash relative then removelast relative else relative in
  let pattern := str "(?:.+" ++ relative ++ str "\/)?" in
  let pattern :=
    match folders with
    | Some fs =>
        pattern ++ str "(?:" ++ join (str "|") (map Utils.folder_source fs)
          ++ str ")"
    | None => pattern
    end in
  match fileTypes with
  | Some es => (pattern ++ str ".+\.(?:" ++ join (str "\s+\||") es ++ str ")")
                 ++ []
  | None => pattern ++ str ".+"
  end.

(** A folder as the pattern holds it, the escaping of its first slash apart. *)
Definition folder_norm (f : jsstring) : jsstring :=
  strip_dot_slash (if ends_with_slash f then f else f ++ str "/").

Definition any_plus : RegExp.re := RegExp.plus (RegExp.Sym RegExp.CAny).

Definition type_separator : list RegExp.re :=
  [RegExp.plus (RegExp.Sym (RegExp.CSpace false));
   RegExp.Sym (RegExp.CChar "|"%char)].

Definition folder_terms (folders : option (list jsstring)) : list RegExp.re :=
  match folders with
  | Some fs => [RegExp.alt_all (group_alts [] folder_norm fs)]
  | None => []
  end.

Definition type_terms (fileTypes : option (list jsstring)) : list RegExp.re :=
  match fileTypes with
  | Some es => [RegExp.Sym (RegExp.CChar "."%char);
                RegExp.alt_all (group_alts type_separator (fun e => e) es)]
  | None => []
  end.

(** The terms of the pattern after its optional prefix. *)
Definition pattern_terms (folders fileTypes : option (list jsstring))
  : list RegExp.re :=
  folder_terms folders ++ [any_plus] ++ type_terms fileTypes.

Definition all_atomic (l : option (list jsstring)) : Prop :=
  match l with
  | Some xs => Forall atomic_string xs
  | None => True
  end.

(** ** What a path holds *)

(** Equality up to the case of letters, and occurrence as a substring up
    to case. *)
Definition ci_eq (a b : jsstring) : Prop :=
  map canonicalize a = map canonicalize b.

Definition occurs_ci (x s : jsstring) : Prop :=
  exists before x' after, s = before ++ x' ++ after /\ ci_eq x x'.

Definition no_line_terminator (w : jsstring) : Prop :=
  Forall (fun c => is_line_terminator c = false) w.

(** A configured folder, normalized to end with a separator. *)
Definition folder_prefix (f : jsstring) : jsstring :=
  if ends_with_slash f then f else f ++ str "/".

Definition all_plain (l : option (list jsstring)) : Prop :=
  match l with
  | Some xs => Forall plain_string xs
  | None => True
  end.

(** The part of a path that answers the folder restriction. *)
Definition folder_part (folders : option (list jsstring)) (F : jsstring)
  : Prop :=
  match folders with
  | None | Some [] => F = []
  | Some fs => exists f, In f fs /\ ci_eq (folder_prefix f) F
  end.

(** The part of a path that answers the file-type restriction through the
    last extension listed. *)
Definition last_type_part (fileTypes : option (list jsstring)) (E : jsstring)
  : Prop :=
  match fileTypes with
  | None => E = []
  | Some es => ci_eq (str "." ++ last es []) E
  end.

Unset Implicit Arguments.

(** ** File trees *)

Scheme fsnode_mut := Induction for fsnode Sort Prop
  with fsentries_mut := Induction for fsentries Sort Prop.

(** The walk reaches a directory that cannot be listed: one that is not
    excluded, at any depth below directories that are listed. *)
Inductive Blocked (exclude : RegExp.t) : fsentries -> Prop :=
| Blocked_here : forall sub entries rest,
    RegExp.test exclude sub = false ->
    Blocked exclude (ECons sub (Dir false entries) rest)
| Blocked_below : forall sub entries rest,
    RegExp.test exclude sub = false ->
    Blocked exclude entries ->
    Blocked exclude (ECons sub (Dir true entries) rest)
| Blocked_later : forall sub node rest,
    Blocked exclude rest ->
    Blocked exclude (ECons sub node rest).

(** The same tree with every unreadable directory replaced by an empty one. *)
Fixpoint as_empty (node : fsnode) : fsnode :=
  match node with
  | File => File
  | Dir true entries => Dir true (as_empty_entries entries)
  | Dir false _ => Dir true ENil
  end
with as_empty_entries (entries : fsentries) : fsentries :=
  match entries with
  | ENil => ENil
  | ECons sub node rest => ECons sub (as_empty node) (as_empty_entries rest)
  end.

Definition eacces : exn := SystemError (str "EACCES").

(** The two patterns [findAllPackages] hands to [scandir]. *)
Definition compiled_i (src : jsstring) : RegExp.t :=
  match RegExp.make src true with
  | RegExp.Compiled rx => rx
  | _ => RegExp.mk RegExp.Void true
  end.

Definition discovery_pattern : RegExp.t := compiled_i (str "(package.json)").
Definition discovery_exclude : RegExp.t := compiled_i (str "(node_modules)").

(** A repository whose root holds a manifest, a directory that cannot be
    listed, and a package [B]. *)
Definition locked_tree : fsnode :=
  Dir true
    (ECons (str "package.json") File
       (ECons (str "locked") (Dir false ENil)
          (ECons (str "B") (Dir true (ECons (str "package.json") File ENil))
             ENil))).

(** ** Scenarios: a repository with the packages [A] and [B] *)

Definition two_packages : fsnode :=
  Dir true
    (ECons (str ".git") (Dir true ENil)
       (ECons (str "A") (Dir true (ECons (str "package.json") File ENil))
          (ECons (str "B") (Dir true (ECons (str "package.json") File ENil))
             ENil))).

(** [require] for the manifests (or main modules) of [A] and [B]. *)
Definition manifests (a b : option json) (path : jsstring) : option json :=
  if str_eqb path (str "/repo/A/package.json") || str_eqb path (str "/repo/A")
  then a
  else if str_eqb path (str "/repo/B/package.json")
          || str_eqb path (str "/repo/B")
  then b
  else None.

(** Every command ends with exit code 0, but [exit 1]. *)
Definition shell (cwd task : jsstring) : exec_result :=
  if str_eqb task (str "exit 1") then Exited 1 else Exited 0.

Definition world (a b : option json) : World :=
  {| git_root := str "/repo";
     fs_root := two_packages;
     git_username := str "jenkins";
     require := manifests a b;
     shell_exec := shell;
     commit_message := str "fix bug";
     staged_files := [str "A/index.js"];
     unpushed_commits := [];
     pushed_files := [] |}.

(** The same repository after a commit with another message. *)
Definition with_message (m : string) : World :=
  {| git_root := str "/repo";
     fs_root := two_packages;
     git_username := str "jenkins";
     require := manifests None None;
     shell_exec := shell;
     commit_message := str m;
     staged_files := [str "A/index.js"];
     unpushed_commits := [];
     pushed_files := [] |}.

Definition strings (l : list string) : json :=
  JArr (map (fun s => JStr (str s)) l).

(** A manifest in the format of [src/npm-git-hooks.js]: the tasks of a hook
    are the [tasks] of its entry. *)
Definition manifest1 (enabled : bool) (skipUsers tasks : list string) : json :=
  JObj [(str "name", JStr (str "pkg"));
        (str "npm-git-hooks",
         JObj [(str "enabled", JBool enabled);
               (str "restrictions",
                JObj [(str "skip-users", strings skipUsers)]);
               (str "pre-push", JObj [(str "tasks", strings tasks)])])].

(** A manifest in the format of the oldest dispatcher: one configuration
    per hook. *)
Definition manifest0 (enabled : bool) (skipUsers tasks : list string) : json :=
  JObj [(str "name", JStr (str "pkg"));
        (str "npm-git-hooks",
         JObj [(str "pre-push",
                JObj [(str "enabled", JBool enabled);
                      (str "restrictions",
                       JObj [(str "skip-users", strings skipUsers)]);
                      (str "tasks", strings tasks)])])].

(** A manifest without the [npm-git-hooks] section. *)
Definition manifest_plain : json := JObj [(str "name", JStr (str "pkg"))].

(** A manifest whose section omits [enabled]. *)
Definition manifest_no_enabled : json :=
  JObj [(str "name", JStr (str "pkg"));
        (str "npm-git-hooks",
         JObj [(str "restrictions", JObj [(str "skip-users", JArr [])]);
               (str "pre-push",
                JObj [(str "tasks", strings ["echo A"%string])])])].

(** A manifest in the format of [src/main.js]: a commit-message pattern and
    the tasks of the pre-commit hook. *)
Definition manifest_commit_msg : json :=
  JObj [(str "name", JStr (str "pkg"));
        (str "npm-git-hooks",
         JObj [(str "skip-users", JArr []);
               (str "commit-msg", JStr (str "^JIRA-\d+"));
               (str "pre-commit", strings ["npm test"%string])])].

Definition package_A : Package :=
  {| name := str "A"; absolute := str "/repo/A"; relative := str "./A" |}.

Definition config_A (fields : list (jsstring * json)) (enabled : json)
  : Main.Config :=
  {| Main.section := JObj fields; Main.pkg := package_A;
     Main.enabled := enabled |}.

(** ** Outcomes of a turn of the dispatch loops *)

(** The errors that the handlers of the unnamed file let pass (lines
    143-146). *)
Definition is_soft (e : exn) : bool :=
  isNoConfigError e || isNoTaskError e || isNoFileError e
  || isNoCommitsError e.

(** The error a computation throws, if it throws one. *)
Definition thrown {A} (m : M A) : list exn :=
  match result m with
  | Throws e => [e]
  | _ => []
  end.

(** The body of the loop ends in a way the loop survives: it returns, or it
    throws an error that is no [RunTaskError]. *)
Definition goes_on {A} (m : M A) : Prop :=
  match result m with
  | Ret _ => True
  | Throws e => isRunTaskError e = false
  | _ => False
  end.

Definition package_B : Package :=
  {| name := str "B"; absolute := str "/repo/B"; relative := str "./B" |}.

(** A configuration of one hook in the format of [src/npm-git-hooks.js]. *)
Definition hook_config (tasks : list string) : jsval :=
  Some (JObj [(str "tasks", strings tasks)]).

(** A repository with nothing staged and nothing to push. *)
Definition quiet_world : World :=
  {| git_root := str "/repo";
     fs_root := two_packages;
     git_username := str "jenkins";
     require := manifests None None;
     shell_exec := shell;
     commit_message := str "fix bug";
     staged_files := [];
     unpushed_commits := [];
     pushed_files := [] |}.

(** A turn of the loop of [src/npm-git-hooks.js] after which the loop goes
    on with the handlers of the unnamed file: the body falls through, or
    throws an error that these handlers let pass. *)
Definition falls_through (m : M flow) : Prop :=
  match result m with
  | Ret Next => True
  | Throws e => is_soft e = true
  | _ => False
  end.

(** ** What discovery returns *)

(** A directory below which the walk does not go: its entries are files
    and directories whose names match the exclusion pattern. *)
Fixpoint is_leaf (exclude : RegExp.t) (entries : fsentries) : bool :=
  match entries with
  | ENil => true
  | ECons _ File rest => is_leaf exclude rest
  | ECons sub (Dir _ _) rest => RegExp.test exclude sub && is_leaf exclude rest
  end.

(** A path is [dir] itself or a directory below it, written with its
    closing separator. *)
Definition below (dir p : jsstring) : Prop :=
  exists y, p = dir ++ y /\ (y = [] \/ ends_with_slash y = true).

(** ** Output of git *)

(** What [git diff --cached --name-only] prints for a list of files: one
    name per line. *)
Definition one_per_line (names : list jsstring) : jsstring :=
  List.concat (map (fun n => n ++ [line_feed]) names).

(** A file name that survives [trim] and [split]: not empty, without a
    line feed, and without white space at either end. *)
Definition clean_name (n : jsstring) : Prop :=
  ~ In line_feed n
  /\ exists c, hd_error n = Some c /\ is_white_space c = false
  /\ exists d, last_char n = Some d /\ is_white_space d = false.

Definition blank (s : jsstring) : Prop :=
  Forall (fun c => is_white_space c = true) s.

(** ** Directories on the disk *)

(** The directory at [dir] can be listed. *)
Definition listable (disk : fsnode) (dir : path) : bool :=
  match node_at disk dir with
  | Some (Dir true _) => true
  | _ => false
  end.

(** The directory at [dir] can be listed and holds an entry whose name
    satisfies [f]. *)
Definition lists (disk : fsnode) (f : jsstring -> bool) (dir : path) : bool :=
  match node_at disk dir with
  | Some (Dir true entries) => existsb f (entry_names entries)
  | _ => false
  end.

(** Every directory strictly between [dir] and [dir ++ rest], and
    [dir ++ rest] itself, can be listed and holds no entry whose name
    satisfies [f]. *)
Definition none_between (disk : fsnode) (f : jsstring -> bool)
    (dir rest : path) : Prop :=
  forall pre suf,
    rest = pre ++ suf -> pre <> [] ->
    listable disk (dir ++ pre) = true /\ lists disk f (dir ++ pre) = false.

Definition is_git (f : jsstring) : bool := str_eqb f (str ".git").

(** A checkout in [/home/dev/repo] with the module installed below
    [node_modules] and a copy of a manifest in [src]. *)
Definition checkout : fsnode :=
  Dir true
    (ECons (str "home")
       (Dir true
          (ECons (str "dev")
             (Dir true
                (ECons (str "repo")
                   (Dir true
                      (ECons (str ".git") (Dir true ENil)
                         (ECons (str "package.json") File
                            (ECons (str "src")
                               (Dir true
                                  (ECons (str "lib") (Dir true ENil) ENil))
                               ENil))))
                   ENil))
             ENil))
       ENil).

(** The repository with a directory that cannot be listed. *)
Definition locked_world : World :=
  {| git_root := str "/repo";
     fs_root := locked_tree;
     git_username := str "jenkins";
     require := manifests None None;
     shell_exec := shell;
     commit_message := [];
     staged_files := [];
     unpushed_commits := [];
     pushed_files := [] |}.

(** A shell in which [git log] of a branch without upstream ends with exit
    code 128. *)
Definition no_upstream_world : World :=
  {| git_root := str "/repo";
     fs_root := two_packages;
     git_username := str "jenkins";
     require := manifests None None;
     shell_exec := fun _ task =>
                     if starts_with (str "git log ") task then Exited 128
                     else Exited 0;
     commit_message := str "fix bug";
     staged_files := [];
     unpushed_commits := [];
     pushed_files := [] |}.

(** Whether a path leads to a directory ([Some true]), to a file
    ([Some false]) or to nothing. *)
Definition kind (node : option fsnode) : option bool :=
  match node with
  | Some (Dir _ _) => Some true
  | Some File => Some false
  | None => None
  end.

(** A change of the entries of a directory that leaves alone the entries
    with other names than [sub]. *)
Definition only_touches (f : fsentries -> fsentries) (sub : jsstring)
  : Prop :=
  forall s entries, str_eqb s sub = false -> entry s (f entries) = entry s entries.

(** The checkout with a file where the hooks directory should be. *)
Definition checkout_with_hooks_file : fsnode :=
  Dir true
    (ECons (str "repo")
       (Dir true
          (ECons (str ".git")
             (Dir true
                (ECons (str "HEAD") File (ECons (str "hooks") File ENil)))
             (ECons (str "lib") (Dir true ENil) ENil)))
       ENil).

(** ** A push *)

(** [process.argv[2] || 'origin']. *)
Definition remote_of (argv2 : option jsstring) : jsstring :=
  match argv2 with
  | Some (c :: r) => c :: r
  | _ => str "origin"
  end.

(** A shell for a branch [main] that follows [origin/main], one commit
    ahead of it. *)
Definition ahead_shell (command : jsstring) : option (Z * jsstring) :=
  if str_eqb command (str "git rev-parse --abbrev-ref HEAD")
  then Some (0%Z, str "main" ++ [line_feed])
  else if str_eqb command (str "git log origin/main..HEAD")
  then Some (0%Z, str "commit 1f3a" ++ [line_feed])
  else if str_eqb command (str "git diff --stat --cached origin/main")
  then Some (0%Z,
             str " A/index.js | 2 +-" ++ [line_feed]
               ++ str " 1 file changed" ++ [line_feed])
  else Some (128%Z, []).

Definition ahead_world : World :=
  {| git_root := str "/repo";
     fs_root := two_packages;
     git_username := str "jenkins";
     require := manifests None None;
     shell_exec := shell;
     commit_message := str "fix bug";
     staged_files := [];
     unpushed_commits := [str "commit 1f3a"];
     pushed_files := [str "A/index.js | 2 +-"; str " 1 file changed"] |}.

Set Implicit Arguments.

(** * Properties *)

(** ** Strings *)

Lemma str_eqb_eq : forall a b, str_eqb a b = true <-> a = b.
Proof.
  induction a as [|x a IH]; destruct b as [|y b]; simpl; split;
    try congruence; try reflexivity.
  - intros H. apply andb_true_iff in H. destruct H as [H1 H2].
    apply Ascii.eqb_eq in H1. apply IH in H2. congruence.
  - intros H. injection H as -> ->. apply andb_true_iff. split.
    + apply Ascii.eqb_refl.
    + now apply IH.
Qed.

Lemma str_eqb_refl : forall a, str_eqb a a = true.
Proof. intros a. now apply str_eqb_eq. Qed.

(** ** The matcher decides the language of a pattern *)

Section MatcherCorrect.

Variable icase : bool.

Import RegExp.

Lemma nullable_spec : forall b e r,
  nullable b e r = true <-> Match icase b e r [].
Proof.
  intros b e. induction r; simpl.
  - split; [discriminate | intros H; inversion H].
  - split; [constructor | reflexivity].
  - split; [intros -> ; constructor | intros H; now inversion H].
  - split; [intros -> ; constructor | intros H; now inversion H].
  - split; [discriminate | intros H; inversion H].
  - rewrite andb_true_iff, IHr1, IHr2. split.
    + intros [H1 H2]. change (@nil ascii) with (@nil ascii ++ []).
      constructor; cbn [is_nil]; now rewrite andb_true_r.
    + intros H. inversion H as [| | | |? ? ? ? w1 w2 H1 H2| | | |]. subst.
      match goal with E : _ ++ _ = [] |- _ =>
        apply app_eq_nil in E; destruct E; subst end.
      cbn [is_nil] in H1, H2. rewrite andb_true_r in H1, H2. now split.
  - rewrite orb_true_iff, IHr1, IHr2. split.
    + intros [H|H]; [now apply MAltL | now apply MAltR].
    + intros H. inversion H; subst; auto.
  - split; [constructor | reflexivity].
Qed.

Lemma star_cons : forall b e r c w,
  Match icase b e (Star r) (c :: w) ->
  exists w1 w2,
    w = w1 ++ w2
    /\ Match icase b (e && is_nil w2) r (c :: w1)
    /\ Match icase false e (Star r) w2.
Proof.
  intros b e r c w H.
  remember (Star r) as r' eqn:Er. remember (c :: w) as s eqn:Es.
  revert w Es. induction H; intros w' Es; try discriminate.
  injection Er as ->.
  destruct w1 as [|c1 w1]; simpl in Es.
  - subst w2.
    destruct (IHMatch2 eq_refl w' eq_refl) as (u1 & u2 & -> & A & B).
    exists u1, u2. cbn [is_nil] in A. rewrite andb_true_r in A. auto.
  - injection Es as -> <-. exists w1, w2.
    cbn [is_nil] in H0. rewrite andb_false_r in H0. auto.
Qed.

Lemma deriv_spec : forall b c r e w,
  Match icase false e (deriv icase b c r) w <-> Match icase b e r (c :: w).
Proof.
  intros b c. induction r; intros e w; simpl.
  - split; intros H; inversion H.
  - split; intros H; inversion H.
  - split; intros H; inversion H.
  - split; intros H; inversion H.
  - destruct (cs_mem icase cs c) eqn:E; split; intros H; inversion H; subst.
    + now constructor.
    + constructor.
    + congruence.
  - assert (Hcat : Match icase false e (Cat (deriv icase b c r1) r2) w ->
                   Match icase b e (Cat r1 r2) (c :: w)).
    { intros H. inversion H as [| | | |? ? ? ? w1 w2 H1 H2| | | |]; subst.
      apply IHr1 in H1.
      change (c :: w1 ++ w2) with ((c :: w1) ++ w2).
      constructor; [exact H1|]. cbn [is_nil]. now rewrite andb_false_r. }
    assert (Hsplit : forall w1 w2,
               c :: w = w1 ++ w2 ->
               Match icase b (e && is_nil w2) r1 w1 ->
               Match icase (b && is_nil w1) e r2 w2 ->
               (w1 = [] /\ w2 = c :: w /\ Match icase b false r1 []
                /\ Match icase b e r2 (c :: w))
               \/ Match icase false e (Cat (deriv icase b c r1) r2) w).
    { intros w1 w2 E H1 H2. destruct w1 as [|c1 w1]; simpl in E.
      - subst w2. cbn [is_nil] in H1, H2.
        rewrite andb_false_r in H1. rewrite andb_true_r in H2. left. auto.
      - injection E as <- ->. right. cbn [is_nil] in H2.
        rewrite andb_false_r in H2. constructor; [|exact H2].
        now apply IHr1. }
    destruct (nullable b false r1) eqn:N; split; intros H.
    + inversion H as [| | | | |? ? ? ? ? H1|? ? ? ? ? H1| |]; subst;
        [now apply Hcat|].
      apply nullable_spec in N. apply IHr2 in H1.
      change (c :: w) with ([] ++ c :: w). constructor.
      * cbn [is_nil]. now rewrite andb_false_r.
      * cbn [is_nil]. now rewrite andb_true_r.
    + inversion H as [| | | |? ? ? ? w1 w2 H1 H2| | | |]; subst.
      match goal with E : w1 ++ w2 = c :: w |- _ =>
        destruct (Hsplit w1 w2 (eq_sym E) H1 H2)
          as [(_ & _ & _ & H3)|H3] end.
      * apply MAltR. now apply IHr2.
      * now apply MAltL.
    + now apply Hcat.
    + inversion H as [| | | |? ? ? ? w1 w2 H1 H2| | | |]; subst.
      match goal with E : w1 ++ w2 = c :: w |- _ =>
        destruct (Hsplit w1 w2 (eq_sym E) H1 H2)
          as [(_ & _ & H3 & _)|H3] end.
      * apply nullable_spec in H3. congruence.
      * exact H3.
  - split; intros H; inversion H; subst.
    + apply MAltL. now apply IHr1.
    + apply MAltR. now apply IHr2.
    + apply MAltL. now apply IHr1.
    + apply MAltR. now apply IHr2.
  - split; intros H.
    + inversion H as [| | | |? ? ? ? w1 w2 H1 H2| | | |]; subst.
      apply IHr in H1.
      change (c :: w1 ++ w2) with ((c :: w1) ++ w2).
      constructor; [exact H1|]. cbn [is_nil]. now rewrite andb_false_r.
    + apply star_cons in H. destruct H as (w1 & w2 & -> & H1 & H2).
      constructor; [now apply IHr | exact H2].
Qed.

Lemma match_prefix_spec : forall s b r,
  match_prefix icase b r s = true <->
  exists w rest, s = w ++ rest /\ Match icase b (is_nil rest) r w.
Proof.
  induction s as [|c s IH]; intros b r; simpl.
  - rewrite orb_false_r, nullable_spec. split.
    + intros H. now exists [], [].
    + intros (w & rest & E & H). symmetry in E. apply app_eq_nil in E.
      destruct E; now subst.
  - rewrite orb_true_iff, nullable_spec, IH. split.
    + intros [H|(w & rest & -> & H)].
      * now exists [], (c :: s).
      * exists (c :: w), rest. split; [reflexivity|]. now apply deriv_spec.
    + intros (w & rest & E & H). destruct w as [|c' w]; simpl in E.
      * subst rest. now left.
      * injection E as <- ->. right. exists w, rest. split; [reflexivity|].
        now apply deriv_spec.
Qed.

(** [search_from] finds a match exactly when some substring is matched
    where it stands. *)
Lemma search_from_spec : forall s b r,
  search_from icase b r s = true <->
  exists before w rest,
    s = before ++ w ++ rest
    /\ Match icase (b && is_nil before) (is_nil rest) r w.
Proof.
  induction s as [|c s IH]; intros b r; cbn [search_from].
  - rewrite orb_false_r, match_prefix_spec. split.
    + intros (w & rest & E & H). exists [], w, rest.
      cbn [is_nil]. now rewrite andb_true_r.
    + intros (a & w & rest & E & H). symmetry in E.
      apply app_eq_nil in E. destruct E as [-> E]. exists w, rest.
      cbn [is_nil] in H. rewrite andb_true_r in H. now split.
  - rewrite orb_true_iff, match_prefix_spec, IH. split.
    + intros [(w & rest & E & H)|(a & w & rest & -> & H)].
      * exists [], w, rest. cbn [is_nil]. now rewrite andb_true_r.
      * exists (c :: a), w, rest. cbn [is_nil]. now rewrite andb_false_r.
    + intros (a & w & rest & E & H). destruct a as [|c' a]; simpl in E.
      * left. exists w, rest. cbn [is_nil] in H.
        rewrite andb_true_r in H. now split.
      * injection E as <- ->. right. exists a, w, rest.
        cbn [is_nil] in H. rewrite andb_false_r in H. now split.
Qed.

(** A pattern without assertions matches the same strings wherever they
    stand. *)
Lemma match_anywhere : forall r b e b' e' w,
  anchor_free r = true ->
  Match icase b e r w -> Match icase b' e' r w.
Proof.
  intros r b e b' e' w Hr H. revert b' e'.
  induction H; intros b' e'; cbn [anchor_free] in Hr;
    try discriminate; try (apply andb_true_iff in Hr; destruct Hr);
    try (now constructor).
  - constructor; auto.
  - apply MAltL; auto.
  - apply MAltR; auto.
  - constructor; auto.
Qed.

Lemma search_anchor_free : forall s b r,
  anchor_free r = true ->
  (search_from icase b r s = true <->
   exists before w rest,
     s = before ++ w ++ rest /\ Match icase false false r w).
Proof.
  intros s b r Hr. rewrite search_from_spec.
  split; intros (a & w & rest & E & H); exists a, w, rest;
    (split; [exact E|]); now apply match_anywhere with (2 := H).
Qed.

End MatcherCorrect.

(** Patterns built from terms without assertions hold none. *)
Lemma anchor_free_cat_all : forall l,
  forallb anchor_free l = true -> anchor_free (RegExp.cat_all l) = true.
Proof.
  induction l as [|r l IH]; cbn; [reflexivity|].
  intros H. apply andb_true_iff in H. destruct H as [-> H]. now apply IH.
Qed.

Lemma anchor_free_alt_all : forall l,
  forallb anchor_free l = true -> anchor_free (RegExp.alt_all l) = true.
Proof.
  induction l as [|r l IH]; cbn; [reflexivity|].
  intros H. apply andb_true_iff in H. destruct H as [-> H]. now apply IH.
Qed.

Lemma anchor_free_atoms : forall s, forallb anchor_free (atoms s) = true.
Proof.
  unfold atoms. induction s as [|c s IH]; [reflexivity|].
  cbn [map forallb]. rewrite IH, andb_true_r.
  unfold atom_of. now destruct (Ascii.eqb c ".").
Qed.

Lemma anchor_free_group_alts : forall sep norm xs,
  forallb anchor_free sep = true ->
  forallb anchor_free (group_alts sep norm xs) = true.
Proof.
  intros sep norm xs Hsep. induction xs as [|x xs IH]; [reflexivity|].
  destruct xs as [|y xs].
  - cbn. now rewrite anchor_free_cat_all by apply anchor_free_atoms.
  - change (group_alts sep norm (x :: y :: xs))
      with (RegExp.cat_all (atoms (norm x) ++ sep)
              :: group_alts sep norm (y :: xs)).
    cbn [forallb]. rewrite IH, andb_true_r. apply anchor_free_cat_all.
    rewrite forallb_app, Hsep. now rewrite anchor_free_atoms.
Qed.

Lemma anchor_free_pattern_terms : forall folders fileTypes,
  forallb anchor_free (pattern_terms folders fileTypes) = true.
Proof.
  intros folders fileTypes. unfold pattern_terms.
  rewrite !forallb_app. apply andb_true_iff. split; [|apply andb_true_iff; split].
  - destruct folders as [fs|]; [|reflexivity]. cbn [folder_terms forallb].
    now rewrite anchor_free_alt_all by now apply anchor_free_group_alts.
  - reflexivity.
  - destruct fileTypes as [es|]; [|reflexivity]. cbn [type_terms forallb].
    rewrite anchor_free_alt_all by now apply anchor_free_group_alts.
    reflexivity.
Qed.

Lemma anchor_free_rev : forall l,
  forallb anchor_free l = true -> forallb anchor_free (rev l) = true.
Proof.
  intros l H. apply forallb_forall. intros r Hr. apply in_rev in Hr.
  revert r Hr. now apply forallb_forall.
Qed.

(** ** Reading the pattern sources the program writes *)

Lemma reads_app : forall a b acc, reads (a ++ b) acc = reads b (reads a acc).
Proof. intros. apply fold_left_app. Qed.

Lemma plain_is_atomic : forall s, plain_string s -> atomic_string s.
Proof.
  unfold plain_string, atomic_string. intros s H.
  rewrite forallb_forall in *. intros c Hc. unfold is_atomic.
  now rewrite (H c Hc).
Qed.

Lemma step_atomic : forall c stk alts seq q,
  is_atomic c = true ->
  RegExp.step (at_normal stk alts seq q) c
  = at_normal stk alts (atom_of c :: seq) RegExp.QAtom.
Proof.
  intros c stk alts seq q H. unfold is_atomic in H.
  destruct (Ascii.eqb c "."%char) eqn:Edot.
  - apply Ascii.eqb_eq in Edot. subst c. reflexivity.
  - rewrite orb_false_r in H. unfold is_plain in H.
    apply negb_true_iff in H. rewrite Edot in H.
    repeat (apply orb_false_iff in H; destruct H as [H ?]).
    unfold at_normal, atom_of.
    cbn [RegExp.step RegExp.step_state RegExp.p_mode].
    unfold RegExp.step_normal.
    repeat match goal with E : _ = false |- _ => rewrite E; clear E end.
    reflexivity.
Qed.

Lemma reads_atomic : forall l stk alts seq q,
  atomic_string l ->
  exists q',
    reads l (at_normal stk alts seq q)
    = at_normal stk alts (rev (atoms l) ++ seq) q'.
Proof.
  induction l as [|c l IH]; intros stk alts seq q H.
  - exists q. reflexivity.
  - unfold atomic_string in H. simpl in H. apply andb_true_iff in H.
    destruct H as [Hc Hl].
    destruct (IH stk alts (atom_of c :: seq) RegExp.QAtom Hl) as [q' E].
    exists q'. unfold reads in *. cbn [fold_left].
    rewrite step_atomic by assumption. rewrite E.
    unfold atoms. cbn [map rev]. now rewrite <- app_assoc.
Qed.

(** Escaping the first slash changes nothing for the reader. *)
Lemma reads_escaped_slash : forall l stk alts seq q,
  atomic_string l ->
  reads (replace_first (str "/") (str "\/") l) (at_normal stk alts seq q)
  = reads l (at_normal stk alts seq q).
Proof.
  induction l as [|c l IH]; intros stk alts seq q H.
  - reflexivity.
  - unfold atomic_string in H. simpl in H. apply andb_true_iff in H.
    destruct H as [Hc Hl].
    cbn [replace_first str list_ascii_of_string starts_with].
    destruct (Ascii.eqb "/"%char c) eqn:E.
    + apply Ascii.eqb_eq in E. subst c. reflexivity.
    + cbn [andb]. unfold reads in *. cbn [fold_left].
      rewrite step_atomic by assumption. apply IH. exact Hl.
Qed.

(** Reading a group [( x1 SEP | x2 SEP | ... | xn )]. *)
Section ReadGroup.

Import RegExp.

Variable sep_src : jsstring.
Variable sep_terms : list re.
Hypothesis reads_sep : forall stk alts seq q,
  exists q',
    reads sep_src (at_normal stk alts seq q)
    = at_normal stk alts (rev sep_terms ++ seq) q'.

Variable src : jsstring -> jsstring.
Variable norm : jsstring -> jsstring.
Hypothesis reads_src : forall x stk alts seq q,
  atomic_string x ->
  reads (src x) (at_normal stk alts seq q)
  = reads (norm x) (at_normal stk alts seq q).
Hypothesis norm_atomic : forall x, atomic_string x -> atomic_string (norm x).

Lemma reads_join : forall xs,
  Forall atomic_string xs ->
  forall stk alts q,
  exists alts' seq' q',
    reads (join (sep_src ++ str "|") (map src xs)) (at_normal stk alts [] q)
    = at_normal stk alts' seq' q'
    /\ rev (cat_all (rev seq') :: alts') = rev alts ++ group_alts sep_terms norm xs.
Proof.
  induction xs as [|x rest IH]; intros Hall stk alts q.
  - exists alts, [], q. split; reflexivity.
  - inversion Hall as [|? ? Hx Hrest]; subst.
    destruct rest as [|y rest].
    + destruct (reads_atomic stk alts [] q (norm_atomic Hx)) as [q' E].
      exists alts, (rev (atoms (norm x)) ++ []), q'. split.
      * cbn [map join]. rewrite reads_src by assumption. exact E.
      * cbn [group_alts rev]. now rewrite app_nil_r, rev_involutive.
    + destruct (reads_atomic stk alts [] q (norm_atomic Hx)) as [q1 E1].
      destruct (reads_sep stk alts (rev (atoms (norm x)) ++ []) q1)
        as [q2 E2].
      destruct (IH Hrest stk
                  (cat_all (rev (rev sep_terms ++ rev (atoms (norm x)) ++ []))
                     :: alts) QNone)
        as (alts' & seq' & q' & E3 & E4).
      exists alts', seq', q'. split.
      * change (map src (x :: y :: rest))
          with (src x :: map src (y :: rest)).
        change (join (sep_src ++ str "|") (src x :: map src (y :: rest)))
          with (src x ++ (sep_src ++ str "|")
                  ++ join (sep_src ++ str "|") (map src (y :: rest))).
        rewrite !reads_app, reads_src, E1, E2 by assumption.
        exact E3.
      * rewrite E4. cbn [rev group_alts].
        rewrite app_nil_r, rev_app_distr, !rev_involutive, <- app_assoc.
        reflexivity.
Qed.

(** The whole group, from its opening parenthesis on. *)
Lemma reads_group : forall xs stk alts seq q,
  Forall atomic_string xs ->
  reads (str "(?:" ++ join (sep_src ++ str "|") (map src xs) ++ str ")")
        (at_normal stk alts seq q)
  = at_normal stk alts (alt_all (group_alts sep_terms norm xs) :: seq) QAtom.
Proof.
  intros xs stk alts seq q Hall.
  rewrite !reads_app.
  destruct (reads_join Hall ((alts, seq) :: stk) [] QNone)
    as (alts' & seq' & q' & E1 & E2).
  change (reads (str "(?:") (at_normal stk alts seq q))
    with (at_normal ((alts, seq) :: stk) [] [] QNone).
  rewrite E1.
  change (reads (str ")") (at_normal ((alts, seq) :: stk) alts' seq' q'))
    with (at_normal stk alts (close_alts alts' seq' :: seq) QAtom).
  unfold close_alts. now rewrite E2.
Qed.

End ReadGroup.

(** ** The language of the terms the reader builds *)

Section Language.

Import RegExp.

Variable icase : bool.

Lemma match_cat_all_cons : forall r l w,
  Match icase false false (cat_all (r :: l)) w <->
  exists w1 w2, w = w1 ++ w2 /\ Match icase false false r w1 /\ Match icase false false (cat_all l) w2.
Proof.
  intros r l w. cbn [cat_all fold_right]. split.
  - intros H. inversion H as [| | | |? ? ? ? w1 w2 H1 H2| | | |]; subst.
    now exists w1, w2.
  - intros (w1 & w2 & -> & H1 & H2). now constructor.
Qed.

Lemma match_cat_all_nil : forall w, Match icase false false (cat_all []) w <-> w = [].
Proof.
  intros w. cbn. split; intros H; [now inversion H | subst; constructor].
Qed.

Lemma match_cat_all_app : forall l1 l2 w,
  Match icase false false (cat_all (l1 ++ l2)) w <->
  exists w1 w2,
    w = w1 ++ w2 /\ Match icase false false (cat_all l1) w1 /\ Match icase false false (cat_all l2) w2.
Proof.
  induction l1 as [|r l1 IH]; intros l2 w.
  - cbn [app]. split.
    + intros H. exists [], w. repeat split; auto. now apply match_cat_all_nil.
    + intros (w1 & w2 & -> & H1 & H2). apply match_cat_all_nil in H1.
      now subst.
  - change ((r :: l1) ++ l2) with (r :: (l1 ++ l2)).
    rewrite match_cat_all_cons. split.
    + intros (w1 & w2 & -> & H1 & H2). apply IH in H2.
      destruct H2 as (u1 & u2 & -> & H2 & H3).
      exists (w1 ++ u1), u2. rewrite app_assoc. repeat split; auto.
      apply match_cat_all_cons. now exists w1, u1.
    + intros (w1 & w2 & -> & H1 & H2). apply match_cat_all_cons in H1.
      destruct H1 as (u1 & u2 & -> & H1 & H3).
      exists u1, (u2 ++ w2). rewrite app_assoc. repeat split; auto.
      apply IH. now exists u2, w2.
Qed.

Lemma match_alt_all : forall l w,
  Match icase false false (alt_all l) w <-> exists r, In r l /\ Match icase false false r w.
Proof.
  induction l as [|r l IH]; intros w; cbn [alt_all fold_right].
  - split; [intros H; inversion H | intros (r & [] & _)].
  - split.
    + intros H. inversion H as [| | | | |? ? ? ? ? H1|? ? ? ? ? H1| |]; subst.
      * exists r. split; [now left | assumption].
      * apply IH in H1. destruct H1 as (r' & Hin & Hm).
        exists r'. split; [now right | assumption].
    + intros (r' & [<-|Hin] & Hm).
      * now apply MAltL.
      * apply MAltR. apply IH. now exists r'.
Qed.

Lemma match_opt : forall r w, Match icase false false (opt r) w <-> Match icase false false r w \/ w = [].
Proof.
  intros r w. unfold opt. split.
  - intros H. inversion H as [| | | | |? ? ? ? ? H1|? ? ? ? ? H1| |]; subst;
      [now left|]. right. now inversion H1.
  - intros [H| ->]; [now apply MAltL | apply MAltR; constructor].
Qed.

Lemma match_sym : forall cs w,
  Match icase false false (Sym cs) w <-> exists c, w = [c] /\ cs_mem icase cs c = true.
Proof.
  intros cs w. split.
  - intros H. inversion H; subst. now exists c.
  - intros (c & -> & H). now constructor.
Qed.

Lemma match_star_sym : forall cs w,
  Match icase false false (Star (Sym cs)) w <->
  Forall (fun c => cs_mem icase cs c = true) w.
Proof.
  intros cs w. split.
  - generalize false at 1 as b. generalize false as e. intros e b H.
    remember (Star (Sym cs)) as r eqn:E.
    induction H; try discriminate.
    + constructor.
    + injection E as ->. apply Forall_app. split.
      * match goal with H' : Match _ _ _ (Sym cs) _ |- _ =>
          inversion H'; subst end.
        now repeat constructor.
      * now apply IHMatch2.
  - induction 1 as [|c w Hc _ IH].
    + constructor.
    + change (c :: w) with ([c] ++ w). constructor; [now constructor | exact IH].
Qed.

Lemma match_plus_sym : forall cs w,
  Match icase false false (plus (Sym cs)) w <->
  w <> [] /\ Forall (fun c => cs_mem icase cs c = true) w.
Proof.
  intros cs w. unfold plus. split.
  - intros H. inversion H as [| | | |? ? ? ? w1 w2 H1 H2| | | |]; subst.
    apply match_sym in H1. destruct H1 as (c & -> & Hc).
    apply match_star_sym in H2. split; [discriminate|].
    now constructor.
  - intros [Hne Hall]. destruct w as [|c w]; [congruence|].
    inversion Hall; subst. change (c :: w) with ([c] ++ w).
    constructor; [now constructor | now apply match_star_sym].
Qed.

End Language.

(** ** The pattern of [buildFilePattern] *)

Lemma bind_ret : forall A B (a : A) (f : A -> M B), bind (ret a) f = f a.
Proof. intros. unfold bind, ret. now destruct (f a). Qed.

Lemma strings_of_map : forall l, strings_of (map JStr l) = Some l.
Proof. induction l as [|s l IH]; simpl; [reflexivity | now rewrite IH]. Qed.

Lemma lookup_folders : forall folders fileTypes,
  lookup (str "folders")
         (list_field "folders" folders ++ list_field "fileTypes" fileTypes)
  = option_map (fun l => JArr (map JStr l)) folders.
Proof. intros [fs|] [es|]; reflexivity. Qed.

Lemma lookup_fileTypes : forall folders fileTypes,
  lookup (str "fileTypes")
         (list_field "folders" folders ++ list_field "fileTypes" fileTypes)
  = option_map (fun l => JArr (map JStr l)) fileTypes.
Proof. intros [fs|] [es|]; reflexivity. Qed.

Ltac simp_bind :=
  repeat (rewrite bind_ret || rewrite strings_of_map
          || cbn [truthy option_map string_array fst snd prop]).

Lemma buildFilePattern_source : forall folders fileTypes relative,
  Utils.buildFilePattern (restrictions_of folders fileTypes) relative
  = new_RegExp (pattern_source folders fileTypes relative) true.
Proof.
  intros folders fileTypes relative.
  unfold Utils.buildFilePattern, restrictions_of, pattern_source.
  simp_bind. rewrite lookup_folders, lookup_fileTypes.
  destruct folders as [fs|], fileTypes as [es|]; simp_bind; reflexivity.
Qed.

(** With no restrictions object at all the pattern is the same as with an
    empty one. *)
Lemma buildFilePattern_undefined : forall relative,
  Utils.buildFilePattern None relative
  = new_RegExp (pattern_source None None relative) true.
Proof.
  intros relative. unfold Utils.buildFilePattern. cbn [truthy].
  rewrite bind_ret. reflexivity.
Qed.

Lemma atomic_app : forall a b,
  atomic_string a -> atomic_string b -> atomic_string (a ++ b).
Proof.
  unfold atomic_string. intros a b Ha Hb. rewrite forallb_app.
  now rewrite Ha, Hb.
Qed.

Lemma atomic_skipn : forall n a, atomic_string a -> atomic_string (skipn n a).
Proof.
  unfold atomic_string. induction n as [|n IH]; intros a Ha.
  - exact Ha.
  - destruct a as [|c a]; [reflexivity|]. simpl in *.
    apply andb_true_iff in Ha. now apply IH.
Qed.

Lemma atomic_removelast : forall a,
  atomic_string a -> atomic_string (removelast a).
Proof.
  unfold atomic_string. induction a as [|c a IH]; intros Ha.
  - reflexivity.
  - simpl in Ha. apply andb_true_iff in Ha. destruct Ha as [Hc Ha].
    destruct a as [|d a]; [reflexivity|].
    change (removelast (c :: d :: a)) with (c :: removelast (d :: a)).
    cbn [forallb]. rewrite Hc. now apply IH.
Qed.

Lemma folder_norm_atomic : forall f,
  atomic_string f -> atomic_string (folder_norm f).
Proof.
  intros f Hf. unfold folder_norm, strip_dot_slash.
  assert (H : atomic_string (if ends_with_slash f then f else f ++ str "/")).
  { destruct (ends_with_slash f); [exact Hf|].
    apply atomic_app; [exact Hf | reflexivity]. }
  destruct (starts_with _ _); [now apply atomic_skipn | exact H].
Qed.

Lemma reads_folder_source : forall x stk alts seq q,
  atomic_string x ->
  reads (Utils.folder_source x) (at_normal stk alts seq q)
  = reads (folder_norm x) (at_normal stk alts seq q).
Proof.
  intros x stk alts seq q Hx.
  change (Utils.folder_source x)
    with (replace_first (str "/") (str "\/") (folder_norm x)).
  apply reads_escaped_slash. now apply folder_norm_atomic.
Qed.

Lemma reads_folders_group : forall fs stk alts seq q,
  Forall atomic_string fs ->
  reads (str "(?:" ++ join (str "|") (map Utils.folder_source fs) ++ str ")")
        (at_normal stk alts seq q)
  = at_normal stk alts
      (RegExp.alt_all (group_alts [] folder_norm fs) :: seq) RegExp.QAtom.
Proof.
  intros fs stk alts seq q H.
  refine (@reads_group [] [] _ Utils.folder_source folder_norm
            reads_folder_source folder_norm_atomic fs stk alts seq q H).
  intros stk' alts' seq' q'. now exists q'.
Qed.

Lemma reads_types_group : forall es stk alts seq q,
  Forall atomic_string es ->
  reads (str "(?:" ++ join (str "\s+\||") es ++ str ")")
        (at_normal stk alts seq q)
  = at_normal stk alts
      (RegExp.alt_all (group_alts type_separator (fun e => e) es) :: seq)
      RegExp.QAtom.
Proof.
  intros es stk alts seq q H.
  rewrite <- (map_id es) at 1.
  refine (@reads_group (str "\s+\|") type_separator _ (fun e => e)
            (fun e => e) _ _ es stk alts seq q H).
  - intros stk' alts' seq' q'. exists RegExp.QAtom. reflexivity.
  - reflexivity.
  - auto.
Qed.

Lemma reads_seq : forall a b acc acc1 acc2,
  reads a acc = acc1 -> reads b acc1 = acc2 -> reads (a ++ b) acc = acc2.
Proof. intros a b acc acc1 acc2 <- <-. apply reads_app. Qed.

Lemma reads_types : forall es stk alts seq q,
  Forall atomic_string es ->
  reads (str ".+\.(?:" ++ join (str "\s+\||") es ++ str ")")
        (at_normal stk alts seq q)
  = at_normal stk alts
      (rev (any_plus :: type_terms (Some es)) ++ seq) RegExp.QAtom.
Proof.
  intros es stk alts seq q H.
  change (str ".+\.(?:" ++ join (str "\s+\||") es ++ str ")")
    with (str ".+\." ++ str "(?:" ++ join (str "\s+\||") es ++ str ")").
  eapply reads_seq; [reflexivity|].
  now apply reads_types_group.
Qed.

(** What the reader makes of the whole pattern: an optional prefix, then
    the terms of the restrictions. *)
Lemma parse_pattern_source : forall folders fileTypes relative,
  atomic_string relative -> all_atomic folders -> all_atomic fileTypes ->
  exists prefix,
    anchor_free prefix = true
    /\ RegExp.parse (pattern_source folders fileTypes relative)
       = RegExp.Compiled
           (RegExp.alt_all
              [RegExp.cat_all (RegExp.opt prefix
                                 :: pattern_terms folders fileTypes)]).
Proof.
  intros folders fileTypes relative Hrel Hfs Hes.
  set (rel := if ends_with_slash relative then removelast relative
              else relative).
  assert (Hrel' : atomic_string rel).
  { unfold rel. destruct (ends_with_slash relative);
      [now apply atomic_removelast | exact Hrel]. }
  destruct (reads_atomic [([], [])] [] [any_plus] RegExp.QQuant Hrel')
    as [q1 E1].
  set (prefix := RegExp.close_alts []
                   (RegExp.Sym (RegExp.CChar "/"%char)
                      :: rev (atoms rel) ++ [any_plus])).
  exists prefix. split.
  { unfold prefix, RegExp.close_alts.
    change (rev [RegExp.cat_all
                   (rev (RegExp.Sym (RegExp.CChar "/"%char)
                           :: rev (atoms rel) ++ [any_plus]))])
      with [RegExp.cat_all
              (rev (RegExp.Sym (RegExp.CChar "/"%char)
                      :: rev (atoms rel) ++ [any_plus]))].
    apply anchor_free_alt_all. cbn [forallb]. rewrite andb_true_r.
    apply anchor_free_cat_all, anchor_free_rev. cbn [forallb anchor_free].
    rewrite forallb_app. rewrite anchor_free_rev by apply anchor_free_atoms.
    reflexivity. }
  assert (E0 : reads (str "(?:.+" ++ rel ++ str "\/)?")
                 (RegExp.Compiled RegExp.init)
               = at_normal [] [] [RegExp.opt prefix] RegExp.QQuant).
  { eapply reads_seq; [reflexivity|].
    eapply reads_seq; [exact E1 | reflexivity]. }
  assert (Hfin : forall s terms q,
             reads s (RegExp.Compiled RegExp.init)
             = at_normal [] [] (rev terms ++ [RegExp.opt prefix]) q ->
             RegExp.parse s
             = RegExp.Compiled
                 (RegExp.alt_all
                    [RegExp.cat_all (RegExp.opt prefix :: terms)])).
  { intros s terms q E. unfold RegExp.parse.
    change (fold_left RegExp.step s (RegExp.Compiled RegExp.init))
      with (reads s (RegExp.Compiled RegExp.init)).
    rewrite E. unfold at_normal.
    cbn [RegExp.finish RegExp.p_mode RegExp.p_stack RegExp.p_alts
         RegExp.p_seq].
    unfold RegExp.close_alts.
    now rewrite rev_app_distr, rev_involutive. }
  unfold pattern_source. fold rel.
  destruct folders as [fs|], fileTypes as [es|]; cbv zeta.
  - apply Hfin with (q := RegExp.QAtom). rewrite app_nil_r.
    eapply reads_seq;
      [eapply reads_seq; [exact E0 | now apply reads_folders_group]|].
    now apply reads_types.
  - apply Hfin with (q := RegExp.QQuant).
    eapply reads_seq;
      [eapply reads_seq; [exact E0 | now apply reads_folders_group]|].
    reflexivity.
  - apply Hfin with (q := RegExp.QAtom). rewrite app_nil_r.
    eapply reads_seq; [exact E0|]. now apply reads_types.
  - apply Hfin with (q := RegExp.QQuant).
    eapply reads_seq; [exact E0 | reflexivity].
Qed.

(** ** What the built predicate accepts *)

Lemma all_plain_atomic : forall l, all_plain l -> all_atomic l.
Proof.
  intros [xs|] H; [|exact I]. simpl in *.
  eapply Forall_impl; [|exact H]. exact plain_is_atomic.
Qed.

Lemma match_literal : forall g w,
  plain_string g ->
  (RegExp.Match true false false (RegExp.cat_all (atoms g)) w <-> ci_eq g w).
Proof.
  unfold plain_string, ci_eq.
  induction g as [|c g IH]; intros w Hg.
  - cbn [atoms map]. rewrite match_cat_all_nil. split.
    + now intros ->.
    + destruct w; [reflexivity | discriminate].
  - simpl in Hg. apply andb_true_iff in Hg. destruct Hg as [Hc Hg].
    assert (Ec : atom_of c = RegExp.Sym (RegExp.CChar c)).
    { unfold atom_of, is_plain in *. apply negb_true_iff in Hc.
      repeat (apply orb_false_iff in Hc; destruct Hc as [Hc ?]).
      match goal with E : Ascii.eqb c "."%char = false |- _ =>
        now rewrite E end. }
    cbn [atoms map]. rewrite Ec, match_cat_all_cons. split.
    + intros (w1 & w2 & -> & H1 & H2). apply match_sym in H1.
      destruct H1 as (x & -> & Hx). apply (IH _ Hg) in H2.
      cbn in Hx. apply Ascii.eqb_eq in Hx. cbn [map app]. congruence.
    + intros H. destruct w as [|x w]; [discriminate|].
      cbn [map] in H. injection H as Hx Hw.
      exists [x], w. repeat split.
      * constructor. cbn. rewrite Hx. apply Ascii.eqb_refl.
      * now apply IH.
Qed.

Lemma group_alts_no_sep : forall norm xs,
  xs <> [] ->
  group_alts [] norm xs
  = map (fun x => RegExp.cat_all (atoms (norm x))) xs.
Proof.
  intros norm. induction xs as [|x xs IH]; intros H; [congruence|].
  destruct xs as [|y xs]; [reflexivity|].
  change (group_alts [] norm (x :: y :: xs))
    with (RegExp.cat_all (atoms (norm x) ++ [])
            :: group_alts [] norm (y :: xs)).
  rewrite app_nil_r, IH by discriminate. reflexivity.
Qed.

Lemma group_alts_in : forall sep norm xs r,
  xs <> [] -> In r (group_alts sep norm xs) ->
  exists x tail,
    In x xs /\ r = RegExp.cat_all (atoms (norm x) ++ tail).
Proof.
  intros sep norm. induction xs as [|x xs IH]; intros r H Hin; [congruence|].
  destruct xs as [|y xs].
  - destruct Hin as [<-|[]]. exists x, []. rewrite app_nil_r.
    split; [now left | reflexivity].
  - destruct Hin as [<-|Hin].
    + exists x, sep. split; [now left | reflexivity].
    + destruct (IH r ltac:(discriminate) Hin) as (x' & tail & Hx & ->).
      exists x', tail. split; [now right | reflexivity].
Qed.

Lemma group_alts_last : forall sep norm xs,
  xs <> [] ->
  In (RegExp.cat_all (atoms (norm (last xs [])))) (group_alts sep norm xs).
Proof.
  intros sep norm. induction xs as [|x xs IH]; intros H; [congruence|].
  destruct xs as [|y xs]; [now left|].
  right. apply IH. discriminate.
Qed.

Lemma folder_norm_plain : forall f,
  plain_string f -> folder_norm f = folder_prefix f.
Proof.
  intros f Hf. unfold folder_norm, folder_prefix, strip_dot_slash.
  destruct f as [|c f]; [reflexivity|].
  unfold plain_string in Hf. simpl in Hf. apply andb_true_iff in Hf.
  destruct Hf as [Hc _].
  assert (E : Ascii.eqb "."%char c = false).
  { unfold is_plain in Hc. apply negb_true_iff in Hc.
    repeat (apply orb_false_iff in Hc; destruct Hc as [Hc ?]).
    rewrite Ascii.eqb_sym.
    match goal with E : Ascii.eqb c "."%char = false |- _ => exact E end. }
  destruct (ends_with_slash (c :: f)); cbn [str list_ascii_of_string
    starts_with app]; now rewrite E.
Qed.

Lemma folder_prefix_plain : forall f,
  plain_string f -> plain_string (folder_prefix f).
Proof.
  intros f Hf. unfold folder_prefix. destruct (ends_with_slash f); [exact Hf|].
  unfold plain_string in *. rewrite forallb_app, Hf. reflexivity.
Qed.

(** The folder group matches exactly the configured folder prefixes. *)
Lemma match_folder_terms : forall folders F,
  all_plain folders ->
  (RegExp.Match true false false (RegExp.cat_all (folder_terms folders)) F
   <-> folder_part folders F).
Proof.
  intros [fs|] F Hfs; cbn [folder_terms folder_part].
  - destruct fs as [|f0 fs'].
    + cbn. split.
      * intros H. inversion H as [| | | |? ? ? ? w1 w2 H1 H2| | | |]; subst.
        inversion H2; subst.
        inversion H1 as [| | | | |? ? ? ? ? H3|? ? ? ? ? H3| |]; subst;
          inversion H3; subst. reflexivity.
      * intros ->. change (@nil ascii) with (@nil ascii ++ []).
        constructor; [|constructor]. apply RegExp.MAltL. constructor.
    + rewrite group_alts_no_sep by discriminate.
      rewrite match_cat_all_cons. split.
      * intros (w1 & w2 & -> & H1 & H2). apply match_cat_all_nil in H2.
        subst w2. rewrite app_nil_r. apply match_alt_all in H1.
        destruct H1 as (r & Hin & Hm). apply in_map_iff in Hin.
        destruct Hin as (f & <- & Hf). exists f. split; [exact Hf|].
        simpl in Hfs. rewrite Forall_forall in Hfs.
        rewrite folder_norm_plain in Hm by now apply Hfs.
        apply match_literal in Hm; [exact Hm|].
        apply folder_prefix_plain. now apply Hfs.
      * intros (f & Hf & Hci). exists F, []. rewrite app_nil_r.
        repeat split; [|now apply match_cat_all_nil].
        apply match_alt_all.
        exists (RegExp.cat_all (atoms (folder_norm f))). split.
        -- apply in_map_iff. now exists f.
        -- simpl in Hfs. rewrite Forall_forall in Hfs.
           rewrite folder_norm_plain by now apply Hfs.
           apply match_literal; [|exact Hci].
           apply folder_prefix_plain. now apply Hfs.
  - apply match_cat_all_nil.
Qed.

Lemma last_in : forall (xs : list jsstring) d, xs <> [] -> In (last xs d) xs.
Proof.
  induction xs as [|x xs IH]; intros d H; [congruence|].
  destruct xs as [|y xs]; [now left|]. right. apply IH. discriminate.
Qed.

(** Accepting through the type group needs a dot and a listed extension. *)
Lemma match_type_terms_needs : forall es T,
  Forall plain_string es -> es <> [] ->
  RegExp.Match true false false (RegExp.cat_all (type_terms (Some es))) T ->
  exists e T1 T2, In e es /\ T = T1 ++ T2 /\ ci_eq (str "." ++ e) T1.
Proof.
  intros es T Hes Hne H. cbn [type_terms] in H.
  apply match_cat_all_cons in H. destruct H as (w1 & w2 & -> & H1 & H2).
  apply match_sym in H1. destruct H1 as (x & -> & Hx).
  apply match_cat_all_cons in H2. destruct H2 as (w3 & w4 & -> & H3 & H4).
  apply match_cat_all_nil in H4. subst w4.
  apply match_alt_all in H3. destruct H3 as (r & Hin & Hm).
  destruct (@group_alts_in _ _ _ _ Hne Hin) as (e & tail & He & ->).
  apply match_cat_all_app in Hm. destruct Hm as (u1 & u2 & -> & Hu1 & Hu2).
  rewrite Forall_forall in Hes.
  apply match_literal in Hu1; [|now apply Hes].
  exists e, (x :: u1), u2. repeat split; [exact He | |].
  - cbn [app]. now rewrite app_nil_r.
  - unfold ci_eq in *. cbn [str list_ascii_of_string app map].
    change (Ascii.eqb (canonicalize "."%char) (canonicalize x) = true) in Hx.
    apply Ascii.eqb_eq in Hx. now rewrite Hx, Hu1.
Qed.

(** A dot and the last extension listed are enough for the type group. *)
Lemma match_type_terms_last : forall fileTypes E,
  all_plain fileTypes -> last_type_part fileTypes E ->
  RegExp.Match true false false (RegExp.cat_all (type_terms fileTypes)) E.
Proof.
  intros [es|] E Hes H; cbn [type_terms last_type_part] in *.
  - unfold ci_eq in H. cbn [str list_ascii_of_string app map] in H.
    destruct E as [|x E]; [discriminate|]. cbn [map] in H.
    injection H as Hx HE.
    apply match_cat_all_cons. exists [x], E. repeat split.
    + constructor.
      change (Ascii.eqb (canonicalize "."%char) (canonicalize x) = true).
      rewrite Hx. apply Ascii.eqb_refl.
    + apply match_cat_all_cons. exists E, []. rewrite app_nil_r.
      repeat split; [|now apply match_cat_all_nil].
      apply match_alt_all.
      exists (RegExp.cat_all (atoms (last es []))). split.
      * destruct es as [|e es']; [now left|].
        apply (group_alts_last type_separator (fun e => e)). discriminate.
      * apply match_literal; [|exact HE].
        destruct es as [|e es']; [reflexivity|].
        simpl in Hes. rewrite Forall_forall in Hes. apply Hes.
        apply last_in. discriminate.
  - subst E. now apply match_cat_all_nil.
Qed.

Unset Implicit Arguments.

(** A trimmed string does not start with white space. *)
Lemma trim_start_head : forall s c s',
  trim_start s = c :: s' -> is_white_space c = false.
Proof.
  induction s as [|x s IH]; intros c s' H; [discriminate|].
  cbn [trim_start] in H. destruct (is_white_space x) eqn:E.
  - now apply IH with (s' := s').
  - injection H as <- _. exact E.
Qed.

Lemma trim_start_keeps_last : forall u c,
  is_white_space c = false ->
  exists u', trim_start (u ++ [c]) = u' ++ [c].
Proof.
  induction u as [|x u IH]; intros c Hc.
  - exists []. cbn. now rewrite Hc.
  - cbn [app trim_start]. destruct (is_white_space x).
    + now apply IH.
    + now exists (x :: u).
Qed.

Lemma trim_head : forall s c s',
  trim s = c :: s' -> is_white_space c = false.
Proof.
  intros s c s' H. unfold trim in H.
  destruct (trim_start s) as [|c0 t] eqn:E; [discriminate|].
  pose proof (trim_start_head _ _ _ E) as Hc0.
  cbn [rev] in H.
  destruct (trim_start_keeps_last (rev t) c0 Hc0) as [u' Eu].
  rewrite Eu, rev_app_distr in H. cbn in H. now injection H as <- _.
Qed.

Lemma white_space_of_line_terminator : forall c,
  is_white_space c = false -> is_line_terminator c = false.
Proof.
  intros c H. unfold is_white_space, is_line_terminator, in_range in *.
  apply orb_false_iff in H. destruct H as [H _].
  apply orb_false_iff in H. destruct H as [H _].
  apply andb_false_iff in H.
  apply orb_false_iff. split; apply N.eqb_neq; intros E; rewrite E in H;
    destruct H as [H|H]; discriminate.
Qed.

(** The optional prefix never changes what [exec] finds: the search is not
    anchored, so the rest of the pattern may match from any index. *)
Lemma search_after_optional : forall icase prefix terms s,
  anchor_free prefix = true -> forallb anchor_free terms = true ->
  (RegExp.search icase
     (RegExp.alt_all [RegExp.cat_all (RegExp.opt prefix :: terms)]) s = true
   <-> exists before w after,
         s = before ++ w ++ after
         /\ RegExp.Match icase false false (RegExp.cat_all terms) w).
Proof.
  intros icase prefix terms s Hp Ht. unfold RegExp.search.
  rewrite search_anchor_free.
  2:{ apply anchor_free_alt_all. cbn [forallb]. rewrite andb_true_r.
      apply anchor_free_cat_all. cbn [forallb RegExp.opt anchor_free].
      now rewrite Hp, Ht. }
  split.
  - intros (a & w & b & -> & H). apply match_alt_all in H.
    destruct H as (r & [<-|[]] & H). apply match_cat_all_cons in H.
    destruct H as (w1 & w2 & -> & _ & H2).
    exists (a ++ w1), w2, b. split; [|exact H2].
    now rewrite <- !app_assoc.
  - intros (a & w & b & -> & H). exists a, w, b. split; [reflexivity|].
    apply match_alt_all. eexists. split; [now left|].
    apply match_cat_all_cons. exists [], w. repeat split; [|exact H].
    apply match_opt. now right.
Qed.

(** The terms after the prefix: the folder part, one or more characters
    that are no line terminators, the type part. *)
Lemma match_pattern_terms : forall folders fileTypes w,
  RegExp.Match true false false (RegExp.cat_all (pattern_terms folders fileTypes)) w
  <-> exists F mid T,
        w = F ++ mid ++ T
        /\ RegExp.Match true false false (RegExp.cat_all (folder_terms folders)) F
        /\ mid <> [] /\ no_line_terminator mid
        /\ RegExp.Match true false false (RegExp.cat_all (type_terms fileTypes)) T.
Proof.
  intros folders fileTypes w. unfold pattern_terms.
  rewrite match_cat_all_app. split.
  - intros (F & w2 & -> & HF & H2).
    change ([any_plus] ++ type_terms fileTypes)
      with (any_plus :: type_terms fileTypes) in H2.
    apply match_cat_all_cons in H2.
    destruct H2 as (mid & T & -> & Hmid & HT).
    apply match_plus_sym in Hmid. destruct Hmid as [Hne Hall].
    exists F, mid, T. repeat split; auto.
    unfold no_line_terminator. eapply Forall_impl; [|exact Hall].
    intros c Hc. cbn in Hc. now apply negb_true_iff in Hc.
  - intros (F & mid & T & -> & HF & Hne & Hall & HT).
    exists F, (mid ++ T). repeat split; auto.
    change ([any_plus] ++ type_terms fileTypes)
      with (any_plus :: type_terms fileTypes).
    apply match_cat_all_cons. exists mid, T. repeat split; auto.
    apply match_plus_sym. split; [exact Hne|].
    eapply Forall_impl; [|exact Hall].
    intros c Hc. cbn. now apply negb_true_iff.
Qed.

(** What [exec] finds with the pattern of [buildFilePattern], in terms of
    the trimmed path. *)
Lemma pattern_search : forall folders fileTypes prefix s,
  anchor_free prefix = true ->
  all_plain folders ->
  (RegExp.search true
     (RegExp.alt_all
        [RegExp.cat_all (RegExp.opt prefix :: pattern_terms folders fileTypes)])
     s = true
   <-> exists before F mid T after,
         s = before ++ F ++ mid ++ T ++ after
         /\ folder_part folders F
         /\ mid <> [] /\ no_line_terminator mid
         /\ RegExp.Match true false false (RegExp.cat_all (type_terms fileTypes)) T).
Proof.
  intros folders fileTypes prefix s Hp Hfs.
  rewrite search_after_optional
    by (auto using anchor_free_pattern_terms).
  split.
  - intros (before & w & after & -> & H).
    apply match_pattern_terms in H.
    destruct H as (F & mid & T & -> & HF & Hne & Hall & HT).
    exists before, F, mid, T, after. repeat split; auto.
    + now rewrite <- !app_assoc.
    + now apply match_folder_terms.
  - intros (before & F & mid & T & after & -> & HF & Hne & Hall & HT).
    exists before, (F ++ mid ++ T), after. split.
    + now rewrite <- !app_assoc.
    + apply match_pattern_terms. exists F, mid, T. repeat split; auto.
      now apply match_folder_terms.
Qed.

(** C3 (amended).  For folders, extensions and a relative path without
    pattern metacharacters (the relative path may hold dots),
    [buildFilePattern] returns a pattern, and the predicate built on it
    - with neither list configured, accepts exactly the paths that are not
      empty once trimmed;
    - accepts only paths that hold, anywhere and up to case, a configured
      folder with its slash (when folders are listed) and a dot followed by a
      listed extension (when extensions are listed);
    - accepts every path that holds a configured folder with its slash (when
      folders are configured), then at least one character that is no line
      terminator, then a dot and the last listed extension (when extensions
      are configured).
    Nothing anchors the match at the start or the end of the path. *)
Theorem buildFilePattern_accepts :
  forall folders fileTypes relative,
    atomic_string relative -> all_plain folders -> all_plain fileTypes ->
    exists rx,
      Utils.buildFilePattern (restrictions_of folders fileTypes) relative
      = ret rx
      /\ forall path,
           (folders = None -> fileTypes = None ->
            (Utils.accepts rx path = true <-> trim path <> []))
           /\ (Utils.accepts rx path = true ->
               (forall fs, folders = Some fs -> fs <> [] ->
                  exists f, In f fs
                            /\ occurs_ci (folder_prefix f) (trim path))
               /\ (forall es, fileTypes = Some es -> es <> [] ->
                     exists e, In e es
                               /\ occurs_ci (str "." ++ e) (trim path)))
           /\ (forall before F mid E after,
                 trim path = before ++ F ++ mid ++ E ++ after ->
                 folder_part folders F ->
                 mid <> [] -> no_line_terminator mid ->
                 last_type_part fileTypes E ->
                 Utils.accepts rx path = true).
Proof.
  intros folders fileTypes relative Hrel Hfs Hes.
  destruct (@parse_pattern_source folders fileTypes relative Hrel
              (@all_plain_atomic _ Hfs) (@all_plain_atomic _ Hes))
    as (prefix & Hfree & Hp).
  eexists. split.
  { rewrite buildFilePattern_source. unfold new_RegExp, RegExp.make.
    rewrite Hp. reflexivity. }
  intros path. unfold Utils.accepts, RegExp.exec.
  cbn [RegExp.source RegExp.ignoreCase].
  pose proof (pattern_search folders fileTypes prefix (trim path) Hfree Hfs)
    as S.
  split; [|split].
  - intros -> ->. rewrite S. split.
    + intros (before & F & mid & T & after & E & _ & Hne & _).
      rewrite E. intros H. apply app_eq_nil in H. destruct H as [_ H].
      apply app_eq_nil in H. destruct H as [_ H].
      apply app_eq_nil in H. destruct H as [H _]. contradiction.
    + intros Hs. destruct (trim path) as [|c s'] eqn:E; [congruence|].
      exists [], [], [c], [], s'. repeat split.
      * discriminate.
      * repeat constructor. apply white_space_of_line_terminator.
        exact (trim_head _ _ _ E).
      * now apply match_cat_all_nil.
  - intros H. apply S in H.
    destruct H as (before & F & mid & T & after & E & HF & _ & _ & HT).
    split.
    + intros fs -> Hne. destruct fs as [|f0 fs]; [congruence|].
      destruct HF as (f & Hin & Hci). exists f. split; [exact Hin|].
      now exists before, F, (mid ++ T ++ after).
    + intros es -> Hne.
      destruct (@match_type_terms_needs es T Hes Hne HT)
        as (e & T1 & T2 & Hin & -> & Hci).
      exists e. split; [exact Hin|].
      exists (before ++ F ++ mid), T1, (T2 ++ after). split; [|exact Hci].
      rewrite E, <- !app_assoc. reflexivity.
  - intros before F mid E after Hpath HF Hne Hall HE. apply S.
    exists before, F, mid, E, after. repeat split; auto.
    now apply match_type_terms_last.
Qed.

(** The theorem at one package: folders [src], extensions [js], relative
    path [./pkg]; the staged file [src/app/index.JS] is accepted. *)
Lemma buildFilePattern_accepts_witness :
  exists rx,
    Utils.buildFilePattern
      (restrictions_of (Some [str "src"]) (Some [str "js"])) (str "./pkg")
    = ret rx
    /\ Utils.accepts rx (str "src/app/index.JS") = true.
Proof.
  destruct (buildFilePattern_accepts
              (Some [str "src"]) (Some [str "js"]) (str "./pkg"))
    as (rx & E & H).
  - reflexivity.
  - repeat constructor.
  - repeat constructor.
  - exists rx. split; [exact E|].
    destruct (H (str "src/app/index.JS")) as (_ & _ & Hsuf).
    apply (Hsuf [] (str "src/") (str "app/index") (str ".JS") []).
    + reflexivity.
    + exists (str "src"). split; [now left | reflexivity].
    + discriminate.
    + repeat constructor.
    + reflexivity.
Defined.

(** C3 as stated fails: the match is not anchored.  With the one extension
    [js], [index.json] is accepted although it does not end with [.js]; with
    the one folder [src], [lib/src/a.md] is accepted although it does not
    start with [src/]. *)
Lemma file_pattern_not_anchored :
  ~ (file_accepted (restrictions_of None (Some [str "js"]))
                   (str "./pkg") (str "index.json") = Some true
     <-> exists e, In e [str "js"]
                   /\ ends_with (str "." ++ e) (str "index.json") = true)
  /\ ~ (file_accepted (restrictions_of (Some [str "src"]) None)
                      (str "./pkg") (str "lib/src/a.md") = Some true
        <-> exists f, In f [str "src"]
                      /\ starts_with (folder_prefix f) (str "lib/src/a.md")
                         = true).
Proof.
  split; intros [H _]; destruct (H eq_refl) as (x & [<-|[]] & E);
    discriminate E.
Qed.

(** C9.  [buildFilePattern] returns a pattern whenever the relative path,
    the folders and the extensions hold no pattern metacharacter but the
    dot; an unbalanced parenthesis in the relative path or in a folder makes
    it throw a SyntaxError; and with a dot or a plus in a folder the
    predicate differs from literal matching: folder [a.b] accepts [axb/f],
    which does not contain [a.b/], and folder [a+] rejects [a+/f], which
    starts with [a+/]. *)
Theorem buildFilePattern_metacharacters :
  (forall folders fileTypes relative,
      atomic_string relative -> all_atomic folders -> all_atomic fileTypes ->
      exists rx,
        Utils.buildFilePattern (restrictions_of folders fileTypes) relative
        = ret rx)
  /\ Utils.buildFilePattern (restrictions_of None None) (str "./pkg(")
     = throw SyntaxError
  /\ Utils.buildFilePattern (restrictions_of (Some [str "a("]) None)
                            (str "./pkg")
     = throw SyntaxError
  /\ (file_accepted (restrictions_of (Some [str "a.b"]) None)
                    (str "./pkg") (str "axb/f") = Some true
      /\ includes (str "a.b/") (str "axb/f") = false)
  /\ (file_accepted (restrictions_of (Some [str "a+"]) None)
                    (str "./pkg") (str "a+/f") = Some false
      /\ starts_with (str "a+/") (str "a+/f") = true).
Proof.
  split; [|repeat split; reflexivity].
  intros folders fileTypes relative Hrel Hfs Hes.
  destruct (@parse_pattern_source folders fileTypes relative Hrel Hfs Hes)
    as (prefix & _ & Hp).
  eexists. rewrite buildFilePattern_source. unfold new_RegExp, RegExp.make.
  rewrite Hp. reflexivity.
Qed.

(** ** Package discovery and unreadable directories *)

Lemma bind_throw : forall A B (e : exn) (f : A -> M B),
  bind (throw e) f = throw e.
Proof. reflexivity. Qed.

(** [recursive] returns a list or throws the error of [readdirSync]. *)
Lemma recursive_cases : forall exclude pattern entries dir lst,
  (exists l, Utils.recursive exclude pattern dir entries lst = ret l)
  \/ Utils.recursive exclude pattern dir entries lst = throw eacces.
Proof.
  intros exclude pattern entries.
  induction entries using fsentries_mut with
    (P := fun node => forall readable es, node = Dir readable es ->
            forall dir lst,
              (exists l, Utils.recursive exclude pattern dir es lst = ret l)
              \/ Utils.recursive exclude pattern dir es lst = throw eacces).
  - discriminate.
  - intros readable' es E. injection E as -> ->. exact IHentries.
  - intros dir lst. left. now exists lst.
  - intros dir lst. cbn [Utils.recursive].
    assert (Hnode : forall m : M (list jsstring),
               (exists l, m = ret l) \/ m = throw eacces ->
               (exists l, bind m (fun lst' =>
                            Utils.recursive exclude pattern dir entries lst')
                          = ret l)
               \/ bind m (fun lst' =>
                            Utils.recursive exclude pattern dir entries lst')
                  = throw eacces).
    { intros m [[l ->]| ->].
      - rewrite bind_ret. apply IHentries0.
      - right. reflexivity. }
    apply Hnode. destruct node as [|readable es].
    + destruct (RegExp.test pattern name0); left; eexists; reflexivity.
    + destruct (RegExp.test exclude name0); cbn [negb].
      * destruct (RegExp.test pattern name0); left; eexists; reflexivity.
      * destruct readable; [|now right].
        now apply (IHentries true es eq_refl).
Qed.

Lemma recursive_blocked : forall exclude pattern entries,
  Blocked exclude entries ->
  forall dir lst,
    Utils.recursive exclude pattern dir entries lst = throw eacces.
Proof.
  intros exclude pattern entries H.
  induction H as [sub es rest Hex|sub es rest Hex Hb IH|sub node rest Hb IH];
    intros dir lst; cbn [Utils.recursive].
  - rewrite Hex. reflexivity.
  - rewrite Hex. cbn [negb]. rewrite IH. reflexivity.
  - match goal with
    | |- bind ?m _ = _ =>
        assert (Hm : (exists l, m = ret l) \/ m = throw eacces)
    end.
    { destruct node as [|readable es].
      - destruct (RegExp.test pattern sub); left; eexists; reflexivity.
      - destruct (RegExp.test exclude sub); cbn [negb].
        + destruct (RegExp.test pattern sub); left; eexists; reflexivity.
        + destruct readable; [|now right]. apply recursive_cases. }
    destruct Hm as [[l ->]| ->].
    + rewrite bind_ret. apply IH.
    + reflexivity.
Qed.

Lemma recursive_not_blocked : forall exclude pattern entries,
  ~ Blocked exclude entries ->
  forall dir lst,
    exists l, Utils.recursive exclude pattern dir entries lst = ret l.
Proof.
  intros exclude pattern entries.
  induction entries using fsentries_mut with
    (P := fun node => forall readable es, node = Dir readable es ->
            ~ Blocked exclude es ->
            forall dir lst,
              exists l, Utils.recursive exclude pattern dir es lst = ret l).
  - discriminate.
  - intros readable' es E. injection E as -> ->. exact IHentries.
  - intros _ dir lst. now exists lst.
  - intros Hnb dir lst. cbn [Utils.recursive].
    assert (Hrest : ~ Blocked exclude entries).
    { intros Hb. apply Hnb. now apply Blocked_later. }
    assert (Hm : exists l,
               match node with
               | File =>
                   if RegExp.test pattern name0 then ret (lst ++ [dir])
                   else ret lst
               | Dir readable sub_entries =>
                   if negb (RegExp.test exclude name0) then
                     if readable then
                       Utils.recursive exclude pattern
                         (dir ++ name0 ++ str "/") sub_entries lst
                     else throw (SystemError (str "EACCES"))
                   else if RegExp.test pattern name0 then ret (lst ++ [dir])
                        else ret lst
               end = ret l).
    { destruct node as [|readable es].
      - destruct (RegExp.test pattern name0); eexists; reflexivity.
      - destruct (RegExp.test exclude name0) eqn:Hex; cbn [negb].
        + destruct (RegExp.test pattern name0); eexists; reflexivity.
        + destruct readable.
          * apply (IHentries true es eq_refl).
            intros Hb. apply Hnb. now apply Blocked_below.
          * exfalso. apply Hnb. now apply Blocked_here. }
    destruct Hm as [l ->]. rewrite bind_ret. now apply IHentries0.
Qed.

Lemma scandir_recursive : forall dir entries,
  Utils.scandir dir (Dir true entries)
    [str "package.json"] [str "node_modules"]
  = Utils.recursive discovery_exclude discovery_pattern
      (if ends_with_slash dir then dir else dir ++ str "/") entries [].
Proof.
  intros dir entries. unfold Utils.scandir.
  change (new_RegExp (str "(" ++ join (str "|") [str "package.json"]
                        ++ str ")") true)
    with (ret discovery_pattern).
  change (new_RegExp (str "(" ++ join (str "|") [str "node_modules"]
                        ++ str ")") true)
    with (ret discovery_exclude).
  now rewrite !bind_ret.
Qed.

(** C8 as stated fails: with the directory [locked] unreadable, discovery
    does not return what it returns when [locked] is empty. *)
Lemma unreadable_directory_is_not_empty :
  Utils.scandir (str "/repo") locked_tree
    [str "package.json"] [str "node_modules"]
  <> Utils.scandir (str "/repo") (as_empty locked_tree)
       [str "package.json"] [str "node_modules"].
Proof. vm_compute. discriminate. Qed.

(** C8 (amended).  Package discovery does not survive a directory it cannot
    read.  When the walk from the root reaches one (a directory whose name
    does not match the exclusion pattern, at any depth), [scandir] throws the
    error of [readdirSync] and returns no package at all; it returns a list
    exactly when every directory it reaches can be listed. *)
Theorem scandir_unreadable_directory : forall dir entries,
  (Blocked discovery_exclude entries ->
   Utils.scandir dir (Dir true entries)
     [str "package.json"] [str "node_modules"]
   = throw eacces)
  /\ (~ Blocked discovery_exclude entries ->
      exists l,
        Utils.scandir dir (Dir true entries)
          [str "package.json"] [str "node_modules"]
        = ret l).
Proof.
  intros dir entries. rewrite scandir_recursive. split.
  - intros H. now apply recursive_blocked.
  - intros H. now apply recursive_not_blocked.
Qed.

Lemma scandir_unreadable_directory_witness :
  Utils.scandir (str "/repo")
    (Dir true
       (ECons (str "package.json") File
          (ECons (str "locked") (Dir false ENil)
             (ECons (str "B")
                (Dir true (ECons (str "package.json") File ENil)) ENil))))
    [str "package.json"] [str "node_modules"]
  = throw eacces.
Proof.
  apply scandir_unreadable_directory.
  apply Blocked_later. apply Blocked_here. reflexivity.
Defined.

(** ** Task failures (C1) *)

(** In [src/npm-git-hooks.js] the exit code of a command is never read. *)
Lemma runTask_ignores_exit_code : forall w task pkg code,
  shell_exec w (absolute pkg) task = Exited code ->
  NpmGitHooks.runTask w task pkg = emit (EExec (absolute pkg) task).
Proof.
  intros w task pkg code H. unfold NpmGitHooks.runTask. now rewrite H.
Qed.

(** C1, the failing input.  [A] lists the task [exit 1], which ends with
    exit code 1, and [B] the task [echo B].  The run of
    [src/npm-git-hooks.js] goes on to run the task of [B] and ends the
    process with exit code 0. *)
Theorem failing_task_does_not_stop_the_run :
  NpmGitHooks.run
    (world (Some (manifest1 true [] ["exit 1"%string]))
           (Some (manifest1 true [] ["echo B"%string])))
    Handlers.errorCallback Handlers.successCallback
    (str "pre-push") (Flag true)
  = ([EExec (str "/repo/A") (str "exit 1");
      EExec (str "/repo/B") (str "echo B");
      ESuccess],
     Exits 0).
Proof. vm_compute. reflexivity. Qed.

(** [src/main.js] does read the exit code: the promise of a task that ends
    with another code than 0 is rejected with a [RunTaskError], which
    [errorCallback] turns into exit code 1. *)
Lemma main_runTask_rejects : forall w task pkg code,
  shell_exec w (absolute pkg) task = Exited code -> code <> 0%Z ->
  Main.runTask w task pkg
  = ([EExec (absolute pkg) task],
     Ret (RejectedWith (RunTaskError task (name pkg))))
  /\ HandlersColor.errorCallback (RunTaskError task (name pkg))
     = ([EFatal (RunTaskError task (name pkg))], Exits 1).
Proof.
  intros w task pkg code H Hc. split; [|reflexivity].
  unfold Main.runTask. rewrite H.
  apply Z.eqb_neq in Hc. rewrite Hc. reflexivity.
Qed.

(** ** Soft outcomes (C2) *)

(** No case label of the [switch] in [lib/handlers.js] ever equals the
    error: every error takes the default branch. *)
Lemma switch_case_never_taken : forall e, Handlers.case_taken e = false.
Proof. intros e. reflexivity. Qed.

Lemma errorCallback_always_exits : forall e,
  Handlers.errorCallback [e] = ([EFatal e], Exits 1).
Proof. intros e. reflexivity. Qed.

(** C2, the failing input.  [A] has no [npm-git-hooks] section and [B]
    lists the task [echo B].  With the handlers of [lib/handlers.js] the
    [NoConfigError] of [A] ends the process with exit code 1 and [B] is never
    reached; and a push with no commit ends the process with exit code 1
    inside [getCommitedFiles]. *)
Theorem soft_outcome_ends_the_run :
  NpmGitHooks.run
    (world (Some manifest_plain) (Some (manifest1 true [] ["echo B"%string])))
    Handlers.errorCallback Handlers.successCallback
    (str "pre-push") (Flag true)
  = ([EFatal (NoConfigError (Some (JStr (str "pkg"))))], Exits 1)
  /\ Git.getCommitedFiles (world None None)
     = ([EFatal NoCommitsError], Exits 1).
Proof. split; vm_compute; reflexivity. Qed.

(** With the handlers that test the classes with [if], the same run prints
    the error of [A], runs the task of [B] and returns. *)
Lemma soft_outcome_with_if_handlers :
  NpmGitHooks.run
    (world (Some manifest_plain) (Some (manifest1 true [] ["echo B"%string])))
    HandlersIf.errorCallback HandlersIf.successCallback
    (str "pre-push") (Flag true)
  = ([EInfo (NoConfigError (Some (JStr (str "pkg"))));
      EExec (str "/repo/B") (str "echo B")],
     Ret tt).
Proof. vm_compute. reflexivity. Qed.

(** ** Skipping a package (C4, C5) *)

(** C4, the failing input.  The user [jenkins] is in the skip-users of [A];
    [B] lists the task [echo B].  In [src/npm-git-hooks.js] the [return] of
    the skip branch leaves [run]: [B] is never processed, whatever the
    handlers are. *)
Theorem skipped_user_ends_the_run : forall errorCallback successCallback,
  NpmGitHooks.run
    (world (Some (manifest1 true ["jenkins"%string] ["echo A"%string]))
           (Some (manifest1 true [] ["echo B"%string])))
    errorCallback successCallback (str "pre-push") (Flag true)
  = ([ESkipUser (str "A")], Ret tt).
Proof. intros. vm_compute. reflexivity. Qed.

(** C5, the failing input.  [A] is disabled for [pre-push] and lists the
    task [npm test].  The oldest dispatcher prints that the hooks of [A] are
    disabled and runs the task all the same. *)
Theorem disabled_package_runs_its_tasks :
  Dispatch0.run
    (world (Some (manifest0 false [] ["npm test"%string]))
           (Some (manifest0 true [] ["echo B"%string])))
    (str "pre-push") (Flag true)
  = ([ESkipDisabled (str "A");
      EExec (str "/repo/A") (str "npm test");
      EExec (str "/repo/B") (str "echo B")],
     Ret Fulfilled).
Proof. vm_compute. reflexivity. Qed.

(** In [src/main.js] a skipped package is dropped by [filter], which goes
    on with the packages after it: a user in skip-users is skipped whatever
    [enabled] is, and a disabled package is skipped too. *)
Lemma bind_ret_r : forall A (m : M A), bind m (fun x => ret x) = m.
Proof.
  intros A [t [a|e|c|]]; unfold bind, ret; try reflexivity.
  now rewrite app_nil_r.
Qed.

Lemma bind_assoc : forall A B C (m : M A) (f : A -> M B) (g : B -> M C),
  bind (bind m f) g = bind m (fun x => bind (f x) g).
Proof.
  intros A B C [t [a|e|c|]] f g; unfold bind; try reflexivity.
  destruct (f a) as [t1 [b|e|c|]]; try reflexivity.
  destruct (g b) as [t2 o]. now rewrite app_assoc.
Qed.

Lemma main_skips_listed_user : forall w config fields items rest,
  Main.section config = JObj fields ->
  lookup (str "skip-users") fields = Some (JArr items) ->
  existsb (fun j => match j with
                    | JStr s => str_eqb s (git_username w)
                    | _ => false
                    end) items = true ->
  Main.filterM (Main.skipPackage w) (config :: rest)
  = bind (emit (ESkipUser (name (Main.pkg config))))
         (fun _ => Main.filterM (Main.skipPackage w) rest).
Proof.
  intros w config fields items rest Hs Hl Hf.
  cbn [Main.filterM]. unfold Main.skipPackage at 1. unfold Main.get.
  change (str_eqb (str "skip-users") (str "enabled")) with false.
  change (str_eqb (str "skip-users") (str "pkg")) with false.
  cbn iota. rewrite Hs. cbn [prop]. rewrite Hl, bind_ret.
  unfold indexOf_found, Main.user. rewrite Hf, bind_ret.
  rewrite bind_assoc, bind_ret. cbv beta iota.
  now rewrite bind_ret_r.
Qed.

Lemma main_skips_disabled : forall w config fields items rest,
  Main.section config = JObj fields ->
  lookup (str "skip-users") fields = Some (JArr items) ->
  existsb (fun j => match j with
                    | JStr s => str_eqb s (git_username w)
                    | _ => false
                    end) items = false ->
  truthy (Some (Main.enabled config)) = false ->
  Main.filterM (Main.skipPackage w) (config :: rest)
  = bind (emit (ESkipDisabled (name (Main.pkg config))))
         (fun _ => Main.filterM (Main.skipPackage w) rest).
Proof.
  intros w config fields items rest Hs Hl Hf He.
  cbn [Main.filterM]. unfold Main.skipPackage at 1. unfold Main.get.
  change (str_eqb (str "skip-users") (str "enabled")) with false.
  change (str_eqb (str "skip-users") (str "pkg")) with false.
  cbn iota. rewrite Hs. cbn [prop]. rewrite Hl, bind_ret.
  unfold indexOf_found, Main.user. rewrite Hf, bind_ret, He. cbn [negb].
  rewrite bind_assoc, bind_ret. cbv beta iota.
  now rewrite bind_ret_r.
Qed.

(** ** The commit-message check (C6) *)

(** The tasks of a package do not look at the world beyond its shell. *)
Lemma each_same_shell : forall w w' tasks pkg,
  shell_exec w' = shell_exec w ->
  Main.each w' tasks pkg = Main.each w tasks pkg.
Proof.
  intros w w' tasks pkg H.
  induction tasks as [|task tasks IH]; [reflexivity|].
  cbn [Main.each]. unfold Main.runTask. rewrite H, IH. reflexivity.
Qed.

(** C6 as stated fails for [src/main.js]: the spec's scenario, a package
    with the pattern [^JIRA-\d+] and the pre-commit task [npm test], after a
    commit with the message [fix bug].  The check on that message would
    reject, but the pre-commit run never makes it: the package is selected,
    its task is started, and the run ends well. *)
Lemma commit_msg_does_not_gate_the_tasks :
  let w := world (Some manifest_commit_msg) None in
  let config :=
    {| Main.section :=
         JObj [(str "skip-users", JArr []);
               (str "commit-msg", JStr (str "^JIRA-\d+"));
               (str "pre-commit", strings ["npm test"%string])];
       Main.pkg := package_A; Main.enabled := JBool true |} in
  commit_message w = str "fix bug"
  /\ Main.checkCommitMsg w fragment config
     = ret (RejectedWith (RunTaskError (str "commit-msg") (str "A")))
  /\ Main.selected w (str "pre-commit") [package_A] = ret [config]
  /\ Main.settle w fragment config (str "pre-commit")
     = ([EExec (str "/repo/A") (str "npm test"); ESuccess], Ret tt)
  /\ executed (trace (Main.settle w fragment config (str "pre-commit")))
     <> [].
Proof.
  repeat split; try (vm_compute; reflexivity).
  vm_compute. discriminate.
Qed.

(** C6 (amended).  In [src/main.js] the commit-message pattern is read only
    in a run for the operation [commit-msg], where the whole work of a
    package is [checkCommitMsg].  There, with a pattern configured (a
    string that is not empty): when the pattern is a regular expression, a
    last commit message that it does not match rejects the promise with a
    [RunTaskError], and the error handler ends the process with exit code
    1; a message that it matches fulfils the promise, and the run reports
    success; when the pattern is no regular expression, [new RegExp] throws
    a SyntaxError.  A package with no pattern, or with the empty one, is
    fulfilled.  Such a run starts no command of the package, whatever the
    message.  In a run for any other operation neither the pattern nor the
    message is read: with a task list that is not empty, what the package
    does is to run its tasks, the same under every message and every
    engine. *)
Theorem commit_msg_check : forall w regexp fields pkg enabled,
  let config := {| Main.section := JObj fields; Main.pkg := pkg;
                   Main.enabled := enabled |} in
  (forall source,
      lookup (str "commit-msg") fields = Some (JStr source) ->
      source <> [] ->
      (forall test,
          regexp source = RegExp.Compiled test ->
          (test (commit_message w) = false ->
           Main.runTasks w regexp config (str "commit-msg")
           = ret (RejectedWith (RunTaskError (str "commit-msg") (name pkg)))
           /\ Main.settle w regexp config (str "commit-msg")
              = ([EFatal (RunTaskError (str "commit-msg") (name pkg))],
                 Exits 1))
          /\ (test (commit_message w) = true ->
              Main.runTasks w regexp config (str "commit-msg") = ret Fulfilled
              /\ Main.settle w regexp config (str "commit-msg")
                 = ([ESuccess], Ret tt)))
      /\ (regexp source = RegExp.SyntaxErr ->
          Main.runTasks w regexp config (str "commit-msg")
          = throw SyntaxError))
  /\ (lookup (str "commit-msg") fields = None
      \/ lookup (str "commit-msg") fields = Some (JStr []) ->
      Main.runTasks w regexp config (str "commit-msg") = ret Fulfilled)
  /\ executed (trace (Main.settle w regexp config (str "commit-msg"))) = []
  /\ (forall operation items tasks,
         operation <> str "commit-msg" ->
         Main.get config operation = ret (Some (JArr items)) ->
         strings_of items = Some tasks ->
         tasks <> [] ->
         forall w' regexp',
           shell_exec w' = shell_exec w ->
           Main.runTasks w' regexp' config operation
           = Main.each w tasks pkg).
Proof.
  intros w regexp fields pkg enabled config.
  assert (Hget : Main.get config (str "commit-msg")
                 = ret (lookup (str "commit-msg") fields)) by reflexivity.
  assert (Hrun : Main.runTasks w regexp config (str "commit-msg")
                 = Main.checkCommitMsg w regexp config).
  { unfold Main.runTasks. rewrite Hget, bind_ret. reflexivity. }
  split; [|split; [|split]].
  - intros source Hl Hne.
    assert (Hcheck : Main.checkCommitMsg w regexp config
                     = bind (construct regexp source)
                         (fun pattern =>
                            if pattern (commit_message w) then ret Fulfilled
                            else ret (RejectedWith
                                        (RunTaskError (str "commit-msg")
                                           (name pkg))))).
    { unfold Main.checkCommitMsg. rewrite Hget, Hl, bind_ret.
      destruct source as [|c source]; [congruence|].
      cbn [truthy]. unfold Git.getCommitMessage. now rewrite bind_ret. }
    unfold construct in Hcheck. split.
    + intros test Ht. rewrite Ht, bind_ret in Hcheck.
      split; intros Hm; rewrite Hm in Hcheck; unfold Main.settle;
        rewrite Hrun, Hcheck, bind_ret; split; reflexivity.
    + intros Hs. rewrite Hs in Hcheck. now rewrite Hrun, Hcheck.
  - intros [Hl|Hl]; rewrite Hrun; unfold Main.checkCommitMsg;
      rewrite Hget, Hl, bind_ret; reflexivity.
  - unfold Main.settle. rewrite Hrun. unfold Main.checkCommitMsg.
    rewrite Hget, bind_ret.
    destruct (lookup (str "commit-msg") fields) as [[|b|n|s|l|f]|];
      cbn [truthy]; try reflexivity.
    + destruct b; reflexivity.
    + destruct (Z.eqb n 0); reflexivity.
    + destruct s as [|c s]; [reflexivity|].
      unfold Git.getCommitMessage, construct. rewrite bind_ret.
      destruct (regexp (c :: s)) as [test| |]; [|reflexivity|reflexivity].
      rewrite bind_ret. destruct (test (commit_message w)); reflexivity.
  - intros operation items tasks Hop Hg Hs Hne w' regexp' Hsh.
    unfold Main.runTasks. rewrite Hg, bind_ret.
    destruct (str_eqb operation (str "commit-msg")) eqn:E.
    { apply str_eqb_eq in E. contradiction. }
    destruct items as [|item items].
    { cbn in Hs. injection Hs as <-. congruence. }
    cbn [truthy has_length andb]. rewrite Hs.
    apply each_same_shell, Hsh.
Qed.

(** The check of the spec's scenario, in a run for [commit-msg]: the
    pattern [^JIRA-\d+] and the last commit message [fix bug]. *)
Lemma commit_msg_check_witness :
  Main.settle (world None None) fragment
    {| Main.section := JObj [(str "commit-msg", JStr (str "^JIRA-\d+"));
                             (str "pre-commit", strings ["npm test"%string])];
       Main.pkg := package_A; Main.enabled := JBool true |}
    (str "commit-msg")
  = ([EFatal (RunTaskError (str "commit-msg") (str "A"))], Exits 1).
Proof.
  refine (proj2
            (proj1
               (proj1
                  (proj1
                     (commit_msg_check (world None None) fragment
                        [(str "commit-msg", JStr (str "^JIRA-\d+"));
                         (str "pre-commit", strings ["npm test"%string])]
                        package_A (JBool true))
                     (str "^JIRA-\d+") eq_refl _)
                  match fragment (str "^JIRA-\d+") with
                  | RegExp.Compiled test => test
                  | _ => fun _ => true
                  end
                  _)
               _)).
  - discriminate.
  - vm_compute. reflexivity.
  - vm_compute. reflexivity.
Defined.

(** The pattern [^JIRA-\d+] holds the message to its start: a message that
    begins with a ticket passes, one that names the ticket later does not. *)
Lemma commit_msg_anchored :
  let config :=
    {| Main.section := JObj [(str "commit-msg", JStr (str "^JIRA-\d+"))];
       Main.pkg := package_A; Main.enabled := JBool true |} in
  Main.checkCommitMsg (with_message "JIRA-12 fix bug") fragment config
  = ret Fulfilled
  /\ Main.checkCommitMsg (with_message "fix bug JIRA-12") fragment config
     = ret (RejectedWith (RunTaskError (str "commit-msg") (name package_A))).
Proof. split; reflexivity. Qed.

(** ** Resolving the configuration (C7) *)

(** C7 as stated fails for [getPackageConfig] of [src/npm-git-hooks.js]:
    it returns the section as it is, [enabled] stays undefined, and the
    dispatcher skips the package as disabled. *)
Lemma getPackageConfig_sets_no_default :
  ~ (exists config,
        NpmGitHooks.getPackageConfig (Some manifest_no_enabled) = ret config
        /\ prop config (str "enabled") = ret (Some (JBool true)))
  /\ NpmGitHooks.run
       (world (Some manifest_no_enabled) None)
       Handlers.errorCallback Handlers.successCallback
       (str "pre-push") (Flag true)
     = ([ESkipDisabled (str "A")], Ret tt).
Proof.
  split.
  - intros (config & H1 & H2). vm_compute in H1.
    injection H1 as <-. vm_compute in H2. discriminate.
  - vm_compute. reflexivity.
Qed.

(** C7 (amended).  For a manifest whose [npm-git-hooks] section is an
    object, [mapPackageConfig] of [src/main.js] succeeds and the resolved
    config has [enabled = true] when the field is omitted, and the value of
    the field otherwise; [getPackageConfig] of [src/npm-git-hooks.js]
    succeeds and returns the section unchanged, with no default.  For a
    manifest with no such section both throw a [NoConfigError]. *)
Theorem config_resolver : forall w pkg mfields,
  require w (resolve2 (absolute pkg) (str "package.json"))
  = Some (JObj mfields) ->
  (forall fields,
      lookup (str "npm-git-hooks") mfields = Some (JObj fields) ->
      (exists config,
          Main.mapPackageConfig w pkg = ret config
          /\ Main.section config = JObj fields
          /\ Main.pkg config = pkg
          /\ (lookup (str "enabled") fields = None ->
              Main.enabled config = JBool true)
          /\ (forall v, lookup (str "enabled") fields = Some v ->
                        Main.enabled config = v))
      /\ NpmGitHooks.getPackageConfig (Some (JObj mfields))
         = ret (Some (JObj fields)))
  /\ (lookup (str "npm-git-hooks") mfields = None ->
      Main.mapPackageConfig w pkg
      = throw (NoConfigError (Some (JStr (name pkg))))
      /\ NpmGitHooks.getPackageConfig (Some (JObj mfields))
         = throw (NoConfigError (lookup (str "name") mfields))).
Proof.
  intros w pkg mfields Hreq. split.
  - intros fields Hsec. split.
    + exists {| Main.section := JObj fields; Main.pkg := pkg;
                Main.enabled := match lookup (str "enabled") fields with
                                | None => JBool true
                                | Some v => v
                                end |}.
      split; [|split; [|split; [|split]]]; try reflexivity.
      * unfold Main.mapPackageConfig, load. rewrite Hreq, bind_ret.
        cbn [truthy prop]. rewrite Hsec, bind_ret. cbn [truthy].
        reflexivity.
      * cbn [Main.enabled]. intros ->. reflexivity.
      * cbn [Main.enabled]. intros v ->. reflexivity.
    + unfold NpmGitHooks.getPackageConfig. cbn [truthy prop].
      rewrite Hsec, bind_ret. reflexivity.
  - intros Hsec. split.
    + unfold Main.mapPackageConfig, load. rewrite Hreq, bind_ret.
      cbn [truthy prop]. rewrite Hsec, bind_ret. reflexivity.
    + unfold NpmGitHooks.getPackageConfig. cbn [truthy prop].
      rewrite Hsec, bind_ret. cbn [truthy]. rewrite bind_ret. reflexivity.
Qed.

(** The resolver of [src/main.js] on the manifest that omits [enabled]. *)
Lemma config_resolver_witness :
  exists config,
    Main.mapPackageConfig (world (Some manifest_no_enabled) None)
      {| name := str "A"; absolute := str "/repo/A"; relative := str "./A" |}
    = ret config
    /\ Main.enabled config = JBool true.
Proof.
  destruct (config_resolver (world (Some manifest_no_enabled) None)
              {| name := str "A"; absolute := str "/repo/A";
                 relative := str "./A" |} _ eq_refl) as [H _].
  destruct (H _ eq_refl) as [(config & E & _ & _ & Hen & _) _].
  exists config. split; [exact E|]. apply Hen. reflexivity.
Defined.

(** ** The skip rule on a minimal config (C10) *)

(** C10.  The skip rule reads [indexOf] of the skip-users list without a
    guard.  In [src/main.js] a config without [skip-users] makes
    [skipPackage] throw a TypeError; in [src/npm-git-hooks.js] and in the
    oldest dispatcher a config without [restrictions], or whose
    [restrictions] lack [skip-users], makes the loop body throw a TypeError
    before any task is looked at; the one-pass loop then prints it and ends
    the process with exit code 1. *)
Theorem skip_rule_needs_skip_users :
  (forall w fields pkg enabled,
      lookup (str "skip-users") fields = None ->
      Main.skipPackage w {| Main.section := JObj fields; Main.pkg := pkg;
                            Main.enabled := enabled |}
      = throw TypeError)
  /\ (forall w operation fileList pkg mfields fields,
         require w (resolve2 (absolute pkg) (str "package.json"))
         = Some (JObj mfields) ->
         lookup (str "npm-git-hooks") mfields = Some (JObj fields) ->
         lookup (str "restrictions") fields = None
         \/ (exists rfields,
               lookup (str "restrictions") fields = Some (JObj rfields)
               /\ lookup (str "skip-users") rfields = None) ->
         NpmGitHooks.attempt w operation fileList pkg = throw TypeError
         /\ forall rest errors,
              NpmGitHooks.loop w HandlersIf.errorCallback operation fileList
                (pkg :: rest) errors
              = ([EFatal TypeError], Exits 1))
  /\ (forall w operation fileList pkg mfields sfields fields,
         operation <> [] ->
         require w (absolute pkg) = Some (JObj mfields) ->
         lookup (str "npm-git-hooks") mfields = Some (JObj sfields) ->
         lookup operation sfields = Some (JObj fields) ->
         lookup (str "restrictions") fields = None
         \/ (exists rfields,
               lookup (str "restrictions") fields = Some (JObj rfields)
               /\ lookup (str "skip-users") rfields = None) ->
         Dispatch0.attempt w operation fileList pkg = throw TypeError).
Proof.
  split; [|split].
  - intros w fields pkg enabled Hl. unfold Main.skipPackage, Main.get.
    change (str_eqb (str "skip-users") (str "enabled")) with false.
    change (str_eqb (str "skip-users") (str "pkg")) with false.
    cbn [Main.section prop]. now rewrite Hl, bind_ret.
  - intros w operation fileList pkg mfields fields Hreq Hsec Hr.
    assert (E : NpmGitHooks.attempt w operation fileList pkg
                = throw TypeError).
    { unfold NpmGitHooks.attempt, load. rewrite Hreq, bind_ret.
      unfold NpmGitHooks.getPackageConfig. cbn [truthy prop].
      rewrite Hsec, !bind_ret. cbn [truthy].
      unfold Git.getUsername. rewrite !bind_ret.
      change (prop (Some (JObj fields)) (str "restrictions"))
        with (ret (A:=jsval) (lookup (str "restrictions") fields)).
      destruct Hr as [Hr|(rfields & Hr & Hs)]; rewrite Hr, bind_ret.
      - reflexivity.
      - cbn [prop]. now rewrite Hs, bind_ret. }
    split; [exact E|]. intros rest errors.
    cbn [NpmGitHooks.loop]. rewrite E. reflexivity.
  - intros w operation fileList pkg mfields sfields fields
           Hop Hreq Hsec Hhook Hr.
    unfold Dispatch0.attempt, load. rewrite Hreq, bind_ret.
    unfold Dispatch0.getPackageConfig. cbn [truthy prop].
    rewrite Hsec, !bind_ret. cbn [truthy].
    destruct operation as [|c op]; [congruence|].
    cbn [prop]. rewrite Hhook, !bind_ret. cbn [truthy]. rewrite ?bind_ret.
    unfold Git.getUsername. rewrite !bind_ret.
    change (prop (Some (JObj fields)) (str "restrictions"))
      with (ret (A:=jsval) (lookup (str "restrictions") fields)).
    destruct Hr as [Hr|(rfields & Hr & Hs)]; rewrite Hr, bind_ret.
    + reflexivity.
    + cbn [prop]. now rewrite Hs, bind_ret.
Qed.

(** The skip rule of [src/main.js] on a config that only lists tasks. *)
Lemma skip_rule_needs_skip_users_witness :
  Main.skipPackage (world None None)
    {| Main.section := JObj [(str "pre-commit", strings ["npm test"%string])];
       Main.pkg := {| name := str "A"; absolute := str "/repo/A";
                      relative := str "./A" |};
       Main.enabled := JBool true |}
  = throw TypeError.
Proof.
  apply (proj1 skip_rule_needs_skip_users). reflexivity.
Defined.

(** ** Further properties of the dispatchers *)

Lemma main_skips_listed_user_witness :
  Main.filterM (Main.skipPackage (world None None))
    [config_A [(str "skip-users", strings ["jenkins"%string])] (JBool false)]
  = ([ESkipUser (str "A")], Ret []).
Proof.
  rewrite (main_skips_listed_user (world None None)
             (config_A [(str "skip-users", strings ["jenkins"%string])]
                       (JBool false))
             [(str "skip-users", strings ["jenkins"%string])]
             [JStr (str "jenkins")] [] eq_refl eq_refl eq_refl).
  reflexivity.
Defined.

Lemma main_skips_disabled_witness :
  Main.filterM (Main.skipPackage (world None None))
    [config_A [(str "skip-users", strings [])] (JBool false)]
  = ([ESkipDisabled (str "A")], Ret []).
Proof.
  rewrite (main_skips_disabled (world None None)
             (config_A [(str "skip-users", strings [])] (JBool false))
             [(str "skip-users", strings [])] [] []
             eq_refl eq_refl eq_refl eq_refl).
  reflexivity.
Defined.

Lemma runTask_ignores_exit_code_witness :
  NpmGitHooks.runTask (world None None) (str "exit 1")
    package_A
  = emit (EExec (str "/repo/A") (str "exit 1")).
Proof.
  apply (runTask_ignores_exit_code (world None None) (str "exit 1")
           package_A 1%Z).
  reflexivity.
Defined.

(** The tasks of one package in [src/main.js] run in the order listed, and
    none runs after the first that ends with a non-zero exit code. *)
Lemma each_stops_at_first_failure : forall w pkg before task rest code,
  Forall (fun t => shell_exec w (absolute pkg) t = Exited 0) before ->
  shell_exec w (absolute pkg) task = Exited code -> code <> 0%Z ->
  Main.each w (before ++ task :: rest) pkg
  = (map (EExec (absolute pkg)) (before ++ [task]),
     Ret (RejectedWith (RunTaskError task (name pkg)))).
Proof.
  intros w pkg before task rest code Hok Hfail Hcode.
  induction Hok as [|t before Ht _ IH]; cbn [app Main.each map].
  - unfold Main.runTask. rewrite Hfail.
    apply Z.eqb_neq in Hcode. rewrite Hcode. reflexivity.
  - unfold Main.runTask at 1. rewrite Ht. cbn [Z.eqb].
    rewrite IH. reflexivity.
Qed.

Lemma each_stops_at_first_failure_witness :
  Main.each (world None None)
    [str "npm test"; str "exit 1"; str "npm run build"]
    package_A
  = ([EExec (str "/repo/A") (str "npm test");
      EExec (str "/repo/A") (str "exit 1")],
     Ret (RejectedWith (RunTaskError (str "exit 1") (str "A")))).
Proof.
  apply (each_stops_at_first_failure (world None None)
           package_A
           [str "npm test"] (str "exit 1") [str "npm run build"] 1%Z).
  - repeat constructor.
  - reflexivity.
  - discriminate.
Defined.

(** When all the tasks of a package end with exit code 0, all of them run,
    in the order listed, and the promise is fulfilled. *)
Lemma each_runs_all : forall w pkg tasks,
  Forall (fun t => shell_exec w (absolute pkg) t = Exited 0) tasks ->
  Main.each w tasks pkg = (map (EExec (absolute pkg)) tasks, Ret Fulfilled).
Proof.
  intros w pkg tasks Hok.
  induction Hok as [|t tasks Ht _ IH]; cbn [Main.each map].
  - reflexivity.
  - unfold Main.runTask at 1. rewrite Ht. cbn [Z.eqb].
    rewrite IH. reflexivity.
Qed.


Lemma each_runs_all_witness :
  Main.each (world None None) [str "npm test"; str "npm run build"] package_A
  = ([EExec (str "/repo/A") (str "npm test");
      EExec (str "/repo/A") (str "npm run build")],
     Ret Fulfilled).
Proof.
  apply (each_runs_all (world None None) package_A
           [str "npm test"; str "npm run build"]).
  repeat constructor.
Defined.

Lemma main_runTask_rejects_witness :
  Main.runTask (world None None) (str "exit 1") package_A
  = ([EExec (str "/repo/A") (str "exit 1")],
     Ret (RejectedWith (RunTaskError (str "exit 1") (str "A")))).
Proof.
  apply (main_runTask_rejects (world None None) (str "exit 1") package_A 1%Z).
  - reflexivity.
  - discriminate.
Defined.

(** The separator that [join] puts between the extensions asks for white
    space and a vertical bar after every extension but the last: with the
    extensions [js] and [html], [a.js] is rejected, a line of
    [git diff --stat] for it is accepted, and [a.html] is accepted. *)
Lemma only_the_last_extension_matches_bare :
  file_accepted (restrictions_of None (Some [str "js"; str "html"]))
                (str "./pkg") (str "a.js") = Some false
  /\ file_accepted (restrictions_of None (Some [str "js"; str "html"]))
                   (str "./pkg") (str " a.js | 2 +-") = Some true
  /\ file_accepted (restrictions_of None (Some [str "js"; str "html"]))
                   (str "./pkg") (str "a.html") = Some true.
Proof. repeat split; vm_compute; reflexivity. Qed.

(** ** The handlers on a list of errors *)

(** [errorCallback] of [lib/handlers.js] (second generation) never gets
    past the first error of the list: whatever its class, the error is
    printed as fatal and the process ends with exit code 1.  Only the empty
    list reaches [successCallback], which ends the process with exit
    code 0. *)
Lemma switch_handlers_exit_on_first_error :
  (forall e rest, Handlers.errorCallback (e :: rest) = ([EFatal e], Exits 1))
  /\ Handlers.errorCallback [] = ([ESuccess], Exits 0).
Proof. split; [intros e rest|]; reflexivity. Qed.

(** [errorCallback] of the unnamed handlers file prints the errors in
    order; it returns when all of them are of the four classes it lets
    pass, and ends the process with exit code 1 at the first that is not,
    without looking at the errors after it. *)
Lemma if_handlers_on_a_list : forall before,
  Forall (fun e => is_soft e = true) before ->
  HandlersIf.errorCallback before = (map EInfo before, Ret tt)
  /\ forall e rest,
       is_soft e = false ->
       HandlersIf.errorCallback (before ++ e :: rest)
       = (map EInfo before ++ [EFatal e], Exits 1).
Proof.
  intros before H. unfold HandlersIf.errorCallback.
  induction H as [|x before Hx _ [IH1 IH2]].
  - split; [reflexivity|]. intros e rest He. cbn [app forEach map].
    unfold is_soft in He. rewrite He. reflexivity.
  - unfold is_soft in Hx. split.
    + cbn [forEach map]. rewrite Hx, IH1. reflexivity.
    + intros e rest He. cbn [app forEach map]. rewrite Hx, (IH2 e rest He).
      reflexivity.
Qed.

Lemma if_handlers_on_a_list_witness :
  HandlersIf.errorCallback
    [NoFileError (str "A"); TypeError; NoTaskError (str "B")]
  = ([EInfo (NoFileError (str "A")); EFatal TypeError], Exits 1).
Proof.
  apply (proj2 (if_handlers_on_a_list [NoFileError (str "A")]
                  ltac:(repeat constructor))
           TypeError [NoTaskError (str "B")]).
  reflexivity.
Defined.

(** ** The tasks of one package in the synchronous dispatchers *)

Lemma forEach_runTask_all : forall w pkg l,
  Forall (fun t => shell_exec w (absolute pkg) t <> ExecThrew) l ->
  forEach l (fun task => NpmGitHooks.runTask w task pkg)
  = (map (EExec (absolute pkg)) l, Ret tt).
Proof.
  intros w pkg l H. induction H as [|t l Ht _ IH]; [reflexivity|].
  cbn [forEach map]. rewrite IH. unfold NpmGitHooks.runTask.
  destruct (shell_exec w (absolute pkg) t); [reflexivity | congruence].
Qed.

Lemma forEach_runTask_throws : forall w pkg before task rest,
  Forall (fun t => shell_exec w (absolute pkg) t <> ExecThrew) before ->
  shell_exec w (absolute pkg) task = ExecThrew ->
  forEach (before ++ task :: rest) (fun task => NpmGitHooks.runTask w task pkg)
  = (map (EExec (absolute pkg)) before,
     Throws (RunTaskError task (name pkg))).
Proof.
  intros w pkg before task rest H Ht.
  induction H as [|t l Hok _ IH]; cbn [app forEach map].
  - unfold NpmGitHooks.runTask. now rewrite Ht.
  - rewrite IH. unfold NpmGitHooks.runTask at 1.
    destruct (shell_exec w (absolute pkg) t); [reflexivity | congruence].
Qed.

Lemma strings_of_nonempty : forall items l,
  strings_of items = Some l -> l <> [] -> has_length (Some (JArr items)) = true.
Proof.
  intros [|j items] l H Hl; [|reflexivity].
  cbn in H. injection H as <-. congruence.
Qed.

(** In [src/npm-git-hooks.js] and in the oldest dispatcher the tasks of a
    package all run, in the order listed, whatever exit codes they end
    with.  Only a command that cannot be started stops them: the tasks
    after it are not started and a [RunTaskError] is thrown. *)
Lemma runTasks_runs_every_task : forall w fields items pkg before,
  lookup (str "tasks") fields = Some (JArr items) ->
  Forall (fun t => shell_exec w (absolute pkg) t <> ExecThrew) before ->
  (strings_of items = Some before -> before <> [] ->
   NpmGitHooks.runTasks w (Some (JObj fields)) pkg true
   = (map (EExec (absolute pkg)) before, Ret tt)
   /\ Dispatch0.runTasks w (Some (JObj fields)) pkg true
      = (map (EExec (absolute pkg)) before, Ret tt))
  /\ (forall task rest,
         strings_of items = Some (before ++ task :: rest) ->
         shell_exec w (absolute pkg) task = ExecThrew ->
         NpmGitHooks.runTasks w (Some (JObj fields)) pkg true
         = (map (EExec (absolute pkg)) before,
            Throws (RunTaskError task (name pkg)))
         /\ Dispatch0.runTasks w (Some (JObj fields)) pkg true
            = (map (EExec (absolute pkg)) before,
               Throws (RunTaskError task (name pkg)))).
Proof.
  intros w fields items pkg before Hl Hok.
  assert (E : forall l, strings_of items = Some l -> l <> [] ->
              NpmGitHooks.runTasks w (Some (JObj fields)) pkg true
              = forEach l (fun task => NpmGitHooks.runTask w task pkg)
              /\ Dispatch0.runTasks w (Some (JObj fields)) pkg true
                 = forEach l (fun task => NpmGitHooks.runTask w task pkg)).
  { intros l Hs Hne.
    unfold NpmGitHooks.runTasks, Dispatch0.runTasks. cbn [prop].
    rewrite Hl, !bind_ret. cbn [truthy andb].
    rewrite (strings_of_nonempty _ _ Hs Hne). unfold string_array.
    rewrite Hs, !bind_ret. split; reflexivity. }
  split.
  - intros Hs Hne. destruct (E _ Hs Hne) as [-> ->].
    now rewrite forEach_runTask_all.
  - intros task rest Hs Ht.
    destruct (E _ Hs ltac:(now destruct before)) as [-> ->].
    now rewrite forEach_runTask_throws.
Qed.

Lemma runTasks_runs_every_task_witness :
  NpmGitHooks.runTasks (world None None)
    (hook_config ["exit 1"%string; "npm test"%string]) package_A true
  = ([EExec (str "/repo/A") (str "exit 1");
      EExec (str "/repo/A") (str "npm test")], Ret tt).
Proof.
  refine (proj1 (proj1 (runTasks_runs_every_task (world None None)
                          [(str "tasks",
                            strings ["exit 1"%string; "npm test"%string])]
                          [JStr (str "exit 1"); JStr (str "npm test")]
                          package_A [str "exit 1"; str "npm test"]
                          eq_refl _) eq_refl _)).
  - repeat constructor; discriminate.
  - discriminate.
Defined.

(** ** Collecting the errors of the packages *)

Lemma visit_collects : forall w operation fileList packages errors,
  Forall (fun pkg => goes_on (Dispatch0.attempt w operation fileList pkg))
         packages ->
  Dispatch0.visit w operation fileList packages errors
  = (flat_map (fun pkg => trace (Dispatch0.attempt w operation fileList pkg))
              packages,
     Ret (errors
          ++ flat_map
               (fun pkg => thrown (Dispatch0.attempt w operation fileList pkg))
               packages)).
Proof.
  intros w operation fileList packages errors H. revert errors.
  induction H as [|pkg packages Hp _ IH]; intros errors.
  - cbn. now rewrite app_nil_r.
  - cbn [Dispatch0.visit flat_map]. unfold goes_on, thrown, trace, result in *.
    destruct (Dispatch0.attempt w operation fileList pkg) as [t [[]|e|c|]];
      cbn [fst snd] in *; try contradiction.
    + cbn [bind ret catch app]. rewrite IH. cbn [app].
      now rewrite !app_nil_r.
    + cbn [bind catch]. rewrite Hp. cbn [ret app bind]. rewrite IH.
      now rewrite !app_nil_r, <- app_assoc.
Qed.

(** The oldest dispatcher visits every package: an error of one package
    that is no [RunTaskError] is put aside and the packages after it are
    still processed.  At the end the promise is fulfilled when no error was
    put aside, and rejected with all of them, in the order of the packages,
    otherwise. *)
Lemma oldest_run_visits_every_package : forall w operation fileList packages,
  Forall (fun pkg => goes_on (Dispatch0.attempt w operation fileList pkg))
         packages ->
  let errors :=
    flat_map (fun pkg => thrown (Dispatch0.attempt w operation fileList pkg))
             packages in
  Dispatch0.run_packages w operation fileList packages
  = (flat_map (fun pkg => trace (Dispatch0.attempt w operation fileList pkg))
              packages,
     Ret (match errors with [] => Fulfilled | _ => Rejected errors end)).
Proof.
  intros w operation fileList packages H errors.
  unfold Dispatch0.run_packages. rewrite visit_collects by exact H.
  cbn [app bind ret]. fold errors. rewrite app_nil_r.
  now destruct errors.
Qed.

Lemma oldest_run_visits_every_package_witness :
  Dispatch0.run_packages
    (world (Some manifest_plain) (Some (manifest0 true [] ["echo B"%string])))
    (str "pre-push") (Flag true) [package_A; package_B]
  = ([EExec (str "/repo/B") (str "echo B")],
     Ret (Rejected [NoConfigError (Some (JStr (str "pkg")))])).
Proof.
  apply (oldest_run_visits_every_package
           (world (Some manifest_plain)
                  (Some (manifest0 true [] ["echo B"%string])))
           (str "pre-push") (Flag true) [package_A; package_B]).
  repeat constructor.
Defined.

Lemma soft_is_no_RunTaskError : forall e,
  is_soft e = true -> isRunTaskError e = false.
Proof. intros []; cbn; congruence. Qed.

Lemma loop_with_if_handlers : forall w operation fileList packages errors,
  Forall (fun pkg =>
            falls_through (NpmGitHooks.attempt w operation fileList pkg))
         packages ->
  NpmGitHooks.loop w HandlersIf.errorCallback operation fileList packages errors
  = (flat_map (fun pkg =>
                 trace (NpmGitHooks.attempt w operation fileList pkg)
                 ++ map EInfo
                      (thrown (NpmGitHooks.attempt w operation fileList pkg)))
              packages,
     Ret (Some (errors
                ++ flat_map
                     (fun pkg =>
                        thrown (NpmGitHooks.attempt w operation fileList pkg))
                     packages))).
Proof.
  intros w operation fileList packages errors H. revert errors.
  induction H as [|pkg packages Hp _ IH]; intros errors.
  - cbn. now rewrite app_nil_r.
  - cbn [NpmGitHooks.loop flat_map].
    unfold falls_through, thrown, trace, result in *.
    destruct (NpmGitHooks.attempt w operation fileList pkg)
      as [t [[|]|e|c|]]; cbn [fst snd] in *; try contradiction.
    + cbn [bind ret catch app fst snd]. rewrite IH. cbn [map app].
      now rewrite !app_nil_r.
    + cbn [bind catch]. rewrite (soft_is_no_RunTaskError _ Hp).
      unfold HandlersIf.errorCallback. cbn [forEach].
      unfold is_soft in Hp. rewrite Hp.
      cbn [emit ret bind app fst snd]. rewrite IH. cbn [map app].
      now rewrite <- !app_assoc.
Qed.

(** With the handlers of the unnamed file, the loop of
    [src/npm-git-hooks.js] goes through all the packages as long as each
    turn falls through or throws an error these handlers let pass: such an
    error is printed at its package and the next package is processed.
    The process ends with exit code 0, through [successCallback], only when
    no package threw; otherwise [run] returns without ending the process. *)
Lemma one_pass_run_with_if_handlers : forall w operation fileList packages,
  Forall (fun pkg =>
            falls_through (NpmGitHooks.attempt w operation fileList pkg))
         packages ->
  let lines :=
    flat_map (fun pkg =>
                trace (NpmGitHooks.attempt w operation fileList pkg)
                ++ map EInfo
                     (thrown (NpmGitHooks.attempt w operation fileList pkg)))
             packages in
  let errors :=
    flat_map (fun pkg => thrown (NpmGitHooks.attempt w operation fileList pkg))
             packages in
  NpmGitHooks.run_packages w HandlersIf.errorCallback
    HandlersIf.successCallback operation fileList packages
  = match errors with
    | [] => (lines ++ [ESuccess], Exits 0)
    | _ => (lines, Ret tt)
    end.
Proof.
  intros w operation fileList packages H lines errors.
  unfold NpmGitHooks.run_packages. rewrite loop_with_if_handlers by exact H.
  fold lines. cbn [app bind]. fold errors.
  destruct errors; cbn; now rewrite ?app_nil_r.
Qed.

Lemma one_pass_run_with_if_handlers_witness :
  NpmGitHooks.run_packages
    (world (Some manifest_plain) (Some (manifest1 true [] ["echo B"%string])))
    HandlersIf.errorCallback HandlersIf.successCallback
    (str "pre-push") (Flag true) [package_A; package_B]
  = ([EInfo (NoConfigError (Some (JStr (str "pkg"))));
      EExec (str "/repo/B") (str "echo B")],
     Ret tt).
Proof.
  apply (one_pass_run_with_if_handlers
           (world (Some manifest_plain)
                  (Some (manifest1 true [] ["echo B"%string])))
           (str "pre-push") (Flag true) [package_A; package_B]).
  repeat constructor.
Defined.

(** ** Selecting the packages in src/main.js *)

Lemma mapM_throws : forall A B (f : A -> M B) before x after e,
  Forall (fun a => exists b, f a = ret b) before ->
  f x = throw e ->
  Main.mapM f (before ++ x :: after) = throw e.
Proof.
  intros A B f before x after e H Hx.
  induction H as [|a before [b Hb] _ IH]; cbn [app Main.mapM].
  - now rewrite Hx.
  - now rewrite Hb, bind_ret, IH.
Qed.

(** In [src/main.js] the configurations of all the packages are resolved
    before any package is filtered or run, and nothing catches what
    [mapPackageConfig] throws: one package without a configuration (or
    whose manifest cannot be loaded) makes the selection throw, whatever
    the packages before and after it hold, and no line is printed. *)
Lemma main_missing_config_aborts : forall w operation before pkg after e,
  Forall (fun p => exists c, Main.mapPackageConfig w p = ret c) before ->
  Main.mapPackageConfig w pkg = throw e ->
  Main.selected w operation (before ++ pkg :: after) = throw e.
Proof.
  intros w operation before pkg after e H Hp. unfold Main.selected.
  now rewrite (mapM_throws _ _ _ before pkg after e H Hp).
Qed.

Lemma main_missing_config_aborts_witness :
  Main.selected
    (world (Some (JObj [(str "npm-git-hooks",
                         JObj [(str "skip-users", JArr []);
                               (str "pre-push", strings ["echo A"%string])])]))
           (Some manifest_plain))
    (str "pre-push") [package_A; package_B]
  = throw (NoConfigError (Some (JStr (str "B")))).
Proof.
  apply (main_missing_config_aborts _ (str "pre-push")
           [package_A] package_B []).
  - constructor; [|constructor]. eexists. reflexivity.
  - reflexivity.
Defined.

(** ** File matching without changes *)

(** [fileMatch] of [src/main.js] when nothing changed.  For [pre-commit]
    with nothing staged, the [NoStagedFileError] of [getStagedFiles] is
    caught and printed and the package is dropped.  For [pre-push] with no
    commit to push, [getCommitedFiles] ends the process with exit code 1
    itself, so the [catch] of [fileMatch] never sees the error.  For every
    other operation the restrictions are not read and the package is kept. *)
Lemma fileMatch_without_changes : forall w config restrictions rx,
  Main.get config (str "restrictions") = ret restrictions ->
  Utils.buildFilePattern restrictions (relative (Main.pkg config)) = ret rx ->
  (staged_files w = [] ->
   Main.fileMatch w config (str "pre-commit")
   = ([EInfo NoStagedFileError], Ret false))
  /\ (unpushed_commits w = [] ->
      Main.fileMatch w config (str "pre-push")
      = ([EFatal NoCommitsError], Exits 1))
  /\ (forall operation,
         operation <> str "pre-push" -> operation <> str "pre-commit" ->
         Main.fileMatch w config operation = ret true).
Proof.
  intros w config restrictions rx Hr Hp. split; [|split].
  - intros Hs. unfold Main.fileMatch.
    change (str_eqb (str "pre-commit") (str "pre-push")) with false.
    change (str_eqb (str "pre-commit") (str "pre-commit")) with true.
    cbn [orb]. rewrite Hr, bind_ret, Hp, bind_ret.
    unfold Git.getStagedFiles. rewrite Hs. reflexivity.
  - intros Hs. unfold Main.fileMatch.
    change (str_eqb (str "pre-push") (str "pre-push")) with true.
    change (str_eqb (str "pre-push") (str "pre-commit")) with false.
    cbn [orb]. rewrite Hr, bind_ret, Hp, bind_ret.
    unfold Git.getCommitedFiles. rewrite Hs. reflexivity.
  - intros operation H1 H2. unfold Main.fileMatch.
    destruct (str_eqb operation (str "pre-push")) eqn:E1;
      [apply str_eqb_eq in E1; congruence|].
    destruct (str_eqb operation (str "pre-commit")) eqn:E2;
      [apply str_eqb_eq in E2; congruence|].
    reflexivity.
Qed.

Lemma fileMatch_without_changes_witness :
  Main.fileMatch quiet_world
    (config_A [(str "skip-users", JArr [])] (JBool true)) (str "pre-commit")
  = ([EInfo NoStagedFileError], Ret false).
Proof.
  refine (proj1 (fileMatch_without_changes quiet_world
                   (config_A [(str "skip-users", JArr [])] (JBool true))
                   None _ eq_refl eq_refl) eq_refl).
Defined.

(** ** Which entries package discovery looks at *)

Lemma search_one_group : forall icase terms s,
  forallb anchor_free terms = true ->
  (RegExp.search icase
     (RegExp.alt_all
        [RegExp.cat_all [RegExp.alt_all [RegExp.cat_all terms]]]) s = true
   <-> exists before w after,
         s = before ++ w ++ after
         /\ RegExp.Match icase false false (RegExp.cat_all terms) w).
Proof.
  intros icase terms s Ht. unfold RegExp.search.
  rewrite search_anchor_free.
  2:{ cbn. now rewrite (anchor_free_cat_all _ Ht). }
  split; intros (a & w & b & E & H); exists a, w, b; (split; [exact E|]).
  - apply match_alt_all in H. destruct H as (r & [<-|[]] & H).
    apply match_cat_all_cons in H. destruct H as (w1 & w2 & -> & H1 & H2).
    apply match_cat_all_nil in H2. subst w2. rewrite app_nil_r.
    apply match_alt_all in H1. now destruct H1 as (r & [<-|[]] & H1).
  - apply match_alt_all. eexists. split; [now left|].
    apply match_cat_all_cons. exists w, []. rewrite app_nil_r.
    repeat split; [|now apply match_cat_all_nil].
    apply match_alt_all. eexists. split; [now left | exact H].
Qed.

(** The two patterns that [findAllPackages] hands to [scandir] are
    searched anywhere in the name of an entry, whatever the case of its
    letters.  An entry counts as a manifest when its name contains
    [package], one more character that is no line terminator, and [json];
    a directory is left out when its name contains [node_modules]. *)
Lemma discovery_patterns : forall sub,
  (RegExp.test discovery_pattern sub = true
   <-> exists before p c j after,
         sub = before ++ p ++ c :: j ++ after
         /\ ci_eq (str "package") p
         /\ is_line_terminator c = false
         /\ ci_eq (str "json") j)
  /\ (RegExp.test discovery_exclude sub = true
      <-> occurs_ci (str "node_modules") sub).
Proof.
  intros sub. unfold RegExp.test, RegExp.exec. split.
  - change (RegExp.ignoreCase discovery_pattern) with true.
    change (RegExp.source discovery_pattern)
      with (RegExp.alt_all
              [RegExp.cat_all
                 [RegExp.alt_all
                    [RegExp.cat_all
                       (atoms (str "package")
                          ++ RegExp.Sym RegExp.CAny :: atoms (str "json"))]]]).
    rewrite search_one_group by reflexivity. split.
    + intros (a & w & b & -> & H). apply match_cat_all_app in H.
      destruct H as (p & w2 & -> & Hp & H2).
      apply match_cat_all_cons in H2.
      destruct H2 as (w1 & j & -> & Hc & Hj).
      apply match_sym in Hc. destruct Hc as (c & -> & Hc).
      apply match_literal in Hp; [|reflexivity].
      apply match_literal in Hj; [|reflexivity].
      exists a, p, c, j, b. repeat split; auto.
      * now rewrite <- !app_assoc.
      * cbn in Hc. now apply negb_true_iff in Hc.
    + intros (a & p & c & j & b & -> & Hp & Hc & Hj).
      exists a, (p ++ c :: j), b. split; [now rewrite <- !app_assoc|].
      apply match_cat_all_app. exists p, (c :: j). repeat split.
      * now apply match_literal.
      * apply match_cat_all_cons. exists [c], j. repeat split.
        -- apply match_sym. exists c. split; [reflexivity|]. cbn.
           now apply negb_true_iff.
        -- now apply match_literal.
  - change (RegExp.ignoreCase discovery_exclude) with true.
    change (RegExp.source discovery_exclude)
      with (RegExp.alt_all
              [RegExp.cat_all
                 [RegExp.alt_all
                    [RegExp.cat_all (atoms (str "node_modules"))]]]).
    rewrite search_one_group by reflexivity. unfold occurs_ci. split.
    + intros (a & w & b & -> & H). apply match_literal in H; [|reflexivity].
      now exists a, w, b.
    + intros (a & w & b & -> & H). exists a, w, b. split; [reflexivity|].
      now apply match_literal.
Qed.

Lemma bind_ret_inv : forall A B (m : M A) (k : A -> M B) b,
  bind m k = ret b -> exists a, m = ret a /\ k a = ret b.
Proof.
  intros A B [t [a|e|c|]] k b H; try discriminate.
  exists a. unfold bind in H. destruct (k a) as [t' o]. unfold ret in *.
  injection H as Ht Ho. apply app_eq_nil in Ht. destruct Ht as [-> ->].
  now subst.
Qed.

(** A directory that the walk does not leave is listed once for every
    entry whose name matches the pattern: with a manifest and a copy of it
    side by side, the directory is found twice. *)
Lemma leaf_listed_once_per_match : forall exclude pattern dir entries lst,
  is_leaf exclude entries = true ->
  Utils.recursive exclude pattern dir entries lst
  = ret (lst ++ map (fun _ => dir)
                    (filter (RegExp.test pattern) (entry_names entries))).
Proof.
  intros exclude pattern dir entries.
  induction entries as [|sub node rest IH].
  - intros lst _. cbn. now rewrite app_nil_r.
  - intros lst H. cbn [Utils.recursive entry_names filter].
    destruct node as [|readable es]; cbn [is_leaf] in H.
    + destruct (RegExp.test pattern sub); rewrite bind_ret, IH by exact H.
      * cbn [map]. now rewrite <- app_assoc.
      * reflexivity.
    + apply andb_true_iff in H. destruct H as [Hex H]. rewrite Hex.
      cbn [negb].
      destruct (RegExp.test pattern sub); rewrite bind_ret, IH by exact H.
      * cbn [map]. now rewrite <- app_assoc.
      * reflexivity.
Qed.

Lemma leaf_listed_once_per_match_witness :
  Utils.recursive discovery_exclude discovery_pattern (str "/repo/A/")
    (ECons (str "package.json") File
       (ECons (str "package.json.bak") File
          (ECons (str "node_modules")
             (Dir false (ECons (str "x") (Dir true ENil) ENil)) ENil))) []
  = ret [str "/repo/A/"; str "/repo/A/"].
Proof.
  apply (leaf_listed_once_per_match discovery_exclude discovery_pattern
           (str "/repo/A/")
           (ECons (str "package.json") File
              (ECons (str "package.json.bak") File
                 (ECons (str "node_modules")
                    (Dir false (ECons (str "x") (Dir true ENil) ENil))
                    ENil))) []).
  reflexivity.
Defined.

(** ** The paths of the packages found *)

Lemma last_char_app : forall a b,
  b <> [] -> last_char (a ++ b) = last_char b.
Proof.
  induction a as [|c a IH]; intros b Hb; [reflexivity|].
  cbn [app last_char]. destruct (a ++ b) eqn:E.
  - apply app_eq_nil in E. destruct E. congruence.
  - rewrite <- E. now apply IH.
Qed.

Lemma ends_with_slash_app : forall a b,
  b <> [] -> ends_with_slash (a ++ b) = ends_with_slash b.
Proof.
  intros a b Hb. unfold ends_with_slash. now rewrite last_char_app.
Qed.

Lemma ends_with_slash_nonempty : forall s, ends_with_slash s = true -> s <> [].
Proof. intros [|c s] H; [discriminate | congruence]. Qed.

Lemma below_trans : forall dir sub p,
  below (dir ++ sub ++ str "/") p -> below dir p.
Proof.
  intros dir sub p (y & -> & Hy). exists ((sub ++ str "/") ++ y).
  split; [now rewrite <- !app_assoc|]. right.
  destruct Hy as [->|Hy].
  - rewrite app_nil_r. now rewrite ends_with_slash_app.
  - rewrite ends_with_slash_app; [exact Hy|].
    now apply ends_with_slash_nonempty.
Qed.

Lemma below_refl : forall dir, below dir dir.
Proof. intros dir. exists []. rewrite app_nil_r. auto. Qed.

(** What [recursive] returns is the list it was given, then directories
    at or below the one it walks. *)
Lemma recursive_below : forall exclude pattern entries dir lst l,
  Utils.recursive exclude pattern dir entries lst = ret l ->
  exists added, l = lst ++ added /\ Forall (below dir) added.
Proof.
  intros exclude pattern entries.
  induction entries using fsentries_mut with
    (P := fun node => forall readable es, node = Dir readable es ->
            forall dir lst l,
              Utils.recursive exclude pattern dir es lst = ret l ->
              exists added, l = lst ++ added /\ Forall (below dir) added).
  - discriminate.
  - intros readable' es E. injection E as -> ->. exact IHentries.
  - intros dir lst l H. injection H as <-. exists []. rewrite app_nil_r.
    split; [reflexivity | constructor].
  - intros dir lst l H. cbn [Utils.recursive] in H.
    apply bind_ret_inv in H. destruct H as (lst1 & H1 & H2).
    apply IHentries0 in H2. destruct H2 as (added2 & -> & Hadd2).
    assert (Hhere : forall m : M (list jsstring),
               m = ret lst1 ->
               m = ret (lst ++ [dir]) \/ m = ret lst ->
               exists added, lst1 = lst ++ added /\ Forall (below dir) added).
    { intros m E [E'|E']; rewrite E' in E; injection E as <-.
      - exists [dir]. split; [reflexivity|].
        constructor; [apply below_refl | constructor].
      - exists []. rewrite app_nil_r. split; [reflexivity | constructor]. }
    assert (H1' : exists added1,
               lst1 = lst ++ added1 /\ Forall (below dir) added1).
    { destruct node as [|readable es].
      - apply (Hhere _ H1).
        destruct (RegExp.test pattern name0); auto.
      - destruct (RegExp.test exclude name0); cbn [negb] in H1.
        + apply (Hhere _ H1).
          destruct (RegExp.test pattern name0); auto.
        + destruct readable; [|discriminate].
          apply (IHentries true es eq_refl) in H1.
          destruct H1 as (added1 & -> & Hadd1). exists added1.
          split; [reflexivity|].
          eapply Forall_impl; [|exact Hadd1].
          intros p Hp. now apply below_trans with (sub := name0). }
    destruct H1' as (added1 & -> & Hadd1).
    exists (added1 ++ added2). rewrite app_assoc. split; [reflexivity|].
    apply Forall_app. now split.
Qed.

Lemma starts_with_app : forall p s, starts_with p (p ++ s) = true.
Proof.
  induction p as [|c p IH]; intros s; [reflexivity|].
  cbn. now rewrite Ascii.eqb_refl, IH.
Qed.

Lemma skipn_length_app : forall (p s : jsstring),
  skipn (List.length p) (p ++ s) = s.
Proof. induction p as [|c p IH]; intros s; [reflexivity | apply IH]. Qed.

Lemma replace_first_prefix : forall pat rep rest,
  replace_first pat rep (pat ++ rest) = rep ++ rest.
Proof.
  intros pat rep rest.
  assert (E : forall s, replace_first pat rep s
                        = if starts_with pat s
                          then rep ++ skipn (List.length pat) s
                          else match s with
                               | [] => []
                               | c :: s' => c :: replace_first pat rep s'
                               end).
  { intros [|c s]; reflexivity. }
  now rewrite E, starts_with_app, skipn_length_app.
Qed.

(** Every package that [findAllPackages] returns lies at the root or below
    it: its absolute path is the root followed by the path from it, its
    relative path is a dot followed by that same path, and its name is the
    last segment of its absolute path. *)
Lemma findAllPackages_paths : forall w root pkgs,
  root <> [] -> ends_with_slash root = false ->
  findAllPackages w root = ret pkgs ->
  Forall (fun p =>
            exists rest,
              absolute p = root ++ rest
              /\ relative p = str "." ++ rest
              /\ name p = basename (absolute p)
              /\ (rest = [] \/ starts_with (str "/") rest = true))
         pkgs.
Proof.
  intros w root pkgs Hne Hslash H. unfold findAllPackages in H.
  apply bind_ret_inv in H. destruct H as (dirs & Hscan & Hpkgs).
  injection Hpkgs as <-.
  assert (Hdirs : Forall (below (root ++ str "/")) dirs).
  { destruct (fs_root w) as [|[|] entries]; try discriminate.
    rewrite scandir_recursive, Hslash in Hscan.
    apply recursive_below in Hscan.
    now destruct Hscan as (added & -> & Hadd). }
  apply Forall_forall. intros p Hp. apply in_map_iff in Hp.
  destruct Hp as (d & <- & Hd). apply filter_In in Hd. destruct Hd as [Hd _].
  rewrite Forall_forall in Hdirs. destruct (Hdirs d Hd) as (y & -> & Hy).
  cbn [absolute relative name].
  assert (Hend : ends_with_slash ((root ++ str "/") ++ y) = true).
  { destruct Hy as [->|Hy].
    - rewrite app_nil_r. now rewrite ends_with_slash_app.
    - rewrite ends_with_slash_app; [exact Hy|].
      now apply ends_with_slash_nonempty. }
  assert (Hres : resolve ((root ++ str "/") ++ y)
                 = root ++ removelast (str "/" ++ y)).
  { unfold resolve. rewrite Hend, <- app_assoc.
    rewrite removelast_app by discriminate.
    destruct root as [|c root]; [congruence | reflexivity]. }
  rewrite Hres. exists (removelast (str "/" ++ y)).
  split; [reflexivity|]. split; [apply replace_first_prefix|].
  split; [reflexivity|].
  destruct y as [|c y]; [now left | right; reflexivity].
Qed.

Lemma findAllPackages_paths_witness :
  exists pkgs,
    findAllPackages (world None None) (str "/repo") = ret pkgs
    /\ Forall (fun p => exists rest,
                 absolute p = str "/repo" ++ rest
                 /\ relative p = str "." ++ rest
                 /\ name p = basename (absolute p)
                 /\ (rest = [] \/ starts_with (str "/") rest = true))
              pkgs.
Proof.
  exists [package_A; package_B]. split; [reflexivity|].
  apply (findAllPackages_paths (world None None) (str "/repo")).
  - discriminate.
  - reflexivity.
  - reflexivity.
Defined.

(** ** Reading the output of git *)

Lemma split_not_nil : forall sep s, split sep s <> [].
Proof.
  intros sep [|c s]; cbn; [discriminate|].
  destruct (Ascii.eqb c sep); [discriminate|].
  destruct (split sep s); discriminate.
Qed.

Lemma split_no_sep : forall sep s,
  Forall (fun piece => ~ In sep piece) (split sep s).
Proof.
  intros sep. induction s as [|c s IH]; cbn [split].
  - constructor; [intros [] | constructor].
  - destruct (Ascii.eqb c sep) eqn:E.
    + constructor; [intros [] | exact IH].
    + destruct (split sep s) as [|piece pieces].
      * constructor; [|constructor]. intros [->|[]].
        now rewrite Ascii.eqb_refl in E.
      * inversion IH as [|? ? Hp Hps]; subst. constructor; [|exact Hps].
        intros [->|Hin]; [now rewrite Ascii.eqb_refl in E | auto].
Qed.

Lemma trim_start_nil : forall s, trim_start s = [] <-> blank s.
Proof.
  unfold blank. induction s as [|c s IH]; cbn [trim_start].
  - split; [constructor | reflexivity].
  - destruct (is_white_space c) eqn:E.
    + rewrite IH. split; [now constructor | now inversion 1].
    + split; [discriminate|]. inversion 1; congruence.
Qed.

Lemma trim_nil : forall s, trim s = [] <-> blank s.
Proof.
  intros s. unfold trim. split.
  - intros H. apply (f_equal (@rev ascii)) in H.
    rewrite rev_involutive in H. cbn in H. apply trim_start_nil in H.
    apply trim_start_nil. destruct (trim_start s) as [|c t] eqn:E;
      [reflexivity|].
    apply trim_start_head in E. unfold blank in H.
    rewrite Forall_forall in H. specialize (H c).
    rewrite H in E; [discriminate|]. apply in_rev. rewrite rev_involutive.
    now left.
  - intros H. apply trim_start_nil in H. now rewrite H.
Qed.

(** The list of lines read from the output of a git command is empty
    exactly when the output is blank, and its items are never empty and
    hold no line feed.  So [getStagedFiles] throws its [NoStagedFileError]
    exactly when [git diff --cached --name-only] prints nothing but white
    space, and returns the lines otherwise. *)
Lemma lines_of_git_output : forall w output,
  staged_files w = GitOutput.lines output ->
  (blank output -> Git.getStagedFiles w = throw NoStagedFileError)
  /\ (~ blank output ->
      Git.getStagedFiles w = ret (GitOutput.lines output)
      /\ GitOutput.lines output <> [])
  /\ Forall (fun file => file <> [] /\ ~ In line_feed file)
            (GitOutput.lines output).
Proof.
  intros w output Hw.
  assert (Hall : Forall (fun file => file <> [] /\ ~ In line_feed file)
                        (GitOutput.lines output)).
  { unfold GitOutput.lines. apply Forall_forall. intros x Hx.
    apply filter_In in Hx. destruct Hx as [Hx Ht]. split.
    - intros ->. discriminate.
    - pose proof (split_no_sep line_feed (trim output)) as Hs.
      rewrite Forall_forall in Hs. now apply Hs. }
  assert (Hnil : GitOutput.lines output = [] <-> blank output).
  { rewrite <- trim_nil. unfold GitOutput.lines. split.
    - intros H. destruct (trim output) as [|c s] eqn:E; [reflexivity|].
      exfalso. pose proof (trim_head _ _ _ E) as Hc.
      cbn [split] in H.
      assert (Ec : Ascii.eqb c line_feed = false).
      { destruct (Ascii.eqb c line_feed) eqn:Ec; [|reflexivity].
        apply Ascii.eqb_eq in Ec. subst c. discriminate. }
      rewrite Ec in H. destruct (split line_feed s); discriminate.
    - intros ->. reflexivity. }
  unfold Git.getStagedFiles. rewrite Hw. split; [|split; [|exact Hall]].
  - intros Hb. apply Hnil in Hb. now rewrite Hb.
  - intros Hb. destruct (GitOutput.lines output) eqn:E.
    + exfalso. apply Hb, Hnil. reflexivity.
    + split; [reflexivity | discriminate].
Qed.

Lemma lines_of_git_output_witness :
  Git.getStagedFiles quiet_world = throw NoStagedFileError.
Proof.
  apply (proj1 (lines_of_git_output quiet_world [line_feed] eq_refl)).
  repeat constructor.
Defined.

Lemma one_per_line_join : forall n l,
  one_per_line (n :: l) = join [line_feed] (n :: l) ++ [line_feed].
Proof.
  intros n l. revert n. induction l as [|m l IH]; intros n.
  - cbn. now rewrite app_nil_r.
  - change (one_per_line (n :: m :: l))
      with ((n ++ [line_feed]) ++ one_per_line (m :: l)).
    rewrite IH.
    change (join [line_feed] (n :: m :: l))
      with (n ++ [line_feed] ++ join [line_feed] (m :: l)).
    now rewrite <- !app_assoc.
Qed.

Lemma trim_start_blank_app : forall t s,
  blank t -> trim_start (t ++ s) = trim_start s.
Proof.
  intros t s H. induction H as [|c t Hc _ IH]; [reflexivity|].
  cbn [app trim_start]. now rewrite Hc.
Qed.

Lemma last_char_snoc : forall s d,
  last_char s = Some d -> exists s', s = s' ++ [d].
Proof.
  induction s as [|c s IH]; intros d H; [discriminate|].
  destruct s as [|c' s].
  - injection H as <-. now exists [].
  - destruct (IH d H) as [s' E]. exists (c :: s'). cbn [app]. now rewrite <- E.
Qed.

Lemma trim_clean : forall s t c d,
  hd_error s = Some c -> is_white_space c = false ->
  last_char s = Some d -> is_white_space d = false ->
  blank t -> trim (s ++ t) = s.
Proof.
  intros s t c d Hc Hcw Hd Hdw Ht. unfold trim.
  destruct s as [|c0 s0]; [discriminate|]. injection Hc as ->.
  cbn [app trim_start]. rewrite Hcw.
  change (c :: s0 ++ t) with ((c :: s0) ++ t).
  destruct (last_char_snoc _ _ Hd) as [s' E]. rewrite E.
  rewrite rev_app_distr, trim_start_blank_app.
  - rewrite rev_app_distr. cbn [rev app trim_start]. rewrite Hdw.
    change (d :: rev s') with ([d] ++ rev s').
    rewrite rev_app_distr, rev_involutive. reflexivity.
  - unfold blank in *. apply Forall_forall. intros x Hx.
    apply in_rev in Hx. rewrite Forall_forall in Ht. now apply Ht.
Qed.

Lemma split_without_sep : forall sep x, ~ In sep x -> split sep x = [x].
Proof.
  intros sep. induction x as [|c x IH]; intros H; [reflexivity|].
  cbn [split]. destruct (Ascii.eqb c sep) eqn:E.
  - apply Ascii.eqb_eq in E. subst. exfalso. apply H. now left.
  - rewrite IH; [reflexivity|]. intros Hin. apply H. now right.
Qed.

Lemma split_app_sep : forall sep x s,
  ~ In sep x -> split sep (x ++ sep :: s) = x :: split sep s.
Proof.
  intros sep. induction x as [|c x IH]; intros s H.
  - cbn [app split]. now rewrite Ascii.eqb_refl.
  - cbn [app split]. destruct (Ascii.eqb c sep) eqn:E.
    + apply Ascii.eqb_eq in E. subst. exfalso. apply H. now left.
    + rewrite IH; [reflexivity|]. intros Hin. apply H. now right.
Qed.

Lemma split_join : forall sep n l,
  Forall (fun x => ~ In sep x) (n :: l) ->
  split sep (join [sep] (n :: l)) = n :: l.
Proof.
  intros sep n l. revert n. induction l as [|m l IH]; intros n H.
  - cbn [join]. apply split_without_sep. now inversion H.
  - change (join [sep] (n :: m :: l))
      with (n ++ sep :: join [sep] (m :: l)).
    inversion H as [|? ? Hn Hl]; subst.
    rewrite split_app_sep by exact Hn. now rewrite IH.
Qed.

Lemma join_ends : forall n l,
  Forall clean_name (n :: l) ->
  exists c d,
    hd_error (join [line_feed] (n :: l)) = Some c
    /\ is_white_space c = false
    /\ last_char (join [line_feed] (n :: l)) = Some d
    /\ is_white_space d = false.
Proof.
  intros n l. revert n. induction l as [|m l IH]; intros n H.
  - inversion H as [|? ? (_ & c & Hc & Hcw & d & Hd & Hdw) _]; subst.
    now exists c, d.
  - inversion H as [|? ? (_ & c & Hc & Hcw & _) Hl]; subst.
    destruct (IH m Hl) as (_ & d & _ & _ & Hd & Hdw).
    exists c, d.
    change (join [line_feed] (n :: m :: l))
      with (n ++ [line_feed] ++ join [line_feed] (m :: l)).
    repeat split; auto.
    + destruct n; [discriminate | exact Hc].
    + rewrite !last_char_app; [exact Hd| |].
      * intros E. rewrite E in Hd. discriminate.
      * discriminate.
Qed.

(** Parsing gives back what git printed: for file names without a line
    feed and without white space at their ends, the lines read from the
    output that lists them one per line are these names, in order. *)
Lemma lines_round_trip : forall names,
  Forall clean_name names ->
  GitOutput.lines (one_per_line names) = names.
Proof.
  intros [|n l] H; [reflexivity|].
  unfold GitOutput.lines. rewrite one_per_line_join.
  destruct (join_ends n l H) as (c & d & Hc & Hcw & Hd & Hdw).
  rewrite (trim_clean _ [line_feed] c d Hc Hcw Hd Hdw)
    by (repeat constructor).
  rewrite split_join.
  - apply forallb_filter_id. apply forallb_forall. intros x Hx.
    rewrite Forall_forall in H. destruct (H x Hx) as (_ & c' & Hc' & _).
    destruct x; [discriminate | reflexivity].
  - eapply Forall_impl; [|exact H]. now intros x (Hx & _).
Qed.

Lemma lines_round_trip_witness :
  GitOutput.lines (one_per_line [str "A/index.js"; str "B/read me.md"])
  = [str "A/index.js"; str "B/read me.md"].
Proof.
  apply lines_round_trip.
  apply Forall_cons; [|apply Forall_cons; [|apply Forall_nil]].
  - split.
    + intros H. cbn in H.
      repeat (destruct H as [H|H]; [discriminate H|]). exact H.
    + eexists. split; [reflexivity|]. split; [reflexivity|].
      eexists. split; reflexivity.
  - split.
    + intros H. cbn in H.
      repeat (destruct H as [H|H]; [discriminate H|]). exact H.
    + eexists. split; [reflexivity|]. split; [reflexivity|].
      eexists. split; reflexivity.
Defined.

(** ** Walking up the directories *)

Lemma starts_with_firstn : forall p n s,
  starts_with p (firstn n s) = true -> starts_with p s = true.
Proof.
  induction p as [|x p IH]; intros n s H; [reflexivity|].
  destruct n as [|n]; [discriminate|]. destruct s as [|y s]; [discriminate|].
  cbn in *. apply andb_true_iff in H. destruct H as [-> H].
  now apply IH with (n := n).
Qed.

Lemma starts_with_nil : forall p, p <> [] -> starts_with p [] = false.
Proof. intros [|x p] H; [congruence | reflexivity]. Qed.

Lemma indexOf_spec : forall p s,
  p <> [] ->
  (includes p s = false /\ indexOf p s = (-1)%Z)
  \/ (exists n rest,
         indexOf p s = Z.of_nat n
         /\ s = firstn n s ++ rest
         /\ starts_with p rest = true
         /\ includes p (firstn n s) = false
         /\ includes p s = true).
Proof.
  intros p s Hp. induction s as [|c s IH].
  - left. cbn. now rewrite starts_with_nil.
  - cbn [indexOf includes]. destruct (starts_with p (c :: s)) eqn:E.
    + right. exists O, (c :: s). cbn [firstn app includes].
      rewrite starts_with_nil by exact Hp. auto.
    + destruct IH as [[Hi Hx]|(n & rest & Hx & Hs & Hr & Hpre & Hi)].
      * left. rewrite Hi, Hx. auto.
      * right. exists (S n), rest. rewrite Hx, Hi.
        assert ((Z.of_nat n <? 0)%Z = false) as -> by lia.
        cbn [firstn app includes orb]. rewrite <- Hs, Hpre.
        repeat split; auto; try lia.
        destruct (starts_with p (c :: firstn n s)) eqn:E'; [|reflexivity].
        apply (starts_with_firstn p (S n) (c :: s)) in E'. congruence.
Qed.

(** [stripNodeModules] keeps what stands before the first occurrence of
    [node_modules] in a path: the result is a prefix of the path, holds no
    [node_modules], and is the whole path exactly when the path holds
    none. *)
Lemma stripNodeModules_prefix : forall dir,
  exists rest,
    dir = UtilsFs.stripNodeModules dir ++ rest
    /\ includes (str "node_modules") (UtilsFs.stripNodeModules dir) = false
    /\ (includes (str "node_modules") dir = true ->
        starts_with (str "node_modules") rest = true)
    /\ (includes (str "node_modules") dir = false -> rest = []).
Proof.
  intros dir. unfold UtilsFs.stripNodeModules, substring_to.
  destruct (indexOf_spec (str "node_modules") dir ltac:(discriminate))
    as [[Hi Hx]|(n & rest & Hx & Hs & Hr & Hpre & Hi)]; rewrite Hx.
  - exists []. change (0 <=? -1)%Z with false. cbv iota.
    rewrite app_nil_r, Hi. repeat split; congruence.
  - assert ((0 <=? Z.of_nat n)%Z = true) as -> by lia.
    rewrite Nat2Z.id. exists rest. rewrite Hi. repeat split; auto.
    discriminate.
Qed.

Lemma filter_none : forall (f : jsstring -> bool) l,
  existsb f l = false -> filter f l = [].
Proof.
  intros f. induction l as [|x l IH]; cbn; [reflexivity|].
  destruct (f x); [discriminate | exact IH].
Qed.

Lemma filter_some : forall (f : jsstring -> bool) l,
  existsb f l = true -> exists x, hd_error (filter f l) = Some x /\ f x = true.
Proof.
  intros f. induction l as [|x l IH]; cbn; [discriminate|].
  destruct (f x) eqn:E; [now exists x | exact IH].
Qed.

Lemma read_listed : forall disk f dir,
  listable disk dir = true ->
  exists c,
    UtilsFs.read disk dir = ret c
    /\ (lists disk f dir = false -> first_where f c = None)
    /\ (lists disk f dir = true ->
        exists x, first_where f c = Some (JStr x) /\ f x = true).
Proof.
  intros disk f dir H. unfold listable, lists, UtilsFs.read,
    UtilsFs.isADirectory in *.
  destruct (node_at disk dir) as [[|[|] entries]|]; try discriminate.
  exists (Listing (entry_names entries)). split; [reflexivity|]. split.
  - intros E. cbn. now rewrite filter_none.
  - intros E. cbn. destruct (filter_some _ _ E) as (x & -> & Hx).
    now exists x.
Qed.

Lemma lists_listable : forall disk f dir,
  lists disk f dir = true -> listable disk dir = true.
Proof.
  intros disk f dir. unfold lists, listable.
  now destruct (node_at disk dir) as [[|[|] entries]|].
Qed.

Lemma listable_isADirectory : forall disk dir,
  listable disk dir = true -> UtilsFs.isADirectory disk dir = true.
Proof.
  intros disk dir. unfold listable, UtilsFs.isADirectory.
  now destruct (node_at disk dir) as [[|[|] entries]|].
Qed.

Lemma none_between_shorter : forall disk f dir rest x,
  none_between disk f dir (rest ++ [x]) -> none_between disk f dir rest.
Proof.
  intros disk f dir rest x H pre suf E Hpre.
  apply (H pre (suf ++ [x])); [|exact Hpre]. now rewrite E, app_assoc.
Qed.

Lemma findPackage_from_up : forall disk dir rest depth,
  none_between disk (includes (str "package.json")) dir rest ->
  UtilsFs.findPackage_from disk (List.length rest + depth) (dir ++ rest)
  = UtilsFs.findPackage_from disk depth dir.
Proof.
  intros disk dir rest. induction rest as [|x rest IH] using rev_ind;
    intros depth H.
  - now rewrite app_nil_r.
  - rewrite length_app. cbn [List.length]. rewrite Nat.add_1_r.
    cbn [Nat.add UtilsFs.findPackage_from].
    destruct (H (rest ++ [x]) [] ltac:(now rewrite app_nil_r)
                ltac:(now destruct rest)) as [Hl Hn].
    assert (Hroot : UtilsFs.isAtRoot (dir ++ rest ++ [x]) = false).
    { rewrite app_assoc. now destruct (dir ++ rest). }
    rewrite Hroot, (listable_isADirectory _ _ Hl). cbn [orb negb].
    destruct (read_listed disk (includes (str "package.json")) _ Hl)
      as (c & -> & Hnone & _).
    rewrite bind_ret. rewrite (Hnone Hn). cbn [truthy].
    unfold dirname. rewrite app_assoc, removelast_last.
    apply IH. now apply none_between_shorter with (x := x).
Qed.

(** [findPackage] climbs from [dir] to the nearest directory that lists an
    entry whose name contains [package.json], and returns the path
    [package.json] in that directory, whether such a file exists there or
    not.  The root directory is never searched: when no directory on the way
    holds such an entry the climb ends there with a [PathNotFoundError], as
    it does at a path that is no directory. *)
Lemma findPackage_nearest : forall disk dir rest,
  none_between disk (includes (str "package.json")) dir rest ->
  (dir <> [] ->
   lists disk (includes (str "package.json")) dir = true ->
   UtilsFs.findPackage disk (dir ++ rest) = ret (dir ++ [str "package.json"]))
  /\ (dir = [] \/ UtilsFs.isADirectory disk dir = false ->
      UtilsFs.findPackage disk (dir ++ rest) = throw PathNotFoundError).
Proof.
  intros disk dir rest H. unfold UtilsFs.findPackage.
  rewrite length_app, (Nat.add_comm (List.length dir)), <- Nat.add_succ_r.
  rewrite findPackage_from_up by exact H.
  cbn [UtilsFs.findPackage_from]. split.
  - intros Hne Hl.
    assert (Hroot : UtilsFs.isAtRoot dir = false) by now destruct dir.
    pose proof (lists_listable _ _ _ Hl) as Hd.
    rewrite Hroot, (listable_isADirectory _ _ Hd). cbn [orb negb].
    destruct (read_listed disk (includes (str "package.json")) _ Hd)
      as (c & -> & _ & Hsome).
    rewrite bind_ret. destruct (Hsome Hl) as (x & -> & Hx).
    destruct x as [|c0 x]; [discriminate | reflexivity].
  - intros [->|Hd]; [reflexivity|]. rewrite Hd.
    now rewrite orb_true_r.
Qed.

Lemma findPackage_nearest_witness :
  UtilsFs.findPackage checkout
    ([str "home"; str "dev"; str "repo"] ++ [str "src"; str "lib"])
  = ret ([str "home"; str "dev"; str "repo"] ++ [str "package.json"]).
Proof.
  refine (proj1 (findPackage_nearest checkout
                   [str "home"; str "dev"; str "repo"]
                   [str "src"; str "lib"] _) _ eq_refl).
  - intros pre suf E Hpre.
    destruct pre as [|a pre]; [congruence|].
    cbn [app] in E. injection E as Ha E. subst a.
    destruct pre as [|b pre]; [split; reflexivity|].
    cbn [app] in E. injection E as Hb E. subst b.
    destruct pre; [split; reflexivity | discriminate E].
  - discriminate.
Defined.

(** ** Finding the repository *)

Lemma read_cases : forall disk p,
  (exists c, UtilsFs.read disk p = ret c)
  \/ (exists e, UtilsFs.read disk p = throw e).
Proof.
  intros disk p. unfold UtilsFs.read.
  destruct (UtilsFs.isADirectory disk p);
    destruct (node_at disk p) as [[|[|] entries]|]; eauto.
Qed.

Lemma read_not_listed : forall disk f dir c,
  lists disk f dir = false ->
  UtilsFs.read disk dir = ret c -> first_where f c = None.
Proof.
  intros disk f dir c. unfold lists, UtilsFs.read, UtilsFs.isADirectory.
  destruct (node_at disk dir) as [[|[|] entries]|]; intros H E;
    try discriminate; injection E as <-; [reflexivity|].
  cbn. now rewrite filter_none.
Qed.

Lemma is_git_eq : forall x, is_git x = true -> x = str ".git".
Proof. intros x H. now apply str_eqb_eq. Qed.

Lemma getRootDir_S : forall disk stack dir,
  GitDir.getRootDir disk (S stack) dir
  = catch
      (bind (UtilsFs.read disk dir)
         (fun c =>
            if truthy (first_where is_git c) then ret dir
            else GitDir.getRootDir disk stack (dirname dir)))
      (fun _ => throw no_repository).
Proof. reflexivity. Qed.

Lemma getRootDir_found : forall disk dir rest stack,
  lists disk is_git dir = true ->
  none_between disk is_git dir rest ->
  GitDir.getRootDir disk (List.length rest + S stack) (dir ++ rest) = ret dir.
Proof.
  intros disk dir rest stack Hl.
  induction rest as [|x rest IH] using rev_ind; intros H.
  - rewrite app_nil_r. cbn [List.length Nat.add]. rewrite getRootDir_S.
    destruct (read_listed disk is_git _ (lists_listable _ _ _ Hl))
      as (c & -> & _ & Hsome).
    rewrite bind_ret. destruct (Hsome Hl) as (x & Hx & Hg).
    rewrite Hx, (is_git_eq _ Hg). reflexivity.
  - rewrite length_app. cbn [List.length]. rewrite Nat.add_1_r.
    cbn [Nat.add]. rewrite getRootDir_S.
    destruct (H (rest ++ [x]) [] ltac:(now rewrite app_nil_r)
                ltac:(now destruct rest)) as [Hd Hn].
    destruct (read_listed disk is_git _ Hd) as (c & -> & Hnone & _).
    rewrite bind_ret, (Hnone Hn). cbn [truthy].
    unfold dirname. rewrite app_assoc, removelast_last.
    rewrite IH; [reflexivity|].
    now apply none_between_shorter with (x := x).
Qed.

Lemma getRootDir_fails : forall disk stack dir,
  (forall pre suf, dir = pre ++ suf -> lists disk is_git pre = false) ->
  GitDir.getRootDir disk (S stack) dir = throw no_repository.
Proof.
  intros disk. induction stack as [|stack IH]; intros dir H;
    rewrite getRootDir_S;
    (destruct (read_cases disk dir) as [[c Hc]|[e He]];
     [rewrite Hc, bind_ret,
        (read_not_listed disk is_git dir c
           (H dir [] ltac:(now rewrite app_nil_r)) Hc);
      cbn [truthy]
     |now rewrite He]).
  - reflexivity.
  - rewrite IH; [reflexivity|].
    intros pre suf E. unfold dirname in E.
    destruct dir as [|y dir _] using rev_ind.
    + cbn in E. symmetry in E. apply app_eq_nil in E. destruct E as [-> _].
      apply (H [] []). reflexivity.
    + rewrite removelast_last in E. apply (H pre (suf ++ [y])).
      now rewrite E, app_assoc.
Qed.

(** [getRootDir] of the second generation climbs from [dir] to the nearest
    directory that lists an entry named [.git], a file or a directory, and
    returns that directory, as long as the engine has room for one call for
    each directory on the way.  When no directory from [dir] up to the root
    lists such an entry it throws its one [Error], however much room there
    is: the climb does not stop at the root directory, it ends with the
    stack. *)
Lemma getRootDir_nearest : forall disk dir rest stack,
  (lists disk is_git dir = true ->
   none_between disk is_git dir rest ->
   GitDir.getRootDir disk (List.length rest + S stack) (dir ++ rest)
   = ret dir)
  /\ ((forall pre suf, dir = pre ++ suf -> lists disk is_git pre = false) ->
      GitDir.getRootDir disk (S stack) dir = throw no_repository).
Proof.
  intros disk dir rest stack. split.
  - now apply getRootDir_found.
  - now apply getRootDir_fails.
Qed.

Lemma getRootDir_nearest_witness :
  GitDir.getRootDir checkout 10
    ([str "home"; str "dev"; str "repo"] ++ [str "src"; str "lib"])
  = ret [str "home"; str "dev"; str "repo"].
Proof.
  refine (proj1 (getRootDir_nearest checkout
                   [str "home"; str "dev"; str "repo"]
                   [str "src"; str "lib"] 7) eq_refl _).
  intros pre suf E Hpre.
  destruct pre as [|a pre]; [congruence|].
  cbn [app] in E. injection E as Ha E. subst a.
  destruct pre as [|b pre]; [split; reflexivity|].
  cbn [app] in E. injection E as Hb E. subst b.
  destruct pre; [split; reflexivity | discriminate E].
Defined.

(** ** The cached root directory of the first generation *)

Lemma catch_ret_inv : forall A (m : M A) h a,
  catch m (fun e => throw (h e)) = ret a -> m = ret a.
Proof.
  intros A [t [x|e|c|]] h a H; cbn in H; try exact H; discriminate.
Qed.

(** [getRootDir] of the first generation stores in the variable [rootDir]
    of the module the name of the entry it looked for, not the directory
    it found.  A call that finds the repository returns its directory and
    leaves [.git] in the variable; every later call returns [.git],
    whatever directory it is asked about. *)
Lemma cached_root_is_the_entry_name : forall disk stack dir rootDir r rootDir',
  truthy rootDir = false ->
  GitCache.getRootDir disk stack dir rootDir = (ret r, rootDir') ->
  rootDir' = Some (JStr (str ".git"))
  /\ forall stack' dir',
       GitCache.getRootDir disk stack' dir' rootDir'
       = (ret (Some (JStr (str ".git"))), rootDir').
Proof.
  intros disk. induction stack as [|stack IH];
    intros dir rootDir r rootDir' Hc H; cbn [GitCache.getRootDir] in H;
    rewrite Hc in H; [discriminate|].
  destruct (UtilsFs.read disk dir) as [t [c|e|x|]]; try discriminate.
  fold is_git in H.
  destruct (truthy (first_where is_git c)) eqn:Hg.
  - injection H as _ <-.
    assert (E : first_where is_git c = Some (JStr (str ".git"))).
    { destruct c as [files|]; [|discriminate]. cbn in *.
      destruct (filter is_git files) as [|x l] eqn:F; [discriminate|].
      assert (Hx : In x (filter is_git files)) by (rewrite F; now left).
      apply filter_In in Hx. destruct Hx as [_ Hx].
      now rewrite (is_git_eq _ Hx). }
    rewrite E. split; [reflexivity|]. intros [|stack'] dir'; reflexivity.
  - destruct (GitCache.getRootDir disk stack (dirname dir)
                (first_where is_git c)) as [m rd] eqn:Hrec.
    injection H as Hm <-.
    apply (catch_ret_inv _ m (fun _ => no_repository)) in Hm. subst m.
    exact (IH _ _ _ _ Hg Hrec).
Qed.

Lemma cached_root_is_the_entry_name_witness :
  GitCache.getRootDir checkout 10 [str "home"; str "dev"; str "repo"; str "src"]
    None
  = (ret (Some (JStr (str "/home/dev/repo"))), Some (JStr (str ".git")))
  /\ GitCache.getRootDir checkout 10
       [str "home"; str "dev"; str "repo"; str "src"]
       (Some (JStr (str ".git")))
     = (ret (Some (JStr (str ".git"))), Some (JStr (str ".git"))).
Proof.
  split; [reflexivity|].
  apply (proj2 (cached_root_is_the_entry_name checkout 10
                  [str "home"; str "dev"; str "repo"; str "src"] None
                  (Some (JStr (str "/home/dev/repo")))
                  (Some (JStr (str ".git"))) eq_refl eq_refl)).
Defined.

(** ** The configuration the installer writes *)

Lemma lookup_assign : forall k v fields,
  lookup k (Install.assign k v fields) = Some v.
Proof.
  intros k v. unfold Install.assign.
  induction fields as [|[k' v'] fields IH]; cbn [app lookup].
  - now rewrite str_eqb_refl.
  - now rewrite IH.
Qed.

(** For a manifest without a configuration the installer writes one with
    [enabled], empty [restrictions] that hold the [skip-users], and an
    empty list of [tasks] for each hook.  Only the dispatcher of
    [src/npm-git-hooks.js] reads this format: for every hook it finds no
    task, and throws a [NoTaskError], or a [NoFileError] when no changed
    file matches.  [src/main.js] looks for [skip-users] beside [enabled]
    and the oldest dispatcher for [restrictions] in the entry of the hook:
    both throw a TypeError on it. *)
Lemma installed_configuration : forall fields,
  truthy (lookup (str "npm-git-hooks") fields) = false ->
  exists manifest,
    Install.configure Install.hooks (JObj fields) = ret (Some manifest)
    /\ forall w pkg operation,
         In operation Install.hooks ->
         (require w (resolve2 (absolute pkg) (str "package.json"))
          = Some manifest ->
          (atomic_string (relative pkg) ->
           exists rx,
             forall fileList,
               NpmGitHooks.attempt w operation fileList pkg
               = throw (if some_file fileList rx
                        then NoTaskError (name pkg)
                        else NoFileError (name pkg)))
          /\ exists config,
               Main.mapPackageConfig w pkg = ret config
               /\ Main.enabled config = JBool true
               /\ Main.skipPackage w config = throw TypeError)
         /\ (require w (absolute pkg) = Some manifest ->
             forall fileList,
               Dispatch0.attempt w operation fileList pkg = throw TypeError).
Proof.
  intros fields Hno.
  exists (JObj (Install.assign (str "npm-git-hooks")
                  (Install.emptyConfig Install.hooks) fields)).
  split.
  { unfold Install.configure. cbn [prop]. rewrite bind_ret, Hno.
    reflexivity. }
  intros w pkg operation Hop.
  pose (R := [(str "fileTypes", JArr []); (str "folders", JArr []);
              (str "skip-users", JArr [])]).
  pose (F := match Install.emptyConfig Install.hooks with
             | JObj f => f
             | _ => []
             end).
  assert (E : Install.emptyConfig Install.hooks = JObj F) by reflexivity.
  assert (Hr : lookup (str "restrictions") F = Some (JObj R)) by reflexivity.
  assert (He : lookup (str "enabled") F = Some (JBool true)) by reflexivity.
  assert (Hs : lookup (str "skip-users") F = None) by reflexivity.
  assert (Hsr : lookup (str "skip-users") R = Some (JArr [])) by reflexivity.
  assert (Hhook : lookup operation F = Some (JObj [(str "tasks", JArr [])])
                  /\ truthy (Some (JStr operation)) = true
                  /\ lookup (str "restrictions") [(str "tasks", JArr [])]
                     = None).
  { cbn in Hop. decompose [or] Hop; subst; try (repeat split; reflexivity).
    contradiction. }
  destruct Hhook as (Hhook & Ht & Hhr).
  clearbody F. rewrite E. split.
  - intros Hreq. split.
    + intros Hrel.
      destruct (@parse_pattern_source (Some []) (Some []) (relative pkg) Hrel
                  ltac:(constructor) ltac:(constructor))
        as (prefix & _ & Hparse).
      assert (Hrx : exists rx,
                 Utils.buildFilePattern (Some (JObj R)) (relative pkg)
                 = ret rx).
      { eexists.
        change (Utils.buildFilePattern (Some (JObj R)) (relative pkg))
          with (Utils.buildFilePattern (restrictions_of (Some []) (Some []))
                  (relative pkg)).
        rewrite buildFilePattern_source. unfold new_RegExp, RegExp.make.
        rewrite Hparse. reflexivity. }
      destruct Hrx as [rx Hrx]. exists rx. intros fileList. clearbody R.
      unfold NpmGitHooks.attempt, load. rewrite Hreq, bind_ret.
      unfold NpmGitHooks.getPackageConfig. cbn [truthy prop].
      rewrite lookup_assign, !bind_ret. cbn [truthy].
      unfold Git.getUsername. rewrite !bind_ret. cbn [prop].
      rewrite Hr, bind_ret. cbn [prop]. rewrite Hsr, bind_ret.
      cbn [indexOf_found existsb]. rewrite bind_ret, He, bind_ret.
      cbn [truthy negb]. rewrite Hrx, bind_ret, Hhook, bind_ret.
      unfold NpmGitHooks.runTasks.
      destruct (some_file fileList rx); reflexivity.
    + exists {| Main.section := JObj F; Main.pkg := pkg;
                Main.enabled := JBool true |}.
      split; [|split; [reflexivity|]].
      * unfold Main.mapPackageConfig, load. rewrite Hreq, bind_ret.
        cbn [truthy prop]. rewrite lookup_assign, bind_ret. cbn [truthy].
        now rewrite He.
      * unfold Main.skipPackage, Main.get.
        change (str_eqb (str "skip-users") (str "enabled")) with false.
        change (str_eqb (str "skip-users") (str "pkg")) with false.
        cbn [Main.section prop]. now rewrite Hs, bind_ret.
  - intros Hreq fileList.
    destruct operation as [|c operation]; [discriminate Ht|].
    unfold Dispatch0.attempt, load. rewrite Hreq, bind_ret.
    unfold Dispatch0.getPackageConfig. cbn [truthy prop].
    rewrite lookup_assign, !bind_ret. cbn [truthy prop].
    rewrite Hhook, !bind_ret. cbn [truthy]. rewrite ?bind_ret.
    unfold Git.getUsername. rewrite bind_ret. cbn [prop].
    now rewrite Hhr, bind_ret.
Qed.

Lemma installed_configuration_witness :
  exists manifest,
    Install.configure Install.hooks manifest_plain = ret (Some manifest)
    /\ Main.mapPackageConfig (world (Some manifest) None) package_A
       = ret {| Main.section := Install.emptyConfig Install.hooks;
                Main.pkg := package_A; Main.enabled := JBool true |}.
Proof.
  destruct (installed_configuration [(str "name", JStr (str "pkg"))] eq_refl)
    as (manifest & Hm & H).
  exists manifest. split; [exact Hm|].
  injection Hm as <-. reflexivity.
Defined.

(** ** Extensions other than the last *)

Lemma group_alts_cases : forall sep norm xs r,
  xs <> [] -> In r (group_alts sep norm xs) ->
  r = RegExp.cat_all (atoms (norm (last xs [])))
  \/ exists x, In x xs /\ r = RegExp.cat_all (atoms (norm x) ++ sep).
Proof.
  intros sep norm. induction xs as [|x xs IH]; intros r H Hin; [congruence|].
  destruct xs as [|y xs].
  - destruct Hin as [<-|[]]. now left.
  - destruct Hin as [<-|Hin].
    + right. exists x. split; [now left | reflexivity].
    + destruct (IH r ltac:(discriminate) Hin) as [->|(x' & Hx & ->)].
      * now left.
      * right. exists x'. split; [now right | reflexivity].
Qed.

Lemma only_bar_matches_bar : forall c,
  RegExp.cs_mem true (RegExp.CChar "|"%char) c = true -> c = "|"%char.
Proof.
  intros [[] [] [] [] [] [] [] []] H; try discriminate H; reflexivity.
Qed.

Lemma separator_holds_bar : forall u,
  RegExp.Match true false false (RegExp.cat_all type_separator) u ->
  In "|"%char u.
Proof.
  intros u H. unfold type_separator in H.
  apply match_cat_all_cons in H. destruct H as (a & b & -> & _ & H).
  apply match_cat_all_cons in H. destruct H as (b1 & b2 & -> & H & _).
  apply match_sym in H. destruct H as (c & -> & Hc).
  apply only_bar_matches_bar in Hc. subst c.
  apply in_or_app. right. now left.
Qed.

Lemma trim_start_incl : forall c s, In c (trim_start s) -> In c s.
Proof.
  intros c. induction s as [|x s IH]; intros H; [exact H|].
  cbn [trim_start] in H. destruct (is_white_space x); [right; auto | exact H].
Qed.

Lemma trim_incl : forall c s, In c (trim s) -> In c s.
Proof.
  intros c s H. unfold trim in H. apply in_rev in H.
  apply trim_start_incl in H. apply in_rev in H.
  now apply trim_start_incl in H.
Qed.

(** The separator that [join] puts between the extensions asks for white
    space and a vertical bar after every extension but the last.  So a path
    that holds no vertical bar, as the names of staged files do, is accepted
    only when it holds a dot followed by the last extension listed: the
    extensions before the last one accept no plain file name. *)
Lemma only_the_last_extension_accepts_names :
  forall folders es relative rx path,
    atomic_string relative -> all_plain folders ->
    Forall plain_string es -> es <> [] ->
    Utils.buildFilePattern (restrictions_of folders (Some es)) relative
    = ret rx ->
    Utils.accepts rx path = true ->
    ~ In "|"%char path ->
    occurs_ci (str "." ++ last es []) (trim path).
Proof.
  intros folders es relative rx path Hrel Hfs Hes Hne Hrx Hacc Hbar.
  destruct (@parse_pattern_source folders (Some es) relative Hrel
              (@all_plain_atomic _ Hfs) (@all_plain_atomic (Some es) Hes))
    as (prefix & Hfree & Hp).
  rewrite buildFilePattern_source in Hrx. unfold new_RegExp, RegExp.make in Hrx.
  rewrite Hp in Hrx. injection Hrx as <-.
  unfold Utils.accepts, RegExp.exec in Hacc.
  cbn [RegExp.source RegExp.ignoreCase] in Hacc.
  apply (pattern_search folders (Some es) prefix (trim path) Hfree Hfs) in Hacc.
  destruct Hacc as (before & F & mid & T & after & E & _ & _ & _ & HT).
  cbn [type_terms] in HT.
  apply match_cat_all_cons in HT. destruct HT as (w1 & w2 & -> & H1 & H2).
  apply match_sym in H1. destruct H1 as (x & -> & Hx).
  apply match_cat_all_cons in H2. destruct H2 as (w3 & w4 & -> & H3 & H4).
  apply match_cat_all_nil in H4. subst w4.
  apply match_alt_all in H3. destruct H3 as (r & Hin & Hm).
  destruct (group_alts_cases _ _ _ _ Hne Hin) as [->|(e & He & ->)].
  - rewrite Forall_forall in Hes.
    apply match_literal in Hm; [|apply Hes; now apply last_in].
    exists (before ++ F ++ mid), (x :: w3), after. split.
    + rewrite E, <- !app_assoc. cbn [app]. now rewrite ?app_nil_r.
    + unfold ci_eq in *. cbn [str list_ascii_of_string app map].
      change (Ascii.eqb (canonicalize "."%char) (canonicalize x) = true) in Hx.
      apply Ascii.eqb_eq in Hx. now rewrite Hx, Hm.
  - exfalso. apply Hbar. apply trim_incl. rewrite E.
    apply match_cat_all_app in Hm. destruct Hm as (u1 & u2 & -> & _ & Hu2).
    apply separator_holds_bar in Hu2.
    rewrite !in_app_iff. tauto.
Qed.

Lemma only_the_last_extension_accepts_names_witness :
  occurs_ci (str "." ++ str "html") (trim (str "src/index.html")).
Proof.
  assert (Hrx : exists rx,
             Utils.buildFilePattern
               (restrictions_of None (Some [str "js"; str "html"]))
               (str "./pkg") = ret rx
             /\ Utils.accepts rx (str "src/index.html") = true).
  { eexists. split; [vm_compute; reflexivity|]. vm_compute. reflexivity. }
  destruct Hrx as (rx & Hrx & Hacc).
  apply (only_the_last_extension_accepts_names None [str "js"; str "html"]
           (str "./pkg") rx (str "src/index.html")).
  - reflexivity.
  - exact I.
  - repeat constructor.
  - discriminate.
  - exact Hrx.
  - exact Hacc.
  - intros H. cbn in H.
    repeat (destruct H as [H|H]; [discriminate H|]). exact H.
Defined.

(** ** An unreadable directory and the dispatchers *)

(** A directory that cannot be listed stops every dispatcher before it
    looks at any package: discovery throws the error of [readdirSync], the
    run of [src/npm-git-hooks.js] lets it escape, and the oldest dispatcher
    rejects its promise with it.  No package is processed and no command is
    started. *)
Lemma unreadable_directory_stops_the_run :
  forall w entries errorCallback successCallback operation fileList,
    fs_root w = Dir true entries ->
    Blocked discovery_exclude entries ->
    findAllPackages w (git_root w) = throw eacces
    /\ NpmGitHooks.run w errorCallback successCallback operation fileList
       = throw eacces
    /\ Dispatch0.run w operation fileList = ret (RejectedWith eacces).
Proof.
  intros w entries errorCallback successCallback operation fileList Hfs Hb.
  assert (E : findAllPackages w (git_root w) = throw eacces).
  { unfold findAllPackages. rewrite Hfs, scandir_recursive.
    now rewrite (recursive_blocked _ discovery_pattern _ Hb). }
  split; [exact E|]. split.
  - unfold NpmGitHooks.run, Git.getRootDir. now rewrite bind_ret, E.
  - unfold Dispatch0.run, Git.getRootDir. now rewrite bind_ret, E.
Qed.

Lemma unreadable_directory_stops_the_run_witness :
  NpmGitHooks.run locked_world
    HandlersIf.errorCallback HandlersIf.successCallback
    (str "pre-push") (Flag true)
  = throw eacces.
Proof.
  refine (proj1 (proj2 (unreadable_directory_stops_the_run locked_world
                          (ECons (str "package.json") File
                             (ECons (str "locked") (Dir false ENil)
                                (ECons (str "B")
                                   (Dir true
                                      (ECons (str "package.json") File ENil))
                                   ENil)))
                          HandlersIf.errorCallback HandlersIf.successCallback
                          (str "pre-push") (Flag true) eq_refl _))).
  apply Blocked_later. apply Blocked_here. reflexivity.
Defined.

(** ** Leaving the loop of src/npm-git-hooks.js *)

(** In [src/npm-git-hooks.js] a package that is skipped, because the user
    is among its skip-users or because it is not enabled, ends the run: the
    [return] leaves the function, so the packages after it are not processed
    and neither handler is called. *)
Lemma skipped_package_leaves_the_run :
  forall w errorCallback successCallback operation fileList pkg rest
         mfields fields rfields items,
    require w (resolve2 (absolute pkg) (str "package.json"))
    = Some (JObj mfields) ->
    lookup (str "npm-git-hooks") mfields = Some (JObj fields) ->
    lookup (str "restrictions") fields = Some (JObj rfields) ->
    lookup (str "skip-users") rfields = Some (JArr items) ->
    let listed :=
      existsb (fun j => match j with
                        | JStr s => str_eqb s (git_username w)
                        | _ => false
                        end) items in
    listed = true \/ truthy (lookup (str "enabled") fields) = false ->
    NpmGitHooks.run_packages w errorCallback successCallback operation
      fileList (pkg :: rest)
    = ([if listed then ESkipUser (name pkg) else ESkipDisabled (name pkg)],
       Ret tt).
Proof.
  intros w errorCallback successCallback operation fileList pkg rest
         mfields fields rfields items Hreq Hsec Hr Hs listed Hskip.
  assert (E : NpmGitHooks.attempt w operation fileList pkg
              = ([if listed then ESkipUser (name pkg)
                  else ESkipDisabled (name pkg)], Ret Return)).
  { unfold NpmGitHooks.attempt, load. rewrite Hreq, bind_ret.
    unfold NpmGitHooks.getPackageConfig. cbn [truthy prop].
    rewrite Hsec, !bind_ret. cbn [truthy].
    unfold Git.getUsername. rewrite !bind_ret. cbn [prop].
    rewrite Hr, bind_ret. cbn [prop]. rewrite Hs, bind_ret.
    cbn [indexOf_found]. rewrite bind_ret. fold listed.
    destruct listed; [reflexivity|].
    destruct Hskip as [Hskip|Hskip]; [discriminate|].
    rewrite bind_ret, Hskip. reflexivity. }
  unfold NpmGitHooks.run_packages. cbn [NpmGitHooks.loop]. rewrite E.
  reflexivity.
Qed.

Lemma skipped_package_leaves_the_run_witness :
  NpmGitHooks.run_packages
    (world (Some (manifest1 false [] ["echo A"%string]))
           (Some (manifest1 true [] ["echo B"%string])))
    HandlersIf.errorCallback HandlersIf.successCallback
    (str "pre-push") (Flag true) [package_A; package_B]
  = ([ESkipDisabled (str "A")], Ret tt).
Proof.
  refine (skipped_package_leaves_the_run
            (world (Some (manifest1 false [] ["echo A"%string]))
                   (Some (manifest1 true [] ["echo B"%string])))
            HandlersIf.errorCallback HandlersIf.successCallback
            (str "pre-push") (Flag true) package_A [package_B]
            _ _ _ _ eq_refl eq_refl eq_refl eq_refl _).
  right. reflexivity.
Defined.

(** ** Is there an upstream? *)

(** [checkUpstream] of the first generation answers [true] whenever
    [git log] could be started, whatever its exit code: [shell.exec] does
    not throw when the command fails.  The second generation compares the
    exit code with 0. *)
Lemma checkUpstream_and_exit_codes : forall w cwd remote branch code,
  shell_exec w cwd (GitUpstream.log_command remote branch) = Exited code ->
  GitUpstream.checkUpstream1 w cwd remote branch = ret true
  /\ GitUpstream.checkUpstream w cwd remote branch = ret (Z.eqb code 0).
Proof.
  intros w cwd remote branch code H.
  unfold GitUpstream.checkUpstream1, GitUpstream.checkUpstream.
  rewrite H. split; reflexivity.
Qed.

Lemma checkUpstream_and_exit_codes_witness :
  GitUpstream.checkUpstream1 no_upstream_world (str "/repo")
    (str "origin") (str "feature") = ret true
  /\ GitUpstream.checkUpstream no_upstream_world (str "/repo")
       (str "origin") (str "feature") = ret false.
Proof.
  apply (checkUpstream_and_exit_codes no_upstream_world (str "/repo")
           (str "origin") (str "feature") 128%Z).
  reflexivity.
Defined.

(** ** The hooks directory *)

Lemma node_at_app : forall p q disk,
  node_at disk (p ++ q)
  = match node_at disk p with
    | Some node => node_at node q
    | None => None
    end.
Proof.
  induction p as [|s p IH]; intros q disk; [reflexivity|].
  cbn [app node_at]. destruct disk as [|r es]; [reflexivity|].
  destruct (entry s es); [apply IH | reflexivity].
Qed.

Lemma str_eqb_false_trans : forall s sub s',
  str_eqb s sub = false -> str_eqb sub s' = true -> str_eqb s s' = false.
Proof.
  intros s sub s' H1 H2. apply str_eqb_eq in H2. now subst.
Qed.

Lemma entry_replace_same : forall sub node entries,
  entry sub entries <> None ->
  entry sub (replace_entry sub node entries) = Some node.
Proof.
  intros sub node. induction entries as [|s n rest IH]; intros H.
  - now contradiction H.
  - cbn [entry replace_entry] in *. destruct (str_eqb sub s) eqn:E.
    + cbn [entry]. now rewrite E.
    + cbn [entry]. rewrite E. now apply IH.
Qed.

Lemma entry_replace_other : forall s sub node entries,
  str_eqb s sub = false ->
  entry s (replace_entry sub node entries) = entry s entries.
Proof.
  intros s sub node. induction entries as [|s' n rest IH]; intros H;
    [reflexivity|].
  cbn [entry replace_entry]. destruct (str_eqb sub s') eqn:E.
  - cbn [entry]. now rewrite (str_eqb_false_trans _ _ _ H E).
  - cbn [entry]. now rewrite IH.
Qed.

Lemma entry_without_same : forall sub entries,
  entry sub (without sub entries) = None.
Proof.
  intros sub. induction entries as [|s n rest IH]; [reflexivity|].
  cbn [without]. destruct (str_eqb sub s) eqn:E; [exact IH|].
  cbn [entry]. now rewrite E.
Qed.

Lemma without_only_touches : forall sub, only_touches (without sub) sub.
Proof.
  intros sub s. induction entries as [|s' n rest IH]; intros H; [reflexivity|].
  cbn [without entry]. destruct (str_eqb sub s') eqn:E.
  - rewrite (str_eqb_false_trans _ _ _ H E). now apply IH.
  - cbn [entry]. now rewrite IH.
Qed.

Lemma entry_with_same : forall sub node entries,
  entry sub entries = None ->
  entry sub (with_entry sub node entries) = Some node.
Proof.
  intros sub node. induction entries as [|s n rest IH]; intros H.
  - cbn. now rewrite str_eqb_refl.
  - cbn [entry with_entry] in *. destruct (str_eqb sub s); [discriminate|].
    now apply IH.
Qed.

Lemma with_only_touches : forall sub node,
  only_touches (with_entry sub node) sub.
Proof.
  intros sub node s. induction entries as [|s' n rest IH]; intros H.
  - cbn. now rewrite H.
  - cbn [with_entry entry]. now rewrite IH.
Qed.

Lemma change_entries_some : forall f dir disk r entries,
  node_at disk dir = Some (Dir r entries) ->
  exists disk',
    change_entries f dir disk = Some disk'
    /\ node_at disk' dir = Some (Dir r (f entries)).
Proof.
  intros f. induction dir as [|sub dir IH]; intros disk r entries H.
  - cbn in H. injection H as ->. eexists. split; reflexivity.
  - destruct disk as [|r0 es]; [discriminate|]. cbn [node_at] in H.
    cbn [change_entries]. destruct (entry sub es) as [child|] eqn:E;
      [|discriminate].
    destruct (IH child r entries H) as (child' & -> & Hc).
    eexists. split; [reflexivity|]. cbn [node_at].
    rewrite entry_replace_same; [exact Hc|]. now rewrite E.
Qed.

Lemma change_entries_none : forall f dir disk,
  kind (node_at disk dir) <> Some true -> change_entries f dir disk = None.
Proof.
  intros f. induction dir as [|sub dir IH]; intros disk H.
  - destruct disk; [reflexivity|]. now contradiction H.
  - destruct disk as [|r es]; [reflexivity|]. cbn [node_at] in H.
    cbn [change_entries]. destruct (entry sub es) as [child|]; [|reflexivity].
    now rewrite (IH child H).
Qed.

(** Changing the entries named [sub] of the directory at [dir] changes
    what no other path leads to, the directories on the way apart, which
    stay directories. *)
Lemma change_entries_frame : forall f sub dir disk disk',
  only_touches f sub ->
  change_entries f dir disk = Some disk' ->
  forall p, (forall q, p <> dir ++ sub :: q) ->
            kind (node_at disk' p) = kind (node_at disk p).
Proof.
  intros f sub. induction dir as [|d dir IH]; intros disk disk' Hf H p Hp.
  - destruct disk as [|r es]; [discriminate|]. injection H as <-.
    destruct p as [|s q]; [reflexivity|]. cbn [node_at].
    rewrite Hf; [reflexivity|].
    destruct (str_eqb s sub) eqn:E; [|reflexivity].
    apply str_eqb_eq in E. subst s. now contradiction (Hp q).
  - destruct disk as [|r es]; [discriminate|]. cbn [change_entries] in H.
    destruct (entry d es) as [child|] eqn:E; [|discriminate].
    destruct (change_entries f dir child) as [child'|] eqn:Hc;
      [|discriminate].
    injection H as <-. destruct p as [|s q]; [reflexivity|].
    cbn [node_at]. destruct (str_eqb s d) eqn:Es.
    + apply str_eqb_eq in Es. subst s.
      rewrite entry_replace_same by now rewrite E. rewrite E.
      apply (IH child child' Hf Hc). intros q' ->. now apply (Hp q').
    + now rewrite entry_replace_other.
Qed.

Lemma kind_isADirectory : forall disk p,
  UtilsFs.isADirectory disk p = true <-> kind (node_at disk p) = Some true.
Proof.
  intros disk p. unfold UtilsFs.isADirectory, kind.
  destruct (node_at disk p) as [[|]|]; split; congruence.
Qed.

Lemma same_kind : forall disk disk' p,
  kind (node_at disk' p) = kind (node_at disk p) ->
  UtilsFs.isADirectory disk' p = UtilsFs.isADirectory disk p
  /\ UtilsFs.isAFile disk' p = UtilsFs.isAFile disk p.
Proof.
  intros disk disk' p. unfold UtilsFs.isADirectory, UtilsFs.isAFile, kind.
  destruct (node_at disk' p) as [[|]|], (node_at disk p) as [[|]|];
    intros H; try discriminate; auto.
Qed.

Lemma mkdirSync_makes : forall parent sub disk r entries,
  node_at disk parent = Some (Dir r entries) ->
  entry sub entries = None ->
  exists disk',
    mkdirSync (parent ++ [sub]) disk = (ret tt, disk')
    /\ node_at disk' (parent ++ [sub]) = Some (Dir true ENil)
    /\ forall p, (forall q, p <> parent ++ sub :: q) ->
                 kind (node_at disk' p) = kind (node_at disk p).
Proof.
  intros parent sub disk r entries Hp He. unfold mkdirSync.
  rewrite node_at_app, Hp. cbn [node_at]. rewrite He.
  rewrite removelast_last, last_last.
  destruct (change_entries_some (with_entry sub (Dir true ENil)) parent disk
              r entries Hp) as (disk' & Hc & Hn).
  rewrite Hc. exists disk'.
  assert (E : parent ++ [sub] <> []) by now destruct parent.
  destruct (parent ++ [sub]) eqn:Ep; [congruence|]. rewrite <- Ep.
  split; [reflexivity|]. split.
  - rewrite node_at_app, Hn. cbn [node_at].
    now rewrite entry_with_same.
  - intros p Hq.
    now apply (change_entries_frame _ sub parent disk disk'
                 (with_only_touches sub _) Hc).
Qed.

Lemma mkdirSync_no_parent : forall parent sub disk,
  kind (node_at disk parent) <> Some true ->
  mkdirSync (parent ++ [sub]) disk
  = (throw (SystemError (str "ENOENT")), disk).
Proof.
  intros parent sub disk Hk. unfold mkdirSync.
  assert (Hat : node_at disk (parent ++ [sub]) = None).
  { rewrite node_at_app.
    destruct (node_at disk parent) as [[|]|]; try reflexivity.
    now contradiction Hk. }
  rewrite Hat, removelast_last, (change_entries_none _ parent disk Hk).
  now destruct (parent ++ [sub]) eqn:E; [destruct parent|].
Qed.

Lemma unlinkSync_removes : forall parent sub disk r entries,
  node_at disk parent = Some (Dir r entries) ->
  entry sub entries = Some File ->
  exists disk',
    unlinkSync (parent ++ [sub]) disk = (ret tt, disk')
    /\ node_at disk' parent = Some (Dir r (without sub entries))
    /\ forall p, (forall q, p <> parent ++ sub :: q) ->
                 kind (node_at disk' p) = kind (node_at disk p).
Proof.
  intros parent sub disk r entries Hp He. unfold unlinkSync.
  rewrite node_at_app, Hp. cbn [node_at]. rewrite He.
  rewrite removelast_last, last_last.
  destruct (change_entries_some (without sub) parent disk r entries Hp)
    as (disk' & Hc & Hn).
  rewrite Hc. exists disk'. split; [reflexivity|]. split; [exact Hn|].
  intros p Hq.
  now apply (change_entries_frame _ sub parent disk disk'
               (without_only_touches sub) Hc).
Qed.

(** Once [getRootDir] has found the repository, [getHooksDir] returns the
    path [.git/hooks] below it and that path is a directory afterwards.  An
    existing directory is left as it is.  Otherwise, when [.git] is a
    directory, a file in the place of [hooks] is removed and an empty
    directory is made; no other path changes between file, directory and
    nothing.  When [.git] is no directory, as in a linked work tree where it
    is a file, the one [Error] of [getHooksDir] is thrown and the disk is
    left as it is. *)
Lemma getHooksDir_ensures_directory : forall stack module_dir disk root,
  GitDir.getRootDir disk stack module_dir = ret root ->
  let git := root ++ [str ".git"] in
  let hooks := root ++ [str ".git"; str "hooks"] in
  (UtilsFs.isADirectory disk hooks = true ->
   GitHooksDir.getHooksDir stack module_dir disk = (ret hooks, disk))
  /\ (UtilsFs.isADirectory disk hooks = false ->
      UtilsFs.isADirectory disk git = true ->
      exists disk',
        GitHooksDir.getHooksDir stack module_dir disk = (ret hooks, disk')
        /\ node_at disk' hooks = Some (Dir true ENil)
        /\ forall p,
             p <> hooks ->
             UtilsFs.isADirectory disk' p = UtilsFs.isADirectory disk p
             /\ UtilsFs.isAFile disk' p = UtilsFs.isAFile disk p)
  /\ (UtilsFs.isADirectory disk git = false ->
      GitHooksDir.getHooksDir stack module_dir disk
      = (throw no_hooks_directory, disk)).
Proof.
  intros stack module_dir disk root Hroot git hooks.
  assert (Eh : hooks = git ++ [str "hooks"]).
  { unfold hooks, git. now rewrite <- app_assoc. }
  assert (E0 : GitHooksDir.getHooksDir stack module_dir disk
               = if negb (UtilsFs.isADirectory disk hooks) then
                   let (unlinked, disk1) :=
                     if UtilsFs.isAFile disk hooks
                     then unlinkSync hooks disk
                     else (ret tt, disk) in
                   match unlinked with
                   | (_, Ret _) =>
                       let (made, disk2) := mkdirSync hooks disk1 in
                       (catch (made ;;; ret hooks)
                              (fun _ => throw no_hooks_directory), disk2)
                   | _ => (throw no_hooks_directory, disk1)
                   end
                 else (ret hooks, disk)).
  { unfold GitHooksDir.getHooksDir. rewrite Hroot. reflexivity. }
  rewrite E0. clear E0. split; [|split].
  - intros H. now rewrite H.
  - intros Hh Hg. rewrite Hh. cbn [negb].
    apply kind_isADirectory in Hg.
    destruct (node_at disk git) as [[|r entries]|] eqn:Eg; try discriminate.
    assert (Hat : node_at disk hooks
                  = match entry (str "hooks") entries with
                    | Some node => Some node
                    | None => None
                    end).
    { rewrite Eh, node_at_app, Eg. cbn [node_at].
      now destruct (entry (str "hooks") entries). }
    assert (Hbelow : forall disk2 q,
               q <> [] ->
               node_at disk2 hooks = Some (Dir true ENil) ->
               kind (node_at disk hooks) <> Some true ->
               kind (node_at disk2 (hooks ++ q))
               = kind (node_at disk (hooks ++ q))).
    { intros disk2 q Hq H2 H1. rewrite !node_at_app, H2.
      destruct q as [|s q]; [congruence|]. cbn [node_at entry].
      destruct (node_at disk hooks) as [[|]|]; try reflexivity.
      now contradiction H1. }
    assert (Hnotdir : kind (node_at disk hooks) <> Some true).
    { intros H. apply kind_isADirectory in H. congruence. }
    assert (Hsplit : forall p,
               p <> hooks ->
               (forall q, p <> git ++ str "hooks" :: q)
               \/ exists q, q <> [] /\ p = hooks ++ q).
    { intros p Hp.
      destruct (list_eq_dec (list_eq_dec Ascii.ascii_dec)
                  (firstn (List.length hooks) p) hooks) as [E|E].
      - right. exists (skipn (List.length hooks) p). split.
        + intros Hn. apply Hp. rewrite <- (firstn_skipn (List.length hooks) p).
          now rewrite Hn, app_nil_r.
        + rewrite <- E at 1. now rewrite firstn_skipn.
      - left. intros q ->. apply E. rewrite Eh.
        change (git ++ str "hooks" :: q) with (git ++ [str "hooks"] ++ q).
        rewrite app_assoc, firstn_app, Nat.sub_diag, firstn_all.
        cbn [firstn]. now rewrite app_nil_r. }
    unfold UtilsFs.isAFile. rewrite Hat.
    destruct (entry (str "hooks") entries) as [[|r' es']|] eqn:Ee.
    + destruct (unlinkSync_removes git (str "hooks") disk r entries Eg Ee)
        as (disk1 & Hu & Hg1 & Hf1).
      rewrite <- Eh in Hu. rewrite Hu. unfold ret at 1.
      destruct (mkdirSync_makes git (str "hooks") disk1 r
                  (without (str "hooks") entries) Hg1
                  (entry_without_same _ _)) as (disk2 & Hm & Hn2 & Hf2).
      rewrite <- Eh in Hm, Hn2. rewrite Hm. exists disk2.
      split; [reflexivity|]. split; [exact Hn2|].
      intros p Hp. apply same_kind.
      destruct (Hsplit p Hp) as [Hq|(q & Hq & ->)].
      * now rewrite (Hf2 p Hq), (Hf1 p Hq).
      * now apply Hbelow.
    + exfalso. apply Hnotdir. now rewrite Hat.
    + destruct (mkdirSync_makes git (str "hooks") disk r entries Eg Ee)
        as (disk2 & Hm & Hn2 & Hf2).
      rewrite <- Eh in Hm, Hn2. unfold ret at 1. rewrite Hm. exists disk2.
      split; [reflexivity|]. split; [exact Hn2|].
      intros p Hp. apply same_kind.
      destruct (Hsplit p Hp) as [Hq|(q & Hq & ->)].
      * now apply Hf2.
      * now apply Hbelow.
  - intros Hg.
    assert (Hk : kind (node_at disk git) <> Some true).
    { intros H. apply kind_isADirectory in H. congruence. }
    assert (Hat : node_at disk hooks = None).
    { rewrite Eh, node_at_app.
      destruct (node_at disk git) as [[|]|]; try reflexivity.
      now contradiction Hk. }
    unfold UtilsFs.isADirectory, UtilsFs.isAFile. rewrite Hat. cbn [negb].
    rewrite Eh, (mkdirSync_no_parent git (str "hooks") disk Hk).
    reflexivity.
Qed.

Lemma getHooksDir_ensures_directory_witness :
  exists disk',
    GitHooksDir.getHooksDir 10 [str "repo"; str "lib"]
      checkout_with_hooks_file
    = (ret [str "repo"; str ".git"; str "hooks"], disk')
    /\ node_at disk' [str "repo"; str ".git"; str "hooks"]
       = Some (Dir true ENil).
Proof.
  destruct (getHooksDir_ensures_directory 10 [str "repo"; str "lib"]
              checkout_with_hooks_file [str "repo"] eq_refl)
    as (_ & H & _).
  destruct (H eq_refl eq_refl) as (disk' & E & Hn & _).
  exists disk'. split; [exact E | exact Hn].
Defined.

(** ** The files about to be pushed *)

Lemma sh_cases : forall exec command,
  (forall r, exec command = Some r -> GitPush.sh exec command = ret r)
  /\ (exec command = None ->
      GitPush.sh exec command = throw (SystemError (str "exec"))).
Proof.
  intros exec command. unfold GitPush.sh.
  split; [intros r -> | intros ->]; reflexivity.
Qed.

Lemma getBranch_cases : forall exec,
  (forall bcode bout,
      exec (str "git rev-parse --abbrev-ref HEAD") = Some (bcode, bout) ->
      GitPush.getBranch exec = ret (trim bout))
  /\ (exec (str "git rev-parse --abbrev-ref HEAD") = None ->
      GitPush.getBranch exec
      = throw (SystemError (str "Could not locate your current branch"))).
Proof.
  intros exec. unfold GitPush.getBranch, GitPush.sh. split.
  - intros bcode bout ->. reflexivity.
  - intros ->. reflexivity.
Qed.

Lemma checkUpstream_cases : forall exec remote branch,
  (forall code out,
      exec (GitUpstream.log_command remote branch) = Some (code, out) ->
      GitPush.checkUpstream exec remote branch = ret (code =? 0)%Z)
  /\ (exec (GitUpstream.log_command remote branch) = None ->
      GitPush.checkUpstream exec remote branch
      = throw (SystemError (str "exec"))).
Proof.
  intros exec remote branch. unfold GitPush.checkUpstream, GitPush.sh. split.
  - intros code out ->. reflexivity.
  - intros ->. reflexivity.
Qed.

(** [getCommitedFiles] lets no exception out: whatever the commands give,
    it returns a list of lines or prints the error and ends the process
    with exit code 1. *)
Lemma getCommitedFiles_never_throws : forall exec rootDir argv2 chdir,
  (exists root, rootDir = ret root) \/ (exists e, rootDir = throw e) ->
  (exists files, GitPush.getCommitedFiles exec rootDir argv2 chdir = ret files)
  \/ (exists e,
         GitPush.getCommitedFiles exec rootDir argv2 chdir
         = ([EFatal e], Exits 1)).
Proof.
  intros exec rootDir argv2 chdir H.
  assert (Hbody : forall m : M (list jsstring),
             (exists files, m = ret files) \/ (exists e, m = throw e) ->
             (exists files,
                 catch m (fun e => emit (EFatal e) ;;; exit 1) = ret files)
             \/ (exists e,
                    catch m (fun e => emit (EFatal e) ;;; exit 1)
                    = ([EFatal e], Exits 1))).
  { intros m [[files ->]|[e ->]]; [left | right]; eexists; reflexivity. }
  unfold GitPush.getCommitedFiles. apply Hbody. clear Hbody.
  destruct H as [[root ->]|[e ->]]; [|right; now exists e].
  rewrite bind_ret.
  set (remote := match argv2 with
                 | Some r => if GitOutput.isTruthy r then r else str "origin"
                 | None => str "origin"
                 end).
  destruct (getBranch_cases exec) as [Hb1 Hb2].
  destruct (exec (str "git rev-parse --abbrev-ref HEAD"))
    as [[bcode bout]|]; [|rewrite Hb2 by reflexivity; right; eexists;
                           reflexivity].
  rewrite (Hb1 _ _ eq_refl), bind_ret.
  destruct (checkUpstream_cases exec remote (trim bout)) as [Hu1 Hu2].
  destruct (exec (GitUpstream.log_command remote (trim bout)))
    as [[code lout]|] eqn:Elog;
    [|rewrite Hu2 by reflexivity; right; eexists; reflexivity].
  rewrite (Hu1 _ _ eq_refl), bind_ret.
  assert (Hlast : forall command,
             (exists files,
                 bind (GitPush.sh exec command)
                      (fun r => ret (GitOutput.lines (snd r))) = ret files)
             \/ (exists e,
                    bind (GitPush.sh exec command)
                         (fun r => ret (GitOutput.lines (snd r)))
                    = throw e)).
  { intros command. destruct (sh_cases exec command) as [H1 H2].
    destruct (exec command) as [r|].
    - rewrite (H1 r eq_refl), bind_ret. left. eexists. reflexivity.
    - rewrite (H2 eq_refl). right. eexists. reflexivity. }
  destruct (code =? 0)%Z.
  - rewrite (proj1 (sh_cases exec _) _ Elog), !bind_ret. cbn [fst snd].
    destruct (Git.isEmpty (GitOutput.lines lout));
      [right; eexists; reflexivity|].
    destruct (chdir root); [|right; eexists; reflexivity].
    rewrite bind_ret. apply Hlast.
  - destruct (sh_cases exec GitPush.all_commits) as [H1 H2].
    destruct (exec GitPush.all_commits) as [[acode aout]|];
      [|rewrite (H2 eq_refl); right; eexists; reflexivity].
    rewrite (H1 _ eq_refl), !bind_ret. cbn [fst snd].
    destruct (Git.isEmpty (GitOutput.lines aout));
      [right; eexists; reflexivity|].
    destruct (chdir root); [|right; eexists; reflexivity].
    rewrite bind_ret. apply Hlast.
Qed.

Lemma getCommitedFiles_never_throws_witness :
  (exists files,
      GitPush.getCommitedFiles (fun _ => None) (ret (str "/repo")) None
        (fun _ => true) = ret files)
  \/ (exists e,
         GitPush.getCommitedFiles (fun _ => None) (ret (str "/repo")) None
           (fun _ => true) = ([EFatal e], Exits 1)).
Proof.
  apply getCommitedFiles_never_throws. left. now exists (str "/repo").
Defined.

(** The commands behind the two lists of the model of a push.  When the
    commands can be started, [getCommitedFiles] is the function of the two
    lists [unpushed_commits] and [pushed_files]: the commits are the lines
    of [git log <remote>/<branch>..HEAD] when that command ends with exit
    code 0 (there is an upstream), and the lines of the log of all branches
    otherwise; the files are the lines of [git diff --stat --cached] against
    the upstream, or against the second listed commit (the only one when
    there is just one). *)
Lemma getCommitedFiles_commands :
  forall exec root argv2 chdir w bcode branch_out code log_out
         acode all_out dcode diff_out,
    let remote := remote_of argv2 in
    let branch := trim branch_out in
    let upstream := (code =? 0)%Z in
    let commits :=
      GitOutput.lines (if upstream then log_out else all_out) in
    let against :=
      if upstream then remote ++ str "/" ++ branch
      else GitPush.base_commit commits in
    exec (str "git rev-parse --abbrev-ref HEAD") = Some (bcode, branch_out) ->
    exec (GitUpstream.log_command remote branch) = Some (code, log_out) ->
    exec GitPush.all_commits = Some (acode, all_out) ->
    exec (GitPush.diff_command against) = Some (dcode, diff_out) ->
    chdir root = true ->
    unpushed_commits w = commits ->
    pushed_files w = GitOutput.lines diff_out ->
    GitPush.getCommitedFiles exec (ret root) argv2 chdir
    = Git.getCommitedFiles w.
Proof.
  intros exec root argv2 chdir w bcode branch_out code log_out
         acode all_out dcode diff_out remote branch upstream commits against
         Hb Hl Ha Hd Hc Hu Hp.
  unfold GitPush.getCommitedFiles, Git.getCommitedFiles.
  rewrite bind_ret, Hu, Hp.
  assert (Er : match argv2 with
               | Some r => if GitOutput.isTruthy r then r else str "origin"
               | None => str "origin"
               end = remote).
  { unfold remote, remote_of. now destruct argv2 as [[|c r]|]. }
  rewrite Er. clear Er.
  rewrite (proj1 (getBranch_cases exec) _ _ Hb), bind_ret. fold branch.
  rewrite (proj1 (checkUpstream_cases exec remote branch) _ _ Hl), bind_ret.
  fold upstream. unfold against, commits in *. clear against commits.
  destruct upstream.
  - rewrite (proj1 (sh_cases exec _) _ Hl), !bind_ret. cbn [fst snd].
    destruct (Git.isEmpty (GitOutput.lines log_out)); [reflexivity|].
    rewrite Hc, bind_ret, (proj1 (sh_cases exec _) _ Hd), bind_ret.
    reflexivity.
  - rewrite (proj1 (sh_cases exec _) _ Ha), !bind_ret. cbn [fst snd].
    destruct (Git.isEmpty (GitOutput.lines all_out)); [reflexivity|].
    rewrite Hc, bind_ret, (proj1 (sh_cases exec _) _ Hd), bind_ret.
    reflexivity.
Qed.

Lemma getCommitedFiles_commands_witness :
  GitPush.getCommitedFiles ahead_shell (ret (str "/repo")) None
    (fun _ => true)
  = Git.getCommitedFiles ahead_world.
Proof.
  apply (getCommitedFiles_commands ahead_shell (str "/repo") None
           (fun _ => true) ahead_world
           0%Z (str "main" ++ [line_feed])
           0%Z (str "commit 1f3a" ++ [line_feed])
           128%Z []
           0%Z (str " A/index.js | 2 +-" ++ [line_feed]
                  ++ str " 1 file changed" ++ [line_feed]));
    reflexivity.
Defined.

(** ** The relative path of a package and the files it matches *)

Lemma bool_iff_eq : forall (a b : bool) (P : Prop),
  (a = true <-> P) -> (b = true <-> P) -> a = b.
Proof.
  intros [|] [|] P Ha Hb; try reflexivity.
  - symmetry. apply Hb, Ha. reflexivity.
  - apply Ha, Hb. reflexivity.
Qed.

(** The relative path of a package has no part in which files its pattern
    accepts: the group built from it is optional and the search is not
    anchored.  With the same restrictions, the patterns of two packages
    accept the same paths, so a changed file of one package counts for the
    other as well. *)
Lemma relative_path_does_not_restrict :
  forall folders fileTypes relative1 relative2 rx1 rx2,
    atomic_string relative1 -> atomic_string relative2 ->
    all_atomic folders -> all_atomic fileTypes ->
    Utils.buildFilePattern (restrictions_of folders fileTypes) relative1
    = ret rx1 ->
    Utils.buildFilePattern (restrictions_of folders fileTypes) relative2
    = ret rx2 ->
    forall path, Utils.accepts rx1 path = Utils.accepts rx2 path.
Proof.
  intros folders fileTypes relative1 relative2 rx1 rx2 H1 H2 Hfs Hes E1 E2 path.
  destruct (@parse_pattern_source folders fileTypes relative1 H1 Hfs Hes)
    as (p1 & Hf1 & Hp1).
  destruct (@parse_pattern_source folders fileTypes relative2 H2 Hfs Hes)
    as (p2 & Hf2 & Hp2).
  rewrite buildFilePattern_source in E1, E2.
  unfold new_RegExp, RegExp.make in E1, E2. rewrite Hp1 in E1.
  rewrite Hp2 in E2. injection E1 as <-. injection E2 as <-.
  unfold Utils.accepts, RegExp.exec. cbn [RegExp.source RegExp.ignoreCase].
  eapply bool_iff_eq;
    apply search_after_optional;
    auto using anchor_free_pattern_terms.
Qed.

Lemma relative_path_does_not_restrict_witness :
  file_accepted (restrictions_of None (Some [str "js"])) (str "./A")
    (str "B/index.js")
  = file_accepted (restrictions_of None (Some [str "js"])) (str "./B")
      (str "B/index.js").
Proof.
  assert (H1 : exists rx,
             Utils.buildFilePattern (restrictions_of None (Some [str "js"]))
               (str "./A") = ret rx).
  { eexists. vm_compute. reflexivity. }
  assert (H2 : exists rx,
             Utils.buildFilePattern (restrictions_of None (Some [str "js"]))
               (str "./B") = ret rx).
  { eexists. vm_compute. reflexivity. }
  destruct H1 as [rx1 H1], H2 as [rx2 H2].
  unfold file_accepted. rewrite H1, H2. unfold ret. f_equal.
  apply (relative_path_does_not_restrict None (Some [str "js"])
           (str "./A") (str "./B") rx1 rx2); try reflexivity;
    try exact I; try assumption.
  repeat constructor.
Defined.

(** ** Skip-users given as a string *)

(** [skipPackage] calls [indexOf] on whatever [skip-users] holds.  When it
    is a string instead of a list the search is for a substring: the package
    is skipped for every user whose name occurs in that string, and for a
    user without a name whatever the string is. *)
Lemma skip_users_as_a_string : forall w fields pkg enabled s,
  lookup (str "skip-users") fields = Some (JStr s) ->
  includes (git_username w) s = true ->
  Main.skipPackage w {| Main.section := JObj fields; Main.pkg := pkg;
                        Main.enabled := enabled |}
  = ([ESkipUser (name pkg)], Ret false).
Proof.
  intros w fields pkg enabled s Hl Hi. unfold Main.skipPackage, Main.get.
  change (str_eqb (str "skip-users") (str "enabled")) with false.
  change (str_eqb (str "skip-users") (str "pkg")) with false.
  cbn [Main.section prop]. rewrite Hl, bind_ret. cbn [indexOf_found].
  unfold Main.user. rewrite Hi, bind_ret. reflexivity.
Qed.

Lemma skip_users_as_a_string_witness :
  Main.skipPackage (world None None)
    (config_A [(str "skip-users", JStr (str "ci-jenkins-2"))] (JBool true))
  = ([ESkipUser (str "A")], Ret false).
Proof.
  apply (skip_users_as_a_string (world None None)
           [(str "skip-users", JStr (str "ci-jenkins-2"))] package_A
           (JBool true) (str "ci-jenkins-2")); reflexivity.
Defined.
